(** * dbt-ui backend: lock registry, job runner, three-way merge, write path

    A shallow embedding of the concurrency-and-conflict core of the backend:

    - [utils/merge_utils.py]   ([three_way_merge], [simple_merge]) together
      with the parts of Python's [difflib] and [str] it calls;
    - [utils/operation_lock.py] (the per-worktree lock registry);
    - [routes/dbt_routes.py]   ([dbt_command], [run_dbt_command_task]);
    - [routes/file_routes.py]  ([write_file]).

    Python [str] values are sequences of Unicode code points, modelled as
    [list N]; [py] turns a Rocq string literal into such a sequence. *)

From Stdlib Require Import NArith String Ascii DecimalString.
From stdpp Require Import base decidable option numbers list gmap sorting.

Local Open Scope nat_scope.

(** ** Python strings *)

Abbreviation str := (list N) (only parsing).

Module PyStr.

(** [py "a\nb"] is the Python literal ["a\nb"]: the two characters
    backslash, n stand for a line feed, every other character for its own
    code point. *)
Fixpoint py (s : string) : str :=
  match s with
  | EmptyString => []
  | String c r =>
      match r with
      | String d r' =>
          if (Ascii.eqb c "\" && Ascii.eqb d "n")%bool
          then 10%N :: py r'
          else N_of_ascii c :: py r
      | EmptyString => [N_of_ascii c]
      end
  end.

Definition LF : N := 10%N.
Definition CR : N := 13%N.

(** The line boundaries of [str.splitlines]: LF, CR, VT, FF, FS, GS, RS,
    NEL, LINE SEPARATOR and PARAGRAPH SEPARATOR (CR LF counts as one). *)
Definition is_linebreak (c : N) : bool :=
  (c =? 10)%N || (c =? 13)%N || (c =? 11)%N || (c =? 12)%N ||
  (c =? 28)%N || (c =? 29)%N || (c =? 30)%N || (c =? 133)%N ||
  (c =? 8232)%N || (c =? 8233)%N.

(** [s.splitlines(keepends=True)], with [cur] the line read so far. *)
Fixpoint splitlines_from (cur : str) (s : str) : list str :=
  match s with
  | [] => match cur with [] => [] | _ => [cur] end
  | c :: rest =>
      if (c =? CR)%N then
        match rest with
        | d :: rest' =>
            if (d =? LF)%N
            then (cur ++ [c; d]) :: splitlines_from [] rest'
            else (cur ++ [c]) :: splitlines_from [] rest
        | [] => (cur ++ [c]) :: splitlines_from [] rest
        end
      else if is_linebreak c then (cur ++ [c]) :: splitlines_from [] rest
      else splitlines_from (cur ++ [c]) rest
  end.

Definition splitlines (s : str) : list str := splitlines_from [] s.

(** [''.join(lines)] *)
Definition join (lines : list str) : str := concat lines.

(** [s.endswith('\n')] *)
Definition endswith_newline (s : str) : bool :=
  match last s with
  | Some c => (c =? LF)%N
  | None => false
  end.

(** [s.startswith(p)] *)
Fixpoint startswith (p s : str) : bool :=
  match p, s with
  | [], _ => true
  | _ :: _, [] => false
  | x :: p', y :: s' => (x =? y)%N && startswith p' s'
  end.

(** [needle in hay] for strings *)
Fixpoint str_in (needle hay : str) : bool :=
  startswith needle hay ||
  match hay with
  | [] => false
  | _ :: hay' => str_in needle hay'
  end.

(** [str(n)] for a non-negative integer *)
Fixpoint of_string (s : string) : str :=
  match s with
  | EmptyString => []
  | String c r => N_of_ascii c :: of_string r
  end.

Definition str_of_nat (n : nat) : str :=
  of_string (NilEmpty.string_of_uint (Nat.to_uint n)).

(** How an f-string renders an optional string: [None] prints as "None". *)
Definition fmt_opt (o : option str) : str :=
  match o with
  | Some s => s
  | None => py "None"
  end.

(** [ord(c)] of an ASCII character *)
Definition ord (c : ascii) : N := N_of_ascii c.

(** The truth value of a string: [if s], [if not s] *)
Definition truthy (s : str) : bool :=
  match s with
  | [] => false
  | _ => true
  end.

(** [c.isspace()]: the characters that [str.strip()] removes and that [\s]
    matches in a [str] pattern. *)
Definition isspace (c : N) : bool :=
  ((9 <=? c) && (c <=? 13))%N || ((28 <=? c) && (c <=? 32))%N ||
  (c =? 133)%N || (c =? 160)%N || (c =? 5760)%N ||
  ((8192 <=? c) && (c <=? 8202))%N || (c =? 8232)%N || (c =? 8233)%N ||
  (c =? 8239)%N || (c =? 8287)%N || (c =? 12288)%N.

(** [s.lstrip()], [s.rstrip()], [s.strip()] *)
Fixpoint lstrip (s : str) : str :=
  match s with
  | [] => []
  | c :: rest => if isspace c then lstrip rest else s
  end.

Definition rstrip (s : str) : str := rev (lstrip (rev s)).

Definition strip (s : str) : str := rstrip (lstrip s).

(** [s.split(sep)] for a separator of one character, with [cur] the piece
    read so far. *)
Fixpoint split_from (sep : N) (cur : str) (s : str) : list str :=
  match s with
  | [] => [cur]
  | c :: rest =>
      if (c =? sep)%N then cur :: split_from sep [] rest
      else split_from sep (cur ++ [c]) rest
  end.

Definition str_split (sep : N) (s : str) : list str := split_from sep [] s.

End PyStr.
Export PyStr.

(** ** difflib.SequenceMatcher (isjunk = None, autojunk = True) *)

Module Difflib.

Inductive tag := Replace | Delete | Insert | Equal.

#[global] Instance tag_eq_dec : EqDecision tag.
Proof. solve_decision. Defined.

(** An opcode is Python's 5-tuple [(tag, i1, i2, j1, j2)], a matching block
    the triple [(i, j, size)]. *)
Definition opcode : Type := tag * nat * nat * nat * nat.
Definition block : Type := nat * nat * nat.

Section SequenceMatcher.
Context {A : Type} `{Countable A}.

(** [__chain_b]: index every element of [b]; with 200 elements or more, the
    "popular" ones (more than 1% + 1 occurrences) are purged. No junk
    function is given, so [bjunk] stays empty. *)
Definition b2j_index (b : list A) : gmap A (list nat) :=
  foldl (fun (m : gmap A (list nat)) (p : nat * A) =>
           <[p.2 := default [] (m !! p.2) ++ [p.1]]> m)
        ∅ (imap pair b).

Definition chain_b (b : list A) : gmap A (list nat) :=
  let b2j := b2j_index b in
  let n := length b in
  if decide (200 ≤ n) then
    let ntest := n / 100 + 1 in
    filter (fun p : A * list nat => ¬ (ntest < length p.2)) b2j
  else b2j.

Definition isbjunk (x : A) : bool := false.

(** [j2len.get(j-1, 0)] *)
Definition j2len_get (j2len : gmap nat nat) (j : nat) : nat :=
  match j with
  | 0 => 0
  | S j' => default 0 (j2len !! j')
  end.

(** The inner loop [for j in b2j.get(a[i], nothing)]. The new best block
    starts at [i-k+1], written [i+1-k] on naturals. *)
Fixpoint flm_inner (i blo bhi : nat) (j2len : gmap nat nat) (js : list nat)
    (newj2len : gmap nat nat) (best : block) : gmap nat nat * block :=
  match js with
  | [] => (newj2len, best)
  | j :: js' =>
      if decide (j < blo) then flm_inner i blo bhi j2len js' newj2len best
      else if decide (bhi ≤ j) then (newj2len, best)
      else
        let k := j2len_get j2len j + 1 in
        let newj2len' := <[j := k]> newj2len in
        let best' := if decide (best.2 < k) then (i + 1 - k, j + 1 - k, k) else best in
        flm_inner i blo bhi j2len js' newj2len' best'
  end.

Definition flm_row (a : list A) (b2j : gmap A (list nat)) (blo bhi : nat)
    (st : gmap nat nat * block) (i : nat) : gmap nat nat * block :=
  let js := match a !! i with
            | Some x => default [] (b2j !! x)
            | None => []
            end in
  flm_inner i blo bhi st.1 js ∅ st.2.

Definition elt_eqb (x y : option A) : bool :=
  match x, y with
  | Some u, Some v => bool_decide (u = v)
  | _, _ => false
  end.

Definition junk_is (want : bool) (x : option A) : bool :=
  match x with
  | Some u => bool_decide (isbjunk u = want)
  | None => false
  end.

(** [while besti > alo and bestj > blo and isbjunk(b[bestj-1]) == want
           and a[besti-1] == b[bestj-1]] *)
Fixpoint extend_back (want : bool) (a b : list A) (alo blo : nat)
    (besti bestj bestsize : nat) : block :=
  match besti, bestj with
  | S i', S j' =>
      if bool_decide (alo < besti) && bool_decide (blo < bestj)
         && junk_is want (b !! j') && elt_eqb (a !! i') (b !! j')
      then extend_back want a b alo blo i' j' (bestsize + 1)
      else (besti, bestj, bestsize)
  | _, _ => (besti, bestj, bestsize)
  end.

(** [while besti+bestsize < ahi and bestj+bestsize < bhi and ...]; the loop
    runs at most [ahi - (besti+bestsize)] times, which is [steps]. *)
Fixpoint extend_fwd (want : bool) (a b : list A) (ahi bhi : nat)
    (besti bestj : nat) (steps : nat) (bestsize : nat) : nat :=
  match steps with
  | 0 => bestsize
  | S steps' =>
      if bool_decide (besti + bestsize < ahi) && bool_decide (bestj + bestsize < bhi)
         && junk_is want (b !! (bestj + bestsize))
         && elt_eqb (a !! (besti + bestsize)) (b !! (bestj + bestsize))
      then extend_fwd want a b ahi bhi besti bestj steps' (bestsize + 1)
      else bestsize
  end.

Definition extend (want : bool) (a b : list A) (alo ahi blo bhi : nat)
    (best : block) : block :=
  let '(besti, bestj, bestsize) := best in
  let '(besti, bestj, bestsize) := extend_back want a b alo blo besti bestj bestsize in
  (besti, bestj,
   extend_fwd want a b ahi bhi besti bestj (ahi - (besti + bestsize)) bestsize).

Definition find_longest_match (a b : list A) (b2j : gmap A (list nat))
    (alo ahi blo bhi : nat) : block :=
  let st := foldl (flm_row a b2j blo bhi) (∅, (alo, blo, 0)) (seq alo (ahi - alo)) in
  let best := extend false a b alo ahi blo bhi st.2 in
  extend true a b alo ahi blo bhi best.

(** The work list of [get_matching_blocks]: the head of [queue] is the end
    of Python's list, where [pop] and [append] act. Every round removes one
    range and adds strictly shorter ones, so [fuel] bounds the rounds. *)
Fixpoint mb_loop (fuel : nat) (a b : list A) (b2j : gmap A (list nat))
    (queue : list (nat * nat * nat * nat)) (matching_blocks : list block)
    : list block :=
  match fuel with
  | 0 => matching_blocks
  | S fuel' =>
      match queue with
      | [] => matching_blocks
      | (alo, ahi, blo, bhi) :: queue =>
          let x := find_longest_match a b b2j alo ahi blo bhi in
          let '(i, j, k) := x in
          if decide (k = 0) then mb_loop fuel' a b b2j queue matching_blocks
          else
            let queue := if decide (alo < i ∧ blo < j)
                         then (alo, i, blo, j) :: queue else queue in
            let queue := if decide (i + k < ahi ∧ j + k < bhi)
                         then (i + k, ahi, j + k, bhi) :: queue else queue in
            mb_loop fuel' a b b2j queue (matching_blocks ++ [x])
      end
  end.

(** Tuple comparison of [list.sort]. *)
Definition block_leb (x y : block) : bool :=
  let '(i1, j1, k1) := x in
  let '(i2, j2, k2) := y in
  bool_decide (i1 < i2) ||
  (bool_decide (i1 = i2) &&
   (bool_decide (j1 < j2) || (bool_decide (j1 = j2) && bool_decide (k1 ≤ k2)))).

Fixpoint insert_block (x : block) (l : list block) : list block :=
  match l with
  | [] => [x]
  | y :: l' => if block_leb x y then x :: l else y :: insert_block x l'
  end.

Definition sort_blocks (l : list block) : list block :=
  foldr insert_block [] l.

(** Collapsing adjacent blocks: the state is [(i1, j1, k1)] and
    [non_adjacent]. *)
Definition collapse_step (st : block * list block) (x : block)
    : block * list block :=
  let '((i1, j1, k1), non_adjacent) := st in
  let '(i2, j2, k2) := x in
  if decide (i1 + k1 = i2 ∧ j1 + k1 = j2) then ((i1, j1, k1 + k2), non_adjacent)
  else
    ((i2, j2, k2),
     if decide (k1 = 0) then non_adjacent else non_adjacent ++ [(i1, j1, k1)]).

Definition get_matching_blocks (a b : list A) : list block :=
  let la := length a in
  let lb := length b in
  let matching_blocks :=
    sort_blocks (mb_loop (2 * la + 1) a b (chain_b b) [(0, la, 0, lb)] []) in
  let '((i1, j1, k1), non_adjacent) :=
    foldl collapse_step ((0, 0, 0), []) matching_blocks in
  let non_adjacent :=
    if decide (k1 = 0) then non_adjacent else non_adjacent ++ [(i1, j1, k1)] in
  non_adjacent ++ [(la, lb, 0)].

Definition opcode_step (st : nat * nat * list opcode) (x : block)
    : nat * nat * list opcode :=
  let '(i, j, answer) := st in
  let '(ai, bj, size) := x in
  let answer :=
    if decide (i < ai ∧ j < bj) then answer ++ [(Replace, i, ai, j, bj)]
    else if decide (i < ai) then answer ++ [(Delete, i, ai, j, bj)]
    else if decide (j < bj) then answer ++ [(Insert, i, ai, j, bj)]
    else answer in
  let i := ai + size in
  let j := bj + size in
  (i, j, if decide (size = 0) then answer else answer ++ [(Equal, ai, i, bj, j)]).

Definition get_opcodes (a b : list A) : list opcode :=
  (foldl opcode_step (0, 0, []) (get_matching_blocks a b)).2.

(** [get_grouped_opcodes(n)] *)
Definition fix_first (n : nat) (codes : list opcode) : list opcode :=
  match codes with
  | (Equal, i1, i2, j1, j2) :: rest =>
      (Equal, i1 `max` (i2 - n), i2, j1 `max` (j2 - n), j2) :: rest
  | _ => codes
  end.

Fixpoint fix_last (n : nat) (codes : list opcode) : list opcode :=
  match codes with
  | [] => []
  | [c] =>
      match c with
      | (Equal, i1, i2, j1, j2) =>
          [(Equal, i1, i2 `min` (i1 + n), j1, j2 `min` (j1 + n))]
      | _ => [c]
      end
  | c :: rest => c :: fix_last n rest
  end.

Definition group_step (n : nat) (st : list opcode * list (list opcode))
    (c : opcode) : list opcode * list (list opcode) :=
  let '(group, out) := st in
  let '(t, i1, i2, j1, j2) := c in
  if bool_decide (t = Equal) && bool_decide (n + n < i2 - i1) then
    ([(t, i1 `max` (i2 - n), i2, j1 `max` (j2 - n), j2)],
     out ++ [group ++ [(t, i1, i2 `min` (i1 + n), j1, j2 `min` (j1 + n))]])
  else (group ++ [c], out).

Definition get_grouped_opcodes (n : nat) (a b : list A) : list (list opcode) :=
  let codes := get_opcodes a b in
  let codes := match codes with [] => [(Equal, 0, 1, 0, 1)] | _ => codes end in
  let codes := fix_last n (fix_first n codes) in
  let '(group, out) := foldl (group_step n) ([], []) codes in
  match group with
  | [] => out
  | [(Equal, _, _, _, _)] => out
  | _ => out ++ [group]
  end.

End SequenceMatcher.

(** [a[i:j]] for [0 <= i], [0 <= j] *)
Definition slice {X} (l : list X) (i j : nat) : list X := take (j - i) (drop i l).

(** [_format_range_unified] *)
Definition format_range_unified (start stop : nat) : str :=
  let beginning := start + 1 in
  let length := stop - start in
  if decide (length = 1) then str_of_nat beginning
  else
    let beginning := if decide (length = 0) then beginning - 1 else beginning in
    str_of_nat beginning ++ py "," ++ str_of_nat length.

(** [unified_diff(a, b, lineterm='')]: file names and dates are empty. *)
Definition diff_group_lines (a b : list str) (group : list opcode) : list str :=
  let first := default (Equal, 0, 0, 0, 0) (head group) in
  let last := default (Equal, 0, 0, 0, 0) (last group) in
  let '(_, f1, _, f3, _) := first in
  let '(_, _, l2, _, l4) := last in
  (py "@@ -" ++ format_range_unified f1 l2 ++ py " +"
     ++ format_range_unified f3 l4 ++ py " @@")
  :: concat (map (fun c : opcode =>
       let '(t, i1, i2, j1, j2) := c in
       match t with
       | Equal => map (fun line => py " " ++ line) (slice a i1 i2)
       | Replace => map (fun line => py "-" ++ line) (slice a i1 i2)
                    ++ map (fun line => py "+" ++ line) (slice b j1 j2)
       | Delete => map (fun line => py "-" ++ line) (slice a i1 i2)
       | Insert => map (fun line => py "+" ++ line) (slice b j1 j2)
       end) group).

Definition unified_diff (a b : list str) : list str :=
  match get_grouped_opcodes 3 a b with
  | [] => []
  | groups =>
      py "--- " :: py "+++ " :: concat (map (diff_group_lines a b) groups)
  end.

(** *** Quantities the proofs about the matcher are stated with *)

Section Invariants.
Context {A : Type} `{Countable A}.

(** The indices, from [start] on, at which [x] occurs in [l]. *)
Fixpoint positions_from (start : nat) (x : A) (l : list A) : list nat :=
  match l with
  | [] => []
  | y :: l' =>
      (if decide (y = x) then [start] else []) ++ positions_from (S start) x l'
  end.

Variable a : list A.
Variable b2j : gmap A (list nat).

(** The length of the run of indexed elements that ends just before [m]. *)
Fixpoint runb (m : nat) : nat :=
  match m with
  | 0 => 0
  | S m' =>
      match a !! m' with
      | Some x => if decide (is_Some (b2j !! x)) then S (runb m') else 0
      | None => 0
      end
  end.

(** What holds of the row state of [find_longest_match a a] after [m] rows. *)
Definition row_ok (m : nat) (st : gmap nat nat * block) : Prop :=
  (forall j v, st.1 !! j = Some v -> v <= runb (S j) /\ v <= runb m) /\
  j2len_get st.1 m = runb m /\
  st.2.1.1 = st.2.1.2 /\
  st.2.1.1 + st.2.2 <= m /\
  (forall x, x <= m -> runb x <= st.2.2).

End Invariants.

(** [(i, j, k)] is a match of [a] and [b]: [a[i:i+k] == b[j:j+k]], both
    slices lying inside their sequence. *)
Definition is_match {A : Type} (a b : list A) (x : block) : Prop :=
  forall t, t < x.2 ->
    exists u, a !! (x.1.1 + t) = Some u /\ b !! (x.1.2 + t) = Some u.

(** [(i, j, k)] lies in the window [alo <= i, i+k <= ahi, blo <= j,
    j+k <= bhi]. *)
Definition within (alo ahi blo bhi : nat) (x : block) : Prop :=
  alo <= x.1.1 /\ x.1.1 + x.2 <= ahi /\ blo <= x.1.2 /\ x.1.2 + x.2 <= bhi.

(** An entry [j2len[j] = v] met when row [i] starts: a match of length [v]
    that ends just before [a[i]] and at [b[j]]. *)
Definition entry_ok {A : Type} (a b : list A) (alo blo bhi i j v : nat) : Prop :=
  exists si sj,
    si + v = i /\ sj + v = j + 1 /\ 1 <= v /\ alo <= si /\ blo <= sj /\ j < bhi /\
    is_match a b (si, sj, v).

(** A window [(alo, ahi, blo, bhi)] of the work list. *)
Definition window : Type := nat * nat * nat * nat.

Definition window_ok (w : window) : Prop :=
  let '(alo, ahi, blo, bhi) := w in alo <= ahi /\ blo <= bhi.

(** The rounds a window can take: one for itself, two for each element of
    its range of [a]. *)
Definition queue_weight (queue : list window) : nat :=
  sum_list (map (fun w : window => let '(alo, ahi, _, _) := w in 2 * (ahi - alo) + 1)
              queue).

(** The window a block covers. *)
Definition region (x : block) : window :=
  let '(i, j, k) := x in (i, i + k, j, j + k).

(** [w1] ends, in [a] and in [b], where [w2] starts or earlier. *)
Definition before (w1 w2 : window) : Prop :=
  let '(_, ahi1, _, bhi1) := w1 in
  let '(alo2, _, blo2, _) := w2 in
  ahi1 <= alo2 /\ bhi1 <= blo2.

Definition apart (w1 w2 : window) : Prop := before w1 w2 \/ before w2 w1.

Fixpoint pairwise_apart (l : list window) : Prop :=
  match l with
  | [] => True
  | w :: l' => Forall (apart w) l' /\ pairwise_apart l'
  end.

(** [w1] lies inside [w2]. *)
Definition inside (w1 w2 : window) : Prop :=
  let '(alo1, ahi1, blo1, bhi1) := w1 in
  let '(alo2, ahi2, blo2, bhi2) := w2 in
  alo2 <= alo1 /\ ahi1 <= ahi2 /\ blo2 <= blo1 /\ bhi1 <= bhi2.

(** The blocks collected so far are matches of positive length, and they
    and the waiting windows lie apart from one another. *)
Definition collected {A : Type} (a b : list A) (queue : list window)
    (acc : list block) : Prop :=
  Forall window_ok queue /\
  Forall (fun x : block => 0 < x.2 /\ is_match a b x) acc /\
  pairwise_apart (queue ++ map region acc).

(** [y] starts, in [a] and in [b], where [x] ends or later. *)
Definition follows (x y : block) : Prop := before (region x) (region y).

(** The blocks of [l] lie end to end from [(i, j)] on. *)
Fixpoint tiles (i j : nat) (l : list block) : Prop :=
  match l with
  | [] => True
  | x :: l' => x.1.1 = i /\ x.1.2 = j /\ tiles (i + x.2) (j + x.2) l'
  end.

Definition is_equal (c : opcode) : Prop := c.1.1.1.1 = Equal.

End Difflib.

(** ** utils/merge_utils.py *)

Module MergeUtils.
Import Difflib.

(** A change recorded for an original line index: the kind of edit
    ('insert', 'delete' or 'replace') and the replacement lines. *)
Definition change : Type := tag * list str.

(** The body of [for tag, i1, i2, j1, j2 in opcodes], for the lines of one
    side. *)
Definition record_change (lines : list str) (t : tag) (i1 j1 j2 : nat)
    (changes : gmap nat change) (i : nat) : gmap nat change :=
  if bool_decide (t = Insert) && bool_decide (i = i1)
  then <[i := (Insert, slice lines j1 j2)]> changes
  else if bool_decide (t = Delete) then <[i := (Delete, [])]> changes
  else if bool_decide (t = Replace) then
    if bool_decide (i = i1)
    then <[i := (Replace, slice lines j1 j2)]> changes
    else <[i := (Delete, [])]> changes
  else changes.

Definition record_opcode (lines : list str) (changes : gmap nat change)
    (c : opcode) : gmap nat change :=
  let '(t, i1, i2, j1, j2) := c in
  if bool_decide (t ∈ [Replace; Delete; Insert]) then
    foldl (record_change lines t i1 j1 j2) changes
          (seq i1 ((i2 `max` (i1 + 1)) - i1))
  else changes.

Definition build_changes (lines : list str) (opcodes : list opcode)
    : gmap nat change :=
  foldl (record_opcode lines) ∅ opcodes.

Record merge_state := MergeState {
  merged_lines : list str;
  has_conflicts : bool;
  conflicts : list str
}.

Definition start_marker : str := py "<<<<<<< YOUR CHANGES\n".
Definition separator_marker : str := py "=======\n".
Definition end_marker : str := py ">>>>>>> DISK VERSION\n".
Definition line_deleted : str := py "(line deleted)\n".

(** A side that changed the line alone: a deletion skips the line, a
    replacement or an insertion puts the new lines in its place. *)
Definition apply_one_side (st : merge_state) (c : change) : merge_state :=
  let '(change_type, new_lines) := c in
  if bool_decide (change_type = Delete) then st
  else if bool_decide (change_type ∈ [Replace; Insert])
  then MergeState (merged_lines st ++ new_lines) (has_conflicts st) (conflicts st)
  else st.

Definition or_deleted (new_lines : list str) : list str :=
  match new_lines with
  | [] => [line_deleted]
  | _ => new_lines
  end.

(** One round of [while i < len(original_lines)]. *)
Definition merge_step (original_lines : list str)
    (user_changes disk_changes : gmap nat change)
    (st : merge_state) (i : nat) : merge_state :=
  match user_changes !! i, disk_changes !! i with
  | None, None =>
      match original_lines !! i with
      | Some line => MergeState (merged_lines st ++ [line]) (has_conflicts st) (conflicts st)
      | None => st
      end
  | None, Some disk_change => apply_one_side st disk_change
  | Some user_change, None => apply_one_side st user_change
  | Some (user_type, user_new), Some (disk_type, disk_new) =>
      if bool_decide (user_new = disk_new) then
        if bool_decide (user_type ≠ Delete)
        then MergeState (merged_lines st ++ user_new) (has_conflicts st) (conflicts st)
        else st
      else
        let line_num := i + 1 in
        MergeState
          (merged_lines st ++ [start_marker] ++ or_deleted user_new
             ++ [separator_marker] ++ or_deleted disk_new ++ [end_marker])
          true
          (conflicts st ++ [py "Conflict at line " ++ str_of_nat line_num])
  end.

(** The merge proper, once both sides are known to have changed. *)
Definition merge_lines (original_lines user_lines disk_lines : list str)
    : merge_state :=
  let user_opcodes := get_opcodes original_lines user_lines in
  let disk_opcodes := get_opcodes original_lines disk_lines in
  let user_changes := build_changes user_lines user_opcodes in
  let disk_changes := build_changes disk_lines disk_opcodes in
  foldl (merge_step original_lines user_changes disk_changes)
        (MergeState [] false []) (seq 0 (length original_lines)).

Definition three_way_merge (original user_version disk_version : str)
    : str * bool * list str :=
  let original_lines := splitlines original in
  let user_lines := splitlines user_version in
  let disk_lines := splitlines disk_version in
  let user_diff := unified_diff original_lines user_lines in
  let disk_diff := unified_diff original_lines disk_lines in
  if bool_decide (user_diff = []) && bool_decide (disk_diff = [])
  then (original, false, [])
  else if bool_decide (disk_diff = []) then (user_version, false, [])
  else if bool_decide (user_diff = []) then (disk_version, false, [])
  else
    let st := merge_lines original_lines user_lines disk_lines in
    let merged_content := join (merged_lines st) in
    let merged_content :=
      if endswith_newline original && negb (endswith_newline merged_content)
      then merged_content ++ py "\n" else merged_content in
    (merged_content, has_conflicts st, conflicts st).

(** [simple_merge] returns [(merged_content, changes_were_made_by_others)]. *)
Definition simple_merge (original user_version disk_version : str)
    : str * bool :=
  if bool_decide (disk_version = original) then (user_version, false)
  else if bool_decide (user_version = original) then (disk_version, true)
  else if bool_decide (user_version = disk_version) then (user_version, false)
  else
    let '(merged, has_conflicts, _) :=
      three_way_merge original user_version disk_version in
    if has_conflicts then (merged, true) else (merged, true).

(** A raised conflict flag comes with a start marker among the merged lines. *)
Definition marked (st : merge_state) : Prop :=
  has_conflicts st = true -> start_marker ∈ merged_lines st.

End MergeUtils.

(** ** Python control flow: exceptions and state *)

Module Py.

(** The exception classes the code raises or catches. [OtherException] is
    any other subclass of [Exception], [BaseExceptionOnly] one that is not
    (KeyboardInterrupt, SystemExit); the string is [str(e)]. *)
Inductive exn :=
  | HTTPException (status_code : nat) (detail : str)
  | FileNotFoundError (msg : str)
  | TimeoutExpired (msg : str)
  | RuntimeError (msg : str)
  | UnicodeDecodeError (msg : str)
  | ValueError (msg : str)
  | OtherException (msg : str)
  | BaseExceptionOnly (msg : str).

Definition exn_str (e : exn) : str :=
  match e with
  | HTTPException _ detail => detail
  | FileNotFoundError msg | TimeoutExpired msg | RuntimeError msg
  | UnicodeDecodeError msg | ValueError msg | OtherException msg
  | BaseExceptionOnly msg => msg
  end.

(** [isinstance(e, Exception)] *)
Definition is_Exception (e : exn) : bool :=
  match e with
  | BaseExceptionOnly _ => false
  | _ => true
  end.

Inductive outcome (A : Type) :=
  | Ret (a : A)
  | Raise (e : exn).
Arguments Ret {A} a.
Arguments Raise {A} e.

(** A computation over a state [S] that returns or raises. *)
Definition M (S A : Type) : Type := S -> outcome A * S.

Definition ret {S A} (a : A) : M S A := fun s => (Ret a, s).
Definition raise {S A} (e : exn) : M S A := fun s => (Raise e, s).
Definition bind {S A B} (m : M S A) (k : A -> M S B) : M S B :=
  fun s =>
    match m s with
    | (Ret a, s') => k a s'
    | (Raise e, s') => (Raise e, s')
    end.
Definition get {S} : M S S := fun s => (Ret s, s).
Definition put {S} (s : S) : M S unit := fun _ => (Ret tt, s).
Definition modify {S} (f : S -> S) : M S unit := fun s => (Ret tt, f s).

(** [try: body except ...: handler]; [handler e = None] when no clause
    matches [e], which then propagates. *)
Definition try_except {S A} (body : M S A) (handler : exn -> option (M S A))
    : M S A :=
  fun s =>
    match body s with
    | (Ret a, s') => (Ret a, s')
    | (Raise e, s') =>
        match handler e with
        | Some h => h s'
        | None => (Raise e, s')
        end
    end.

(** [try: body finally: cleanup]: the cleanup runs on every exit; when it
    raises, its exception replaces the outcome of the body. *)
Definition try_finally {S A} (body : M S A) (cleanup : M S unit) : M S A :=
  fun s =>
    match body s with
    | (r, s') =>
        match cleanup s' with
        | (Ret _, s'') => (r, s'')
        | (Raise e, s'') => (Raise e, s'')
        end
    end.

(** Running a computation of a component inside a larger state. *)
Definition lift {S T A} (proj : T -> S) (upd : S -> T -> T) (m : M S A)
    : M T A :=
  fun t => match m (proj t) with (r, s') => (r, upd s' t) end.

(** An outcome already known (the result of an external call). *)
Definition of_outcome {S A} (o : outcome A) : M S A := fun s => (o, s).

End Py.
Import Py.

Declare Scope py_scope.
Delimit Scope py_scope with py.
Notation "x <- m ;; k" := (Py.bind m (fun x => k))
  (at level 62, m at next level, right associativity) : py_scope.
Notation "m ;;; k" := (Py.bind m (fun _ => k))
  (at level 62, right associativity) : py_scope.
Open Scope py_scope.

(** ** utils/input_validation.py *)

Module InputValidation.

(** *** The regular expressions of the module

    Every pattern is a character class, alone or repeated between [^] and
    [$], or the path traversal pattern. [re.match] and [re.search] are
    modelled on these shapes, a character class being a predicate. *)

Definition in_range (lo hi : ascii) (c : N) : bool :=
  ((ord lo <=? c) && (c <=? ord hi))%N.

Definition one_of (chars : str) (c : N) : bool := bool_decide (c ∈ chars).

(** [a-zA-Z0-9] *)
Definition alnum (c : N) : bool :=
  in_range "a" "z" c || in_range "A" "Z" c || in_range "0" "9" c.

(** [$]: the end of the string, or the line feed that ends the string. *)
Definition at_end (s : str) : bool :=
  match s with
  | [] => true
  | [c] => (c =? LF)%N
  | _ => false
  end.

(** [[cls]*$] at the head of [s] *)
Fixpoint class_star_end (cls : N -> bool) (s : str) : bool :=
  at_end s ||
  match s with
  | c :: rest => cls c && class_star_end cls rest
  | [] => false
  end.

(** [re.match(r'^[cls]+$', s)] *)
Definition match_class_plus (cls : N -> bool) (s : str) : bool :=
  match s with
  | c :: rest => cls c && class_star_end cls rest
  | [] => false
  end.

(** [re.search(r'[cls]', s)] *)
Definition search_class (cls : N -> bool) (s : str) : bool := existsb cls s.

(** [r'^[a-zA-Z0-9_.:+\-*/,@\s]+$'] *)
Definition dbt_selector_class (c : N) : bool :=
  alnum c || one_of (py "_.:+-*/,@") c || isspace c.

Definition DBT_SELECTOR_PATTERN (s : str) : bool :=
  match_class_plus dbt_selector_class s.

(** [r'^[a-zA-Z0-9_\-]+$'], the pattern of [validate_dbt_target] *)
Definition dbt_target_class (c : N) : bool := alnum c || one_of (py "_-") c.

(** [r'[;|&`$(){}[\]<>!\\]'] *)
Definition dangerous_path_class (c : N) : bool := one_of (py ";|&`$(){}[]<>!\") c.

Definition DANGEROUS_PATH_CHARS (s : str) : bool :=
  search_class dangerous_path_class s.

(** [r'(^|/)\.\.(/|$)']: [\.\.(/|$)] at the head of [s], then the search
    from every position, [at_start] telling whether [^] matches there. *)
Definition dotdot_end (s : str) : bool :=
  match s with
  | c1 :: c2 :: rest =>
      (c1 =? ord ".")%N && (c2 =? ord ".")%N &&
      (match rest with
       | c3 :: _ => (c3 =? ord "/")%N
       | [] => false
       end || at_end rest)
  | _ => false
  end.

Fixpoint traversal_from (at_start : bool) (s : str) : bool :=
  (at_start && dotdot_end s) ||
  match s with
  | c :: rest => ((c =? ord "/")%N && dotdot_end rest) || traversal_from false rest
  | [] => false
  end.

Definition PATH_TRAVERSAL_PATTERN (s : str) : bool := traversal_from true s.

(** *** The validators *)

Definition bad_request (detail : str) : outcome str :=
  Raise (HTTPException 400 detail).

Definition dangerous_chars : list str :=
  [py ";"; py "|"; py "&"; py "`"; py "$"; py "("; py ")"; py "{"; py "}";
   py "["; py "]"; py "<"; py ">"; py "!"; py "\"; [LF]; [CR]].

(** [for char in chars: if char in s: raise ...]: whether the loop raises *)
Fixpoint any_in (chars : list str) (s : str) : bool :=
  match chars with
  | [] => false
  | char :: rest => if str_in char s then true else any_in rest s
  end.

Definition validate_dbt_selector (selector field_name : str) : outcome str :=
  if negb (truthy selector) then Ret [] else
  let selector := strip selector in
  if negb (truthy selector) then Ret [] else
  if 1000 <? length selector then
    bad_request (py "Invalid " ++ field_name ++ py ": too long (max 1000 characters)")
  else if negb (DBT_SELECTOR_PATTERN selector) then
    bad_request (py "Invalid " ++ field_name ++ py ": contains invalid characters. "
                 ++ py "Only alphanumeric, underscore, dot, colon, plus, minus, star, slash, comma, @ are allowed.")
  else if any_in dangerous_chars selector then
    bad_request (py "Invalid " ++ field_name ++ py ": contains forbidden character")
  else Ret selector.

Definition validate_dbt_target (target : str) : outcome str :=
  if negb (truthy target) then Ret [] else
  let target := strip target in
  if negb (truthy target) then Ret [] else
  if negb (match_class_plus dbt_target_class target) then
    bad_request (py "Invalid target: only alphanumeric, underscore, and hyphen are allowed")
  else if 100 <? length target then
    bad_request (py "Invalid target: too long (max 100 characters)")
  else Ret target.

Definition validate_file_path (file_path field_name : str) : outcome str :=
  if negb (truthy file_path) then bad_request (field_name ++ py " is required") else
  let file_path := strip file_path in
  if negb (truthy file_path) then bad_request (field_name ++ py " cannot be empty") else
  if 1000 <? length file_path then
    bad_request (field_name ++ py " too long (max 1000 characters)")
  else if DANGEROUS_PATH_CHARS file_path then
    bad_request (py "Invalid " ++ field_name ++ py ": contains forbidden characters")
  else if PATH_TRAVERSAL_PATTERN file_path then
    bad_request (py "Invalid " ++ field_name ++ py ": path traversal not allowed")
  else if startswith (py "/") file_path then
    bad_request (py "Invalid " ++ field_name ++ py ": absolute paths not allowed")
  else if str_in [0%N] file_path then
    bad_request (py "Invalid " ++ field_name ++ py ": contains null byte")
  else Ret file_path.

End InputValidation.

(** ** utils/operation_lock.py *)

Module OperationLock.

(** [lock] is the state of the [threading.Lock]: [true] when held. Times
    are readings of the registry clock. *)
Record WorktreeLock := mkWorktreeLock {
  lock : bool;
  current_operation : option str;
  operation_started_at : option nat;
  last_completed_operation : option str;
  last_completed_at : option nat;
  last_completion_id : option str
}.

(** [WorktreeLock()] *)
Definition new_WorktreeLock : WorktreeLock :=
  mkWorktreeLock false None None None None None.

(** Calls of the lock interface, kept as a history next to the state. *)
Inductive call :=
  | CallAcquire (worktree_path operation_name : str) (acquired : bool)
  | CallRelease (worktree_path : str).

#[global] Instance call_eq_dec : EqDecision call.
Proof. solve_decision. Defined.

(** The process-wide state of the module: [_worktree_locks], the clock
    behind [datetime.now()] (a logical clock: every reading advances it),
    the number of ids [uuid.uuid4()] has produced, and the call history. *)
Record registry := mkRegistry {
  worktree_locks : gmap (list N) WorktreeLock;
  clock : nat;
  uuid_count : nat;
  history : list call
}.

Definition empty_registry : registry := mkRegistry ∅ 0 0 [].

Definition set_locks (f : gmap (list N) WorktreeLock -> gmap (list N) WorktreeLock)
    (r : registry) : registry :=
  mkRegistry (f (worktree_locks r)) (clock r) (uuid_count r) (history r).

Definition log_call (c : call) : M registry unit :=
  modify (fun r => mkRegistry (worktree_locks r) (clock r) (uuid_count r)
                              (history r ++ [c])).

(** [datetime.now()] *)
Definition datetime_now : M registry nat :=
  fun r => (Ret (clock r),
            mkRegistry (worktree_locks r) (S (clock r)) (uuid_count r) (history r)).

(** The dictionary [get_lock_status] returns. *)
Record lock_status := mkLockStatus {
  st_is_locked : bool;
  st_operation : option str;
  st_started_at : option nat;
  st_last_completed_operation : option str;
  st_last_completed_at : option nat;
  st_last_completion_id : option str
}.

(** A call made by some client of the module, and what it got back. *)
Inductive lock_op :=
  | OpAcquire (worktree_path operation_name : str)
  | OpRelease (worktree_path : str)
  | OpStatus (worktree_path : str)
  | OpIsLocked (worktree_path : str).

Inductive op_result :=
  | ResAcquire (acquired : bool)
  | ResRelease
  | ResStatus (s : lock_status)
  | ResLocked (b : bool)
  | ResRaise (e : exn).

(** The successful acquires of a path since the last release of that path,
    read off the call history. *)
Definition count_step (k : str) (n : nat) (c : call) : nat :=
  match c with
  | CallAcquire k' _ true => if decide (k' = k) then S n else n
  | CallAcquire _ _ false => n
  | CallRelease k' => if decide (k' = k) then 0 else n
  end.

Definition acquired_since_release (k : str) (h : list call) : nat :=
  foldl (count_step k) 0 h.

(** The state of the lock of a path; a path never seen has a free lock. *)
Definition lock_of (r : registry) (k : str) : WorktreeLock :=
  default new_WorktreeLock (worktree_locks r !! k).

(** What a mere look at the lock of [k] does to the registry: the lock
    object is created when it was not there. *)
Definition touch (k : str) (r : registry) : registry :=
  mkRegistry
    (match worktree_locks r !! k with
     | Some _ => worktree_locks r
     | None => <[k := new_WorktreeLock]> (worktree_locks r)
     end) (clock r) (uuid_count r) (history r).

(** The history counts one successful acquire for every held lock and none
    for a free one. *)
Definition history_agrees (r : registry) : Prop :=
  forall k, acquired_since_release k (history r)
            = if lock (lock_of r k) then 1 else 0.

#[global] Instance lock_op_eq_dec : EqDecision lock_op.
Proof. solve_decision. Defined.

Section WithUuid.
(** [uuid4 n] is the text of the [n]-th identifier [uuid.uuid4()] returns. *)
Variable uuid4 : nat -> str.

Definition str_uuid4 : M registry str :=
  fun r => (Ret (uuid4 (uuid_count r)),
            mkRegistry (worktree_locks r) (clock r) (S (uuid_count r)) (history r)).

(** [_get_worktree_lock]: the lock object of a path, created on first use.
    The object lives in the dictionary; it is read with [the_lock] and
    written with [update_lock]. *)
Definition _get_worktree_lock (worktree_path : str) : M registry unit :=
  modify (set_locks (fun locks =>
    match locks !! worktree_path with
    | Some _ => locks
    | None => <[worktree_path := new_WorktreeLock]> locks
    end)).

Definition the_lock (worktree_path : str) : M registry WorktreeLock :=
  fun r => (Ret (default new_WorktreeLock (worktree_locks r !! worktree_path)), r).

Definition update_lock (worktree_path : str) (f : WorktreeLock -> WorktreeLock)
    : M registry unit :=
  modify (set_locks (fun locks =>
    <[worktree_path := f (default new_WorktreeLock (locks !! worktree_path))]> locks)).

Definition set_lock (v : bool) (l : WorktreeLock) : WorktreeLock :=
  mkWorktreeLock v (current_operation l) (operation_started_at l)
    (last_completed_operation l) (last_completed_at l) (last_completion_id l).
Definition set_current_operation (v : option str) (l : WorktreeLock) :=
  mkWorktreeLock (lock l) v (operation_started_at l)
    (last_completed_operation l) (last_completed_at l) (last_completion_id l).
Definition set_operation_started_at (v : option nat) (l : WorktreeLock) :=
  mkWorktreeLock (lock l) (current_operation l) v
    (last_completed_operation l) (last_completed_at l) (last_completion_id l).
Definition set_last_completed_operation (v : option str) (l : WorktreeLock) :=
  mkWorktreeLock (lock l) (current_operation l) (operation_started_at l)
    v (last_completed_at l) (last_completion_id l).
Definition set_last_completed_at (v : option nat) (l : WorktreeLock) :=
  mkWorktreeLock (lock l) (current_operation l) (operation_started_at l)
    (last_completed_operation l) v (last_completion_id l).
Definition set_last_completion_id (v : option str) (l : WorktreeLock) :=
  mkWorktreeLock (lock l) (current_operation l) (operation_started_at l)
    (last_completed_operation l) (last_completed_at l) v.

(** [wt_lock.lock.acquire(blocking=False)]: test and set. *)
Definition lock_acquire_nonblocking (worktree_path : str) : M registry bool :=
  (wt_lock <- the_lock worktree_path ;;
   if lock wt_lock then ret false
   else (update_lock worktree_path (set_lock true) ;;; ret true))%py.

(** [wt_lock.lock.release()]: releasing an unlocked lock raises. *)
Definition lock_release (worktree_path : str) : M registry unit :=
  (wt_lock <- the_lock worktree_path ;;
   if lock wt_lock then update_lock worktree_path (set_lock false)
   else raise (RuntimeError (py "release unlocked lock")))%py.

(** [wt_lock.lock.locked()] *)
Definition lock_locked (worktree_path : str) : M registry bool :=
  (wt_lock <- the_lock worktree_path ;; ret (lock wt_lock))%py.

Definition get_lock_status (worktree_path : str) : M registry lock_status :=
  (_get_worktree_lock worktree_path ;;;
   is_locked <- lock_locked worktree_path ;;
   wt_lock <- the_lock worktree_path ;;
   ret (mkLockStatus
          is_locked
          (if is_locked then current_operation wt_lock else None)
          (if is_locked then operation_started_at wt_lock else None)
          (last_completed_operation wt_lock)
          (last_completed_at wt_lock)
          (last_completion_id wt_lock)))%py.

Definition acquire_lock (worktree_path operation_name : str) : M registry bool :=
  (_get_worktree_lock worktree_path ;;;
   acquired <- lock_acquire_nonblocking worktree_path ;;
   log_call (CallAcquire worktree_path operation_name acquired) ;;;
   if acquired then
     update_lock worktree_path (set_current_operation (Some operation_name)) ;;;
     now <- datetime_now ;;
     update_lock worktree_path (set_operation_started_at (Some now)) ;;;
     ret true
   else ret false)%py.

Definition release_lock (worktree_path : str) : M registry unit :=
  (_get_worktree_lock worktree_path ;;;
   log_call (CallRelease worktree_path) ;;;
   try_except
     (wt_lock <- the_lock worktree_path ;;
      update_lock worktree_path
        (set_last_completed_operation (current_operation wt_lock)) ;;;
      now <- datetime_now ;;
      update_lock worktree_path (set_last_completed_at (Some now)) ;;;
      id <- str_uuid4 ;;
      update_lock worktree_path (set_last_completion_id (Some id)) ;;;
      update_lock worktree_path (set_current_operation None) ;;;
      update_lock worktree_path (set_operation_started_at None) ;;;
      lock_release worktree_path)
     (fun e => match e with
               | RuntimeError _ => Some (ret tt)
               | _ => None
               end))%py.

Definition is_locked (worktree_path : str) : M registry bool :=
  (_get_worktree_lock worktree_path ;;; lock_locked worktree_path)%py.

(** Calls served one after the other. *)
Definition run_op (o : lock_op) (r : registry) : op_result * registry :=
  match o with
  | OpAcquire k l =>
      match acquire_lock k l r with
      | (Ret b, r') => (ResAcquire b, r')
      | (Raise e, r') => (ResRaise e, r')
      end
  | OpRelease k =>
      match release_lock k r with
      | (Ret _, r') => (ResRelease, r')
      | (Raise e, r') => (ResRaise e, r')
      end
  | OpStatus k =>
      match get_lock_status k r with
      | (Ret s, r') => (ResStatus s, r')
      | (Raise e, r') => (ResRaise e, r')
      end
  | OpIsLocked k =>
      match is_locked k r with
      | (Ret b, r') => (ResLocked b, r')
      | (Raise e, r') => (ResRaise e, r')
      end
  end.

Fixpoint run_ops (os : list lock_op) (r : registry) : list op_result * registry :=
  match os with
  | [] => ([], r)
  | o :: os' =>
      let '(x, r') := run_op o r in
      let '(xs, r'') := run_ops os' r' in
      (x :: xs, r'')
  end.

(** The identifiers [uuid.uuid4()] has returned so far. *)
Definition generated_ids (r : registry) : list str :=
  map uuid4 (seq 0 (uuid_count r)).

End WithUuid.

End OperationLock.

(** ** routes/dbt_routes.py *)

Module DbtRoutes.
Import OperationLock.

Inductive job_state := Running | Success | Failed.

(** An entry of [dbt_command_status]; a key the dictionary lacks is [None]. *)
Record job_status := mkJobStatus {
  status : job_state;
  command : str;
  selector : str;
  started_at : option nat;
  completed_at : option nat;
  output : option str;
  error : option str
}.

(** [CommandResult] of utils/subprocess_utils.py *)
Record CommandResult := mkCommandResult {
  returncode : Z;
  stdout : str;
  stderr : str
}.

Definition cr_success (r : CommandResult) : bool := (returncode r =? 0)%Z.

(** [self.stderr or self.stdout] *)
Definition cr_error (r : CommandResult) : str :=
  match stderr r with
  | [] => stdout r
  | _ => stderr r
  end.

(** [DbtCommandRequest] of models.py *)
Record DbtCommandRequest := mkDbtCommandRequest {
  req_path : str;
  req_command : str;
  req_selector : str;
  req_target : str;
  req_full_refresh : bool
}.

(** The body returned to the client on success. *)
Record started_response := mkStarted {
  resp_status : str;
  resp_command : str;
  resp_selector : str;
  resp_message : str
}.

Section WithEnvironment.
(** What the handlers take from outside: the id generator, the file system
    queries of [pathlib], the validators of utils/input_validation.py, the
    cookie reader, and the three calls the background task makes
    ([get_venv_dbt_path], [get_dbt_env], [run_command]), each given by its
    outcome. *)
Variable uuid4 : nat -> str.
Variables env_vars_t environ_t Request : Type.
Variable resolve : str -> str.
Variable path_exists : str -> bool.
Variable lower_strip : str -> str.
Variable valid_commands_joined : str.
Variable validate_dbt_selector : str -> str -> outcome (list N).
Variable validate_dbt_target : str -> outcome (list N).
Variable get_env_vars_from_cookie : Request -> str -> env_vars_t.
Variable get_venv_dbt_path : str -> outcome (list N).
Variable get_dbt_env : str -> env_vars_t -> outcome environ_t.
Variable run_command : list str -> str -> nat -> environ_t -> outcome CommandResult.

(** The arguments [background_tasks.add_task] keeps for a later
    [run_dbt_command_task]. *)
Record task := mkTask {
  task_path : str;
  task_command : str;
  task_selector : str;
  task_target : str;
  task_full_refresh : bool;
  task_env_vars : env_vars_t
}.

(** The state the routes share: the lock registry, [dbt_command_status] and
    the background tasks added so far. *)
Record world := mkWorld {
  locks : registry;
  dbt_command_status : gmap (list N) job_status;
  background_tasks : list task
}.

Definition with_locks {A} (m : M registry A) : M world A :=
  lift locks (fun r w => mkWorld r (dbt_command_status w) (background_tasks w)) m.

Definition set_status (path_str : str) (js : job_status) : M world unit :=
  modify (fun w => mkWorld (locks w) (<[path_str := js]> (dbt_command_status w))
                           (background_tasks w)).

(** A computation that leaves the locks, the call history and the id
    counter as they are (it may read the clock). *)
Definition same_locks (w w' : world) : Prop :=
  worktree_locks (locks w') = worktree_locks (locks w) /\
  uuid_count (locks w') = uuid_count (locks w) /\
  history (locks w') = history (locks w).

Definition lock_neutral {A} (m : M world A) : Prop :=
  forall w, same_locks w (m w).2.

Definition add_task (t : task) : M world unit :=
  modify (fun w => mkWorld (locks w) (dbt_command_status w)
                           (background_tasks w ++ [t])).

Definition VALID_DBT_COMMANDS : list str :=
  [py "compile"; py "run"; py "test"; py "seed"].

Definition run_or_seed (command : str) : bool :=
  bool_decide (command ∈ [py "run"; py "seed"]).

Definition nonempty (s : str) : bool :=
  match s with [] => false | _ => true end.

Definition run_dbt_command_task (path command selector target : str)
    (full_refresh : bool) (env_vars : env_vars_t) : M world unit :=
  let path_str := path in
  try_finally
    (try_except
       (now <- with_locks datetime_now ;;
        set_status path_str
          (mkJobStatus Running command selector (Some now) None None None) ;;;
        dbt_executable <-
          try_except (of_outcome (get_venv_dbt_path path))
            (fun e => match e with
                      | FileNotFoundError _ => Some (ret (py "dbt"))
                      | _ => None
                      end) ;;
        let cmd := [dbt_executable; command; py "--project-dir"; path;
                    py "--profiles-dir"; path] in
        let cmd := if nonempty selector then cmd ++ [py "--select"; selector] else cmd in
        let cmd := if nonempty target then cmd ++ [py "--target"; target] else cmd in
        let cmd := if full_refresh && run_or_seed command
                   then cmd ++ [py "--full-refresh"] else cmd in
        env <- of_outcome (get_dbt_env path env_vars) ;;
        result <- of_outcome (run_command cmd path 300 env) ;;
        if cr_success result then
          now <- with_locks datetime_now ;;
          set_status path_str
            (mkJobStatus Success command selector None (Some now)
                         (Some (stdout result)) None)
        else
          now <- with_locks datetime_now ;;
          set_status path_str
            (mkJobStatus Failed command selector None (Some now)
                         None (Some (cr_error result))))
       (fun e =>
          match e with
          | TimeoutExpired _ =>
              Some (now <- with_locks datetime_now ;;
                    set_status path_str
                      (mkJobStatus Failed command selector None (Some now) None
                         (Some (py "dbt " ++ command ++ py " timed out after 5 minutes"))))
          | _ =>
              if is_Exception e then
                Some (now <- with_locks datetime_now ;;
                      set_status path_str
                        (mkJobStatus Failed command selector None (Some now) None
                                     (Some (exn_str e))))
              else None
          end))
    (with_locks (release_lock uuid4 path_str))%py.

(** The operation name shown to other users. *)
Definition operation_name_of (command selector : str) (full_refresh : bool) : str :=
  let full_refresh_suffix :=
    if full_refresh && run_or_seed command then py " (full refresh)" else [] in
  if bool_decide (command = py "compile") then
    if nonempty selector then py "Compiling: " ++ selector
    else py "Compiling entire project"
  else if bool_decide (command = py "run") then
    (if nonempty selector then py "Running: " ++ selector
     else py "Running all models") ++ full_refresh_suffix
  else if bool_decide (command = py "test") then
    if nonempty selector then py "Testing: " ++ selector
    else py "Testing all models"
  else if bool_decide (command = py "seed") then
    (if nonempty selector then py "Seeding: " ++ selector
     else py "Seeding all seeds") ++ full_refresh_suffix
  else
    if nonempty selector then py "dbt " ++ command ++ py ": " ++ selector
    else py "dbt " ++ command.

Definition already_running (operation : option str) : exn :=
  HTTPException 409 (py "Another operation is already running: " ++ fmt_opt operation).

Definition dbt_command (action : DbtCommandRequest) (request : Request)
    : M world started_response :=
  (let path := resolve (req_path action) in
   if negb (path_exists path)
   then raise (HTTPException 404 (py "Project path does not exist")) else
   let command := lower_strip (req_command action) in
   if negb (bool_decide (command ∈ VALID_DBT_COMMANDS))
   then raise (HTTPException 400
                 (py "Invalid command: " ++ command ++ py ". Must be one of: "
                    ++ valid_commands_joined)) else
   selector <- of_outcome (validate_dbt_selector (req_selector action) (py "selector")) ;;
   target <- of_outcome (validate_dbt_target (req_target action)) ;;
   let path_str := path in
   status <- with_locks (get_lock_status path_str) ;;
   if st_is_locked status then raise (already_running (st_operation status)) else
   let operation_name := operation_name_of command selector (req_full_refresh action) in
   acquired <- with_locks (acquire_lock path_str operation_name) ;;
   if negb acquired then
     status <- with_locks (get_lock_status path_str) ;;
     raise (already_running (st_operation status))
   else
     let env_vars := get_env_vars_from_cookie request path in
     add_task (mkTask path command selector target (req_full_refresh action) env_vars) ;;;
     ret (mkStarted (py "started") command selector operation_name))%py.

(** [get_dbt_operation_status], the poll other users make. *)
Definition get_dbt_operation_status (project_path : str)
    : M world (bool * option str * option str * option str) :=
  (let path_str := resolve project_path in
   status <- with_locks (get_lock_status path_str) ;;
   ret (st_is_locked status, st_operation status,
        st_last_completed_operation status, st_last_completion_id status))%py.

(** [get_dbt_command_status]; [None] stands for [{"status": "not_started"}]. *)
Definition get_dbt_command_status (project_path : str)
    : M world (option job_status) :=
  (let path_str := resolve project_path in
   w <- get ;; ret (dbt_command_status w !! path_str))%py.

(** What can happen while a job runs: a client submits a command, a client
    polls, or a background task records its progress in
    [dbt_command_status]. None of these releases a lock. The handlers are
    coroutines without an await, so the event loop serves them one at a
    time, in some order. *)
Inductive event :=
  | EvSubmit (action : DbtCommandRequest) (request : Request)
  | EvPollOperation (project_path : str)
  | EvPollCommand (project_path : str)
  | EvTaskStatus (path_str : str) (js : job_status).

Inductive event_result :=
  | Started (r : started_response)
  | Rejected (e : exn)
  | OperationStatus (s : bool * option str * option str * option str)
  | CommandStatus (s : option job_status)
  | Recorded.

Definition run_event (ev : event) (w : world) : event_result * world :=
  match ev with
  | EvSubmit action request =>
      match dbt_command action request w with
      | (Ret r, w') => (Started r, w')
      | (Raise e, w') => (Rejected e, w')
      end
  | EvPollOperation p =>
      match get_dbt_operation_status p w with
      | (Ret s, w') => (OperationStatus s, w')
      | (Raise e, w') => (Rejected e, w')
      end
  | EvPollCommand p =>
      match get_dbt_command_status p w with
      | (Ret s, w') => (CommandStatus s, w')
      | (Raise e, w') => (Rejected e, w')
      end
  | EvTaskStatus p js =>
      match set_status p js w with
      | (_, w') => (Recorded, w')
      end
  end.

Fixpoint run_events (evs : list event) (w : world) : list event_result * world :=
  match evs with
  | [] => ([], w)
  | ev :: evs' =>
      let '(x, w') := run_event ev w in
      let '(xs, w'') := run_events evs' w' in
      (x :: xs, w'')
  end.

Definition is_submit (ev : event) : bool :=
  match ev with
  | EvSubmit _ _ => true
  | _ => false
  end.

(** A submit for the worktree [k] that passes the checks made before the
    lock is looked at, with the selector and target the validators return. *)
Definition accepted_for (k : str) (action : DbtCommandRequest)
    (selector target : str) : Prop :=
  resolve (req_path action) = k /\
  path_exists k = true /\
  lower_strip (req_command action) ∈ VALID_DBT_COMMANDS /\
  validate_dbt_selector (req_selector action) (py "selector") = Ret selector /\
  validate_dbt_target (req_target action) = Ret target.

Definition submit_for (k : str) (ev : event) : Prop :=
  match ev with
  | EvSubmit action _ => exists selector target, accepted_for k action selector target
  | _ => True
  end.

(** *** [dbt_ls] *)

(** [DbtLsRequest] of models.py *)
Record DbtLsRequest := mkDbtLsRequest {
  ls_path : str;
  ls_selector : str
}.

(** The answer of [dbt_ls]; [ls_error = None] means the key is absent. *)
Record ls_response := mkLsResponse {
  ls_success : bool;
  ls_models : list str;
  ls_error : option str
}.

(** [env_vars=None], the default of [get_dbt_env]. *)
Variable no_env_vars : env_vars_t.

(** The body of [for line in result.stdout.strip().split('\n')]; [split]
    returns at least one piece, so [[-1]] is its last one. *)
Definition model_line (models : list str) (line : str) : list str :=
  let line := strip line in
  if nonempty line && negb (startswith (py "[") line) then
    let model_name :=
      if str_in (py ".") line
      then default line (last (str_split (ord ".") line))
      else line in
    models ++ [model_name]
  else models.

Definition dbt_ls (ls_request : DbtLsRequest) : M world ls_response :=
  (let path := resolve (ls_path ls_request) in
   if negb (path_exists path)
   then raise (HTTPException 404 (py "Project path does not exist")) else
   selector <- of_outcome (validate_dbt_selector (ls_selector ls_request) (py "selector")) ;;
   try_except
     (dbt_executable <-
        try_except (of_outcome (get_venv_dbt_path path))
          (fun e => match e with
                    | FileNotFoundError _ => Some (ret (py "dbt"))
                    | _ => None
                    end) ;;
      let cmd := [dbt_executable; py "ls"; py "--resource-type"; py "model"] in
      let cmd := if nonempty selector then cmd ++ [py "--select"; selector] else cmd in
      let cmd := cmd ++ [py "--project-dir"; path; py "--profiles-dir"; path] in
      env <- of_outcome (get_dbt_env path no_env_vars) ;;
      result <- of_outcome (run_command cmd path 30 env) ;;
      if cr_success result then
        ret (mkLsResponse true
               (foldl model_line [] (str_split LF (strip (stdout result)))) None)
      else ret (mkLsResponse false [] (Some (stderr result))))
     (fun e =>
        match e with
        | TimeoutExpired _ =>
            Some (ret (mkLsResponse false [] (Some (py "dbt ls timed out"))))
        | _ =>
            if is_Exception e
            then Some (ret (mkLsResponse false [] (Some (exn_str e))))
            else None
        end))%py.

End WithEnvironment.

Arguments mkTask {env_vars_t}.
Arguments task_path {env_vars_t}.
Arguments task_command {env_vars_t}.
Arguments task_selector {env_vars_t}.
Arguments task_target {env_vars_t}.
Arguments task_full_refresh {env_vars_t}.
Arguments task_env_vars {env_vars_t}.
Arguments mkWorld {env_vars_t}.
Arguments locks {env_vars_t}.
Arguments dbt_command_status {env_vars_t}.
Arguments background_tasks {env_vars_t}.
Arguments with_locks {env_vars_t A}.
Arguments set_status {env_vars_t}.
Arguments add_task {env_vars_t}.
Arguments same_locks {env_vars_t}.
Arguments lock_neutral {env_vars_t A}.
Arguments EvSubmit {Request}.
Arguments EvPollOperation {Request}.
Arguments EvPollCommand {Request}.
Arguments EvTaskStatus {Request}.
Arguments is_submit {Request}.
Arguments run_dbt_command_task uuid4 {env_vars_t environ_t}.
Arguments dbt_command {env_vars_t Request}.
Arguments get_dbt_operation_status {env_vars_t}.
Arguments get_dbt_command_status {env_vars_t}.
Arguments run_event {env_vars_t Request}.
Arguments run_events {env_vars_t Request}.
Arguments submit_for {Request}.

Arguments dbt_ls {env_vars_t environ_t}.

End DbtRoutes.

(** ** routes/venv_routes.py *)

Module VenvRoutes.
Import OperationLock DbtRoutes.

Section WithEnvironment.
Variable uuid4 : nat -> str.
Variables env_vars_t Result : Type.
Variable resolve : str -> str.
(** [_recreate_venv_sync] runs in a worker thread while the coroutine
    awaits. The thread and the handlers served in the meantime act on the
    shared state, so what happens during the await is a computation on the
    world; its outcome is what the thread returns or raises. *)
Variable _recreate_venv_sync : str -> M (world env_vars_t) Result.

Definition recreate_venv (project_path : str) : M (world env_vars_t) Result :=
  (let path_str := resolve project_path in
   status <- with_locks (get_lock_status path_str) ;;
   if st_is_locked status then raise (already_running (st_operation status)) else
   acquired <- with_locks (acquire_lock path_str (py "Setting up environment")) ;;
   if negb acquired then
     status <- with_locks (get_lock_status path_str) ;;
     raise (already_running (st_operation status))
   else
     try_finally
       (try_except (_recreate_venv_sync project_path)
          (fun e =>
             match e with
             | HTTPException _ _ => Some (raise e)
             | _ =>
                 if is_Exception e
                 then Some (raise (HTTPException 500
                                     (py "Error recreating venv: " ++ exn_str e)))
                 else None
             end))
       (with_locks (release_lock uuid4 path_str)))%py.

End WithEnvironment.

Arguments recreate_venv uuid4 {env_vars_t Result}.

End VenvRoutes.

(** ** routes/file_routes.py *)

Module FileRoutes.
Import MergeUtils.

(** A path of the file system holds a directory or a file; the content of a
    file is its decoded text, [None] when its bytes are not UTF-8. *)
Inductive node :=
  | Directory
  | File (content : option str).

Inductive io_event :=
  | IoRead (path : str)
  | IoMerge (original user_version disk_version : str)
  | IoWrite (path content : str).

#[global] Instance io_event_eq_dec : EqDecision io_event.
Proof. solve_decision. Defined.

(** The stored files, and next to them the reads, merges and writes made so
    far. *)
Record storage := mkStorage {
  files : gmap (list N) node;
  io_log : list io_event
}.

Definition log_io (e : io_event) : M storage unit :=
  modify (fun s => mkStorage (files s) (io_log s ++ [e])).

(** Text mode reading translates CR LF and CR into LF. *)
Fixpoint universal_newlines (s : str) : str :=
  match s with
  | [] => []
  | c :: rest =>
      if (c =? CR)%N then
        match rest with
        | d :: rest' =>
            if (d =? LF)%N then LF :: universal_newlines rest'
            else LF :: universal_newlines rest
        | [] => [LF]
        end
      else c :: universal_newlines rest
  end.

(** [with open(p, 'r', encoding='utf-8') as f: f.read()] *)
Definition read_text (p : str) : M storage str :=
  (log_io (IoRead p) ;;;
   s <- get ;;
   match files s !! p with
   | Some (File (Some text)) => ret (universal_newlines text)
   | Some (File None) => raise (UnicodeDecodeError (py "invalid start byte"))
   | Some Directory => raise (OtherException (py "Is a directory"))
   | None => raise (FileNotFoundError (py "No such file or directory"))
   end)%py.

(** [with open(p, 'w', encoding='utf-8') as f: f.write(text)], on a system
    whose line separator is LF. *)
Definition write_text (p text : str) : M storage unit :=
  (log_io (IoWrite p text) ;;;
   modify (fun s => mkStorage (<[p := File (Some text)]> (files s)) (io_log s)))%py.

Definition path_exists (p : str) : M storage bool :=
  (s <- get ;; ret (bool_decide (is_Some (files s !! p))))%py.

Definition path_is_file (p : str) : M storage bool :=
  (s <- get ;;
   ret (match files s !! p with Some (File _) => true | _ => false end))%py.

(** The request body *)
Record file_data := mkFileData {
  projectPath : str;
  filePath : str;
  content : str;
  originalContent : option str
}.

(** The response body: [resp_content = None] is JSON null, [diskContent =
    None] means the key is absent. *)
Record response := mkResponse {
  success : bool;
  path : str;
  merged : bool;
  hasConflicts : bool;
  resp_content : option str;
  diskContent : option str
}.

Section WithPaths.
(** [pathlib]: [resolve p] is [Path(p).expanduser().resolve()], [joinpath]
    the operator [/], and [relative_to p q] the path of [p] below [q], [None]
    when [p] is not below [q] (the call raises ValueError). *)
Variable resolve : str -> str.
Variable joinpath : str -> str -> str.
Variable relative_to : str -> str -> option (list N).

Definition relative_to_or_raise (p q : str) : M storage str :=
  match relative_to p q with
  | Some r => ret r
  | None => raise (ValueError (py "path is not in the subpath"))
  end.

Definition conflict_marker : str := py "<<<<<<< YOUR CHANGES".

Definition write_file (file_data : file_data) : M storage response :=
  (let project_path := resolve (projectPath file_data) in
   let file_path := joinpath project_path (filePath file_data) in
   let content := content file_data in
   let original_content := originalContent file_data in
   ex <- path_exists file_path ;;
   if negb ex then raise (HTTPException 404 (py "File does not exist")) else
   isf <- path_is_file file_path ;;
   if negb isf then raise (HTTPException 400 (py "Path is not a file")) else
   try_except
     (relative_to_or_raise (resolve file_path) (resolve project_path) ;;; ret tt)
     (fun e => match e with
               | ValueError _ =>
                   Some (raise (HTTPException 403
                           (py "Access denied: File outside project directory")))
               | _ => None
               end) ;;;
   try_except
     (disk_content <- read_text file_path ;;
      let finish (merged_content : str) (was_merged : bool) : M storage response :=
        write_text file_path merged_content ;;;
        rel <- relative_to_or_raise file_path project_path ;;
        ret (mkResponse true rel was_merged false
               (if was_merged then Some merged_content else None) None) in
      match original_content with
      | Some original_content =>
          if negb (bool_decide (disk_content = original_content)) then
            log_io (IoMerge original_content content disk_content) ;;;
            let '(merged_content, was_merged) :=
              simple_merge original_content content disk_content in
            let has_conflicts := str_in conflict_marker merged_content in
            if has_conflicts then
              rel <- relative_to_or_raise file_path project_path ;;
              ret (mkResponse true rel true true
                     (Some merged_content) (Some disk_content))
            else finish merged_content was_merged
          else finish content false
      | None => finish content false
      end)
     (fun e =>
        match e with
        | UnicodeDecodeError _ =>
            Some (raise (HTTPException 400 (py "File is not a text file")))
        | _ =>
            if is_Exception e
            then Some (raise (HTTPException 500 (py "Error writing file: " ++ exn_str e)))
            else None
        end))%py.

(** *** [read_file] *)

(** The body of the answer: [FileContent(path, content)], or for a file
    that is not UTF-8 text the dictionary with [content] null, [isBinary]
    and [error]. *)
Record read_response := mkReadResponse {
  read_path : str;
  read_content : option str;
  read_isBinary : bool;
  read_error : option str
}.

Definition read_file (file_data : file_data) : M storage read_response :=
  (let project_path := resolve (projectPath file_data) in
   let file_path := joinpath project_path (filePath file_data) in
   ex <- path_exists file_path ;;
   if negb ex then raise (HTTPException 404 (py "File does not exist")) else
   isf <- path_is_file file_path ;;
   if negb isf then raise (HTTPException 400 (py "Path is not a file")) else
   try_except
     (relative_to_or_raise (resolve file_path) (resolve project_path) ;;; ret tt)
     (fun e => match e with
               | ValueError _ =>
                   Some (raise (HTTPException 403
                           (py "Access denied: File outside project directory")))
               | _ => None
               end) ;;;
   try_except
     (content <- read_text file_path ;;
      rel <- relative_to_or_raise file_path project_path ;;
      ret (mkReadResponse rel (Some content) false None))
     (fun e =>
        match e with
        | UnicodeDecodeError _ =>
            Some (rel <- relative_to_or_raise file_path project_path ;;
                  ret (mkReadResponse rel None true
                         (Some (py "Cannot display binary file"))))
        | _ =>
            if is_Exception e
            then Some (raise (HTTPException 500 (py "Error reading file: " ++ exn_str e)))
            else None
        end))%py.

(** *** [create_file] *)

(** [CreateFileRequest] of models.py *)
Record CreateFileRequest := mkCreateFileRequest {
  create_path : str;
  create_folder : str
}.

Record create_response := mkCreateResponse {
  created_file_path : str;
  created_success : bool
}.

Definition path_is_dir (p : str) : M storage bool :=
  (s <- get ;;
   ret (match files s !! p with Some Directory => true | _ => false end))%py.

(** [Path.touch()] on a path that does not exist: an empty file. *)
Definition touch_file (p : str) : M storage unit :=
  modify (fun s => mkStorage (<[p := File (Some [])]> (files s)) (io_log s)).

(** [str(e)] of an [HTTPException], which the version of Starlette decides. *)
Variable http_exception_str : nat -> str -> str.

Definition str_of_exception (e : exn) : str :=
  match e with
  | HTTPException status_code detail => http_exception_str status_code detail
  | _ => exn_str e
  end.

Definition relative_name (folder name : str) : str :=
  if truthy folder then folder ++ py "/" ++ name else name.

(** The loop [while True] from [counter] on. It leaves at [counter > 1000]
    at the latest, so [rounds] only has to be large enough. *)
Fixpoint untitled_loop (rounds : nat) (target_dir folder : str) (counter : nat)
    : M storage create_response :=
  match rounds with
  | 0 => raise (HTTPException 500 (py "Unable to generate unique filename"))
  | S rounds' =>
      (let candidate_name := py "untitled" ++ str_of_nat counter in
       let file_path := joinpath target_dir candidate_name in
       ex <- path_exists file_path ;;
       if negb ex then
         touch_file file_path ;;;
         ret (mkCreateResponse (relative_name folder candidate_name) true)
       else
         let counter := counter + 1 in
         if 1000 <? counter
         then raise (HTTPException 500 (py "Unable to generate unique filename"))
         else untitled_loop rounds' target_dir folder counter)%py
  end.

Definition create_file (request : CreateFileRequest) : M storage create_response :=
  (let project_path := resolve (create_path request) in
   ex <- path_exists project_path ;;
   if negb ex then raise (HTTPException 404 (py "Project path does not exist")) else
   target_dir <-
     (if truthy (create_folder request) then
        let target_dir := joinpath project_path (create_folder request) in
        ex <- path_exists target_dir ;;
        if negb ex then raise (HTTPException 404 (py "Target folder does not exist")) else
        isd <- path_is_dir target_dir ;;
        if negb isd then raise (HTTPException 400 (py "Target path is not a folder")) else
        ret target_dir
      else ret project_path) ;;
   try_except
     (let base_name := py "untitled" in
      let file_path := joinpath target_dir base_name in
      ex <- path_exists file_path ;;
      if negb ex then
        touch_file file_path ;;;
        ret (mkCreateResponse (relative_name (create_folder request) base_name) true)
      else untitled_loop 999 target_dir (create_folder request) 2)
     (fun e =>
        if is_Exception e
        then Some (raise (HTTPException 500
                            (py "Error creating file: " ++ str_of_exception e)))
        else None))%py.

End WithPaths.

(** What a write leaves behind: the response, the new content of the file
    and one more entry in the log. *)
Definition written (s : storage) (file_path rel merged_content : list N)
    (was_merged : bool) (log : list io_event) : outcome response * storage :=
  (Ret (mkResponse true rel was_merged false
          (if was_merged then Some merged_content else None) None),
   mkStorage (<[file_path := File (Some merged_content)]> (files s))
     (log ++ [IoWrite file_path merged_content])).

End FileRoutes.

Import Py Difflib MergeUtils OperationLock DbtRoutes FileRoutes.

(** ** A concrete environment

    One instance of what the code takes from its surroundings, on which the
    statements below are evaluated: a request that passes validation, and a
    project directory that holds one file. *)

Definition demo_validate_selector (s field : list N) : outcome (list N) := Ret s.
Definition demo_validate_target (s : list N) : outcome (list N) := Ret s.
Definition demo_cookie (q : unit) (p : list N) : unit := tt.
Definition demo_world : world unit := mkWorld empty_registry ∅ [].
Definition demo_submit (command : list N) : event unit :=
  EvSubmit (mkDbtCommandRequest (py "/repo") command [] [] false) tt.

Definition demo_resolve (p : list N) : list N := p.
Definition demo_joinpath (p q : list N) : list N := p ++ py "/" ++ q.
Definition demo_relative_to (p q : list N) : option (list N) :=
  if startswith (q ++ py "/") p then Some (drop (S (length q)) p) else None.
Definition demo_storage (stored : list N) : storage :=
  mkStorage {[ py "/repo/models/orders.sql" := File (Some stored) ]} [].
Definition demo_file_data (baseline : option (list N)) (local : list N) : file_data :=
  mkFileData (py "/repo") (py "models/orders.sql") local baseline.

(** ** Predicates the statements about the validators use *)

(** Neither the first nor the last character is white space. *)
Definition stripped (s : str) : bool :=
  match head s with Some c => negb (isspace c) | None => true end &&
  match last s with Some c => negb (isspace c) | None => true end.

(** The characters of an accepted selector: those of the pattern, line feed
    and carriage return apart. *)
Definition selector_char (c : N) : bool :=
  InputValidation.dbt_selector_class c && negb (c =? LF)%N && negb (c =? CR)%N.

(** The characters the validators call dangerous. *)
Definition shell_metacharacters : str := py ";|&`$(){}[]<>!\" ++ [LF; CR].

(** ** More of the concrete environment: the calls of the background task *)

Definition demo_uuid4 (n : nat) : list N := [N.of_nat n].
Definition demo_venv_dbt_path (p : list N) : outcome (list N) :=
  Raise (FileNotFoundError (py "dbt executable not found in virtual environment")).
Definition demo_dbt_env (p : list N) (env_vars : unit) : outcome unit := Ret tt.
Definition demo_run_command (cmd : list (list N)) (cwd : list N) (timeout : nat)
    (env : unit) : outcome CommandResult :=
  match cmd with
  | exe :: _ =>
      if bool_decide (exe = py "dbt") then Ret (mkCommandResult 0 (py "Done.") [])
      else Raise (FileNotFoundError (py "No such file or directory"))
  | [] => Raise (OtherException (py "empty command"))
  end.
Definition demo_request (command selector : list N) : DbtCommandRequest :=
  mkDbtCommandRequest (py "/repo") command selector [] false.

(** ** A handler served while another one awaits *)

(** [observe m] runs [m] and hands its outcome over as a value: the answer a
    client got, seen from the coroutine that was waiting meanwhile. *)
Definition observe {S A : Type} (m : M S A) : M S (outcome A) :=
  fun s => let '(o, s') := m s in (Ret o, s').

(** ** The answers of [recreate_venv] *)

(** What the handler returns or raises for what the thread returned or
    raised. *)
Definition venv_outcome {Result : Type} (o : outcome Result) : outcome Result :=
  match o with
  | Ret x => Ret x
  | Raise (HTTPException c d) => Raise (HTTPException c d)
  | Raise e =>
      if is_Exception e
      then Raise (HTTPException 500 (py "Error recreating venv: " ++ exn_str e))
      else Raise e
  end.


(** A thread body that fails, and a world in which a job holds the lock. *)
Definition demo_failing_sync (p : list N) : M (world unit) unit :=
  raise (OtherException (py "uv not found")).
Definition demo_busy_world : world unit :=
  mkWorld (acquire_lock (py "/repo") (py "Running all models") empty_registry).2 ∅ [].


(** ** The names [create_file] tries, in its order *)

Definition untitled_names : list str :=
  py "untitled" :: map (fun n => py "untitled" ++ str_of_nat n) (seq 2 999).

(** ** A project reached through a symbolic link *)

(** [/srv/link] is a link to [/repo]; an absolute right operand of [/]
    replaces the left one. *)
Definition demo_resolve_link (p : list N) : list N :=
  if startswith (py "/srv/link/") p then py "/repo/" ++ drop 10 p else p.
Definition demo_joinpath_abs (p q : list N) : list N :=
  if startswith (py "/") q then q else p ++ py "/" ++ q.
Definition demo_linked_storage (c : option (list N)) : storage :=
  mkStorage {[ py "/srv/link/logo.png" := File c ]} [].
Definition demo_linked_file_data (local : list N) : file_data :=
  mkFileData (py "/repo") (py "/srv/link/logo.png") local None.

(** The message of the ValueError [relative_to] raises. *)
Definition subpath_error : list N := py "path is not in the subpath".

(** ** Projects with untitled files *)

Definition demo_http_exception_str (status_code : nat) (detail : list N) : list N :=
  str_of_nat status_code ++ py ": " ++ detail.
Definition demo_project (names : list (list N)) : storage :=
  mkStorage
    (foldr (fun name m => <[py "/repo/" ++ name := File (Some [])]> m)
       {[ py "/repo" := Directory ]} names) [].
Definition demo_create_request : CreateFileRequest := mkCreateFileRequest (py "/repo") [].
Definition demo_full_project : storage := demo_project untitled_names.

(** ** The conflict descriptions of [three_way_merge] *)

Definition conflict_message (line_num : nat) : list N :=
  py "Conflict at line " ++ str_of_nat line_num.

(** The descriptions are those of the lines [line_nums], and the flag is
    raised exactly when there is one. *)
Definition reports (st : merge_state) (line_nums : list nat) : Prop :=
  conflicts st = map conflict_message line_nums /\
  has_conflicts st = negb (bool_decide (line_nums = [])).

(** * The lock registry *)

Section LockFacts.
Variable uuid4 : nat -> list N.

(** One step of each primitive, on a registry whose map already holds the
    lock of [k]. *)
Lemma bind_run {S A B} (m : M S A) (f : A -> M S B) (s s' : S) (a : A) :
  m s = (Ret a, s') -> bind m f s = f a s'.
Proof. intros Hm. unfold bind. rewrite Hm. reflexivity. Qed.

Lemma bind_raise {S A B} (m : M S A) (f : A -> M S B) (s s' : S) (e : exn) :
  m s = (Raise e, s') -> bind m f s = (Raise e, s').
Proof. intros Hm. unfold bind. rewrite Hm. reflexivity. Qed.

Lemma get_worktree_lock_run (k : list N) m c u h :
  _get_worktree_lock k (mkRegistry m c u h) =
    (Ret tt, mkRegistry (<[k := default new_WorktreeLock (m !! k)]> m) c u h).
Proof.
  unfold _get_worktree_lock, modify, set_locks. simpl.
  destruct (m !! k) as [wl|] eqn:E; simpl; [|reflexivity].
  rewrite insert_id by exact E. reflexivity.
Qed.

Lemma the_lock_run (k : list N) v m c u h :
  the_lock k (mkRegistry (<[k := v]> m) c u h) =
    (Ret v, mkRegistry (<[k := v]> m) c u h).
Proof. unfold the_lock. simpl. rewrite lookup_insert_eq. reflexivity. Qed.

Lemma update_lock_run (k : list N) f v m c u h :
  update_lock k f (mkRegistry (<[k := v]> m) c u h) =
    (Ret tt, mkRegistry (<[k := f v]> m) c u h).
Proof.
  unfold update_lock, modify, set_locks. simpl.
  rewrite lookup_insert_eq, insert_insert_eq. reflexivity.
Qed.

Lemma log_call_run (x : call) m c u h :
  log_call x (mkRegistry m c u h) = (Ret tt, mkRegistry m c u (h ++ [x])).
Proof. reflexivity. Qed.

Lemma datetime_now_run m c u h :
  datetime_now (mkRegistry m c u h) = (Ret c, mkRegistry m (S c) u h).
Proof. reflexivity. Qed.

Lemma str_uuid4_run m c u h :
  str_uuid4 uuid4 (mkRegistry m c u h) = (Ret (uuid4 u), mkRegistry m c (S u) h).
Proof. reflexivity. Qed.

Lemma ret_run {S A} (a : A) (s : S) : ret a s = (Ret a, s).
Proof. reflexivity. Qed.

Ltac step_with lem :=
  first [ erewrite bind_run by (apply lem) | rewrite lem ]; cbv beta.

Ltac step :=
  first [ step_with get_worktree_lock_run | step_with the_lock_run
        | step_with update_lock_run | step_with log_call_run
        | step_with datetime_now_run | step_with str_uuid4_run
        | step_with @ret_run ].

Lemma lock_acquire_nonblocking_run (k : list N) v m c u h :
  lock_acquire_nonblocking k (mkRegistry (<[k := v]> m) c u h) =
    if lock v then (Ret false, mkRegistry (<[k := v]> m) c u h)
    else (Ret true, mkRegistry (<[k := set_lock true v]> m) c u h).
Proof.
  unfold lock_acquire_nonblocking. step. destruct (lock v); repeat step; reflexivity.
Qed.

Lemma lock_release_run (k : list N) v m c u h :
  lock_release k (mkRegistry (<[k := v]> m) c u h) =
    if lock v then (Ret tt, mkRegistry (<[k := set_lock false v]> m) c u h)
    else (Raise (RuntimeError (py "release unlocked lock")),
          mkRegistry (<[k := v]> m) c u h).
Proof.
  unfold lock_release. step. destruct (lock v); repeat step; reflexivity.
Qed.

Lemma lock_locked_run (k : list N) v m c u h :
  lock_locked k (mkRegistry (<[k := v]> m) c u h) =
    (Ret (lock v), mkRegistry (<[k := v]> m) c u h).
Proof. unfold lock_locked. repeat step. reflexivity. Qed.

Lemma acquire_lock_run (k l : list N) (r : registry) :
  acquire_lock k l r =
    if lock (lock_of r k) then
      (Ret false,
       mkRegistry (worktree_locks r) (clock r) (uuid_count r)
                  (history r ++ [CallAcquire k l false]))
    else
      (Ret true,
       mkRegistry
         (<[k := mkWorktreeLock true (Some l) (Some (clock r))
                   (last_completed_operation (lock_of r k))
                   (last_completed_at (lock_of r k))
                   (last_completion_id (lock_of r k))]> (worktree_locks r))
         (S (clock r)) (uuid_count r)
         (history r ++ [CallAcquire k l true])).
Proof.
  unfold lock_of. destruct r as [m c u h]. unfold acquire_lock. simpl.
  step. unfold bind at 1. rewrite lock_acquire_nonblocking_run.
  destruct (m !! k) as [wl|] eqn:E; simpl.
  - destruct (lock wl) eqn:Hl; cbv beta iota.
    + repeat step. rewrite insert_id by exact E. reflexivity.
    + repeat step. destruct wl; simpl in *; subst; reflexivity.
  - repeat step. reflexivity.
Qed.

Lemma release_lock_run (k : list N) (r : registry) :
  release_lock uuid4 k r =
    (Ret tt,
     mkRegistry
       (<[k := mkWorktreeLock false None None
                 (current_operation (lock_of r k))
                 (Some (clock r))
                 (Some (uuid4 (uuid_count r)))]> (worktree_locks r))
       (S (clock r)) (S (uuid_count r))
       (history r ++ [CallRelease k])).
Proof.
  unfold lock_of. destruct r as [m c u h]. unfold release_lock. simpl.
  repeat step. unfold try_except. repeat step.
  rewrite lock_release_run. simpl.
  destruct (default new_WorktreeLock (m !! k)) as [[] ? ? ? ? ?]; reflexivity.
Qed.

Lemma lock_of_touch (k k' : list N) (r : registry) :
  lock_of (touch k r) k' = lock_of r k'.
Proof.
  unfold lock_of, touch. simpl. destruct (worktree_locks r !! k) eqn:E; [reflexivity|].
  destruct (decide (k = k')) as [->|Hne].
  - rewrite lookup_insert_eq, E. reflexivity.
  - rewrite lookup_insert_ne by done. reflexivity.
Qed.

Lemma get_lock_status_run (k : list N) (r : registry) :
  get_lock_status k r =
    (Ret (mkLockStatus
            (lock (lock_of r k))
            (if lock (lock_of r k) then current_operation (lock_of r k) else None)
            (if lock (lock_of r k) then operation_started_at (lock_of r k) else None)
            (last_completed_operation (lock_of r k))
            (last_completed_at (lock_of r k))
            (last_completion_id (lock_of r k))),
     touch k r).
Proof.
  unfold lock_of, touch. destruct r as [m c u h]. unfold get_lock_status. simpl.
  repeat step. simpl. rewrite !lookup_insert_eq. simpl.
  destruct (m !! k) as [wl|] eqn:E; simpl; [|reflexivity].
  rewrite insert_id by exact E. reflexivity.
Qed.

Lemma is_locked_run (k : list N) (r : registry) :
  is_locked k r = (Ret (lock (lock_of r k)), touch k r).
Proof.
  unfold lock_of, touch. destruct r as [m c u h]. unfold is_locked. simpl.
  step. rewrite lock_locked_run.
  destruct (m !! k) as [wl|] eqn:E; simpl; [|reflexivity].
  rewrite insert_id by exact E. reflexivity.
Qed.

Lemma lock_of_insert (k k' : list N) (v : WorktreeLock) m c u h :
  lock_of (mkRegistry (<[k := v]> m) c u h) k' =
    if decide (k = k') then v else lock_of (mkRegistry m c u h) k'.
Proof.
  unfold lock_of. simpl. case_decide as Hk.
  - subst. rewrite lookup_insert_eq. reflexivity.
  - rewrite lookup_insert_ne by done. reflexivity.
Qed.

(** A held lock stays held, with its label, until it is released. *)
Lemma run_op_keeps_held (k : list N) (o : lock_op) (r : registry) :
  lock (lock_of r k) = true ->
  o <> OpRelease k ->
  lock_of (run_op uuid4 o r).2 k = lock_of r k /\
  forall l, o = OpAcquire k l -> (run_op uuid4 o r).1 = ResAcquire false.
Proof.
  intros Hheld Hne. destruct o as [k' l'|k'|k'|k']; unfold run_op.
  - rewrite acquire_lock_run.
    destruct (lock (lock_of r k')) eqn:Hk'; simpl.
    + split; [reflexivity | intros; reflexivity].
    + destruct r as [m c u h]. rewrite lock_of_insert. case_decide as Hd.
      * subst k'. congruence.
      * split; [reflexivity | intros l [= <- _]; congruence].
  - rewrite release_lock_run. simpl. destruct r as [m c u h].
    rewrite lock_of_insert. case_decide as Hd; [subst; congruence|].
    split; [reflexivity | intros l [=]].
  - rewrite get_lock_status_run. simpl. rewrite lock_of_touch.
    split; [reflexivity | intros l [=]].
  - rewrite is_locked_run. simpl. rewrite lock_of_touch.
    split; [reflexivity | intros l [=]].
Qed.

Lemma run_ops_cons (o : lock_op) (os : list lock_op) (r : registry) :
  run_ops uuid4 (o :: os) r =
    ((run_op uuid4 o r).1 :: (run_ops uuid4 os (run_op uuid4 o r).2).1,
     (run_ops uuid4 os (run_op uuid4 o r).2).2).
Proof.
  simpl. destruct (run_op uuid4 o r) as [x r']. simpl.
  destruct (run_ops uuid4 os r') as [xs r'']. reflexivity.
Qed.

Lemma held_until_release (k : list N) (os : list lock_op) (r : registry) :
  lock (lock_of r k) = true ->
  OpRelease k ∉ os ->
  lock_of (run_ops uuid4 os r).2 k = lock_of r k /\
  forall i l, os !! i = Some (OpAcquire k l) ->
              (run_ops uuid4 os r).1 !! i = Some (ResAcquire false).
Proof.
  revert r. induction os as [|o os IH]; intros r Hheld Hnot.
  - split; [reflexivity | intros i l Hi; rewrite lookup_nil in Hi; discriminate].
  - rewrite run_ops_cons. simpl.
    apply not_elem_of_cons in Hnot as [Hne Hnot].
    destruct (run_op_keeps_held k o r Hheld) as [Hsame Hacq]; [congruence|].
    destruct (IH (run_op uuid4 o r).2) as [IH1 IH2]; [congruence | done |].
    split; [congruence|].
    intros [|i] l Hi; simpl in *.
    + injection Hi as ->. f_equal. eauto.
    + eauto.
Qed.

Lemma acquired_since_release_snoc k h c :
  acquired_since_release k (h ++ [c]) = count_step k (acquired_since_release k h) c.
Proof. unfold acquired_since_release. rewrite foldl_app. reflexivity. Qed.

Lemma history_agrees_run_op (o : lock_op) (r : registry) :
  history_agrees r -> history_agrees (run_op uuid4 o r).2.
Proof.
  intros Hinv k. specialize (Hinv k). destruct o as [k' l'|k'|k'|k']; unfold run_op.
  - rewrite acquire_lock_run. destruct (lock (lock_of r k')) eqn:Hk'; simpl.
    + rewrite acquired_since_release_snoc. simpl. exact Hinv.
    + rewrite acquired_since_release_snoc. simpl. destruct r as [m c u h].
      rewrite lock_of_insert. simpl in *. case_decide as Hd.
      * subst k'. simpl. rewrite Hinv, Hk'. reflexivity.
      * exact Hinv.
  - rewrite release_lock_run. simpl. rewrite acquired_since_release_snoc. simpl.
    destruct r as [m c u h]. rewrite lock_of_insert. simpl in *.
    case_decide as Hd; [reflexivity | exact Hinv].
  - rewrite get_lock_status_run. simpl. rewrite lock_of_touch. exact Hinv.
  - rewrite is_locked_run. simpl. rewrite lock_of_touch. exact Hinv.
Qed.

Lemma history_agrees_run_ops (os : list lock_op) (r : registry) :
  history_agrees r -> history_agrees (run_ops uuid4 os r).2.
Proof.
  revert r. induction os as [|o os IH]; intros r Hinv; [exact Hinv|].
  rewrite run_ops_cons. simpl. apply IH, history_agrees_run_op, Hinv.
Qed.

Lemma history_agrees_empty : history_agrees empty_registry.
Proof. intros k. reflexivity. Qed.

End LockFacts.

Lemma ids_known_run_op uuid4 (o : lock_op) (r : registry) :
  (forall k id, last_completion_id (lock_of r k) = Some id -> id ∈ generated_ids uuid4 r) ->
  forall k id, last_completion_id (lock_of (run_op uuid4 o r).2 k) = Some id ->
               id ∈ generated_ids uuid4 (run_op uuid4 o r).2.
Proof.
  intros Hinv k id. destruct o as [k' l'|k'|k'|k']; unfold run_op.
  - rewrite acquire_lock_run. destruct (lock (lock_of r k')) eqn:Hk'; simpl.
    + apply Hinv.
    + destruct r as [m c u h]. rewrite lock_of_insert. case_decide as Hd.
      * subst. simpl. apply Hinv.
      * apply Hinv.
  - rewrite release_lock_run. destruct r as [m c u h]. cbn [snd].
    rewrite lock_of_insert. unfold generated_ids in *.
    cbn [uuid_count clock worktree_locks history] in *.
    rewrite seq_S, map_app. cbn [map]. case_decide as Hd.
    + cbn [last_completion_id]. intros [= <-]. apply elem_of_app. right.
      apply list_elem_of_singleton. reflexivity.
    + intros Hid. apply elem_of_app. left. eapply Hinv, Hid.
  - rewrite get_lock_status_run. simpl. rewrite lock_of_touch. apply Hinv.
  - rewrite is_locked_run. simpl. rewrite lock_of_touch. apply Hinv.
Qed.

Lemma ids_known_run_ops uuid4 (os : list lock_op) (r : registry) :
  (forall k id, last_completion_id (lock_of r k) = Some id -> id ∈ generated_ids uuid4 r) ->
  forall k id, last_completion_id (lock_of (run_ops uuid4 os r).2 k) = Some id ->
               id ∈ generated_ids uuid4 (run_ops uuid4 os r).2.
Proof.
  revert r. induction os as [|o os IH]; intros r Hinv; [exact Hinv|].
  rewrite run_ops_cons. simpl. apply IH, ids_known_run_op, Hinv.
Qed.

Lemma fresh_id_not_generated uuid4 (r : registry) :
  Inj (=) (=) uuid4 -> uuid4 (uuid_count r) ∉ generated_ids uuid4 r.
Proof.
  intros Hinj Hin. unfold generated_ids in Hin.
  apply list_elem_of_fmap in Hin as (n & Heq & Hn).
  apply Hinj in Heq. subst n. apply elem_of_seq in Hn. lia.
Qed.

(** C1: mutual exclusion of the per-key lock. [acquire_lock k l] returns
    [True] exactly when the lock of [k] is free. When it does, the lock of
    [k] becomes held with operation [l] and the current time as its start,
    its completion fields staying as they were; when it does not, no lock
    changes; the locks of the other keys never change. After a successful
    acquire, in every sequence of registry calls that holds no release of
    [k], each further acquire of [k] returns [False]. And in every history
    that starts from the empty registry, at most one acquire of a key has
    succeeded since the last release of that key. *)
Theorem acquire_lock_mutual_exclusion (uuid4 : nat -> list N)
    (k l : list N) (r : registry) :
  let free := negb (lock (lock_of r k)) in
  let r' := (acquire_lock k l r).2 in
  (acquire_lock k l r).1 = Ret free /\
  (free = true ->
   lock_of r' k = mkWorktreeLock true (Some l) (Some (clock r))
                    (last_completed_operation (lock_of r k))
                    (last_completed_at (lock_of r k))
                    (last_completion_id (lock_of r k))) /\
  (free = false -> forall k', lock_of r' k' = lock_of r k') /\
  (forall k', k' <> k -> lock_of r' k' = lock_of r k') /\
  (free = true ->
   forall os, OpRelease k ∉ os ->
   forall i l', os !! i = Some (OpAcquire k l') ->
                (run_ops uuid4 os r').1 !! i = Some (ResAcquire false)) /\
  (forall os k',
     acquired_since_release k' (history (run_ops uuid4 os empty_registry).2) <= 1).
Proof.
  intros free r'. subst free r'. rewrite acquire_lock_run.
  destruct (lock (lock_of r k)) eqn:Hk; simpl.
  - split; [reflexivity|]. split; [discriminate|]. split; [reflexivity|].
    split; [reflexivity|]. split; [discriminate|].
    intros os k'. rewrite (history_agrees_run_ops uuid4 os _ history_agrees_empty k').
    destruct (lock (lock_of _ k')); lia.
  - split; [reflexivity|]. destruct r as [m c u h].
    split; [intros _; rewrite lock_of_insert; case_decide; done|].
    split; [discriminate|].
    split; [intros k' Hne; rewrite lock_of_insert; case_decide; [congruence | reflexivity]|].
    split.
    + intros _ os Hnot. apply held_until_release; [|exact Hnot].
      rewrite lock_of_insert. case_decide; done.
    + intros os k'. rewrite (history_agrees_run_ops uuid4 os _ history_agrees_empty k').
      destruct (lock (lock_of _ k')); lia.
Qed.

Lemma acquire_lock_mutual_exclusion_witness :
  (acquire_lock (py "/repo") (py "Compiling entire project") empty_registry).1 = Ret true /\
  (run_ops (fun n => [N.of_nat n])
     [OpAcquire (py "/repo") (py "Running all models"); OpStatus (py "/repo");
      OpRelease (py "/other"); OpAcquire (py "/repo") (py "Testing all models")]
     (acquire_lock (py "/repo") (py "Compiling entire project") empty_registry).2).1 !! 3
  = Some (ResAcquire false).
Proof.
  destruct (acquire_lock_mutual_exclusion (fun n => [N.of_nat n]) (py "/repo")
              (py "Compiling entire project") empty_registry)
    as (H1 & _ & _ & _ & H5 & _).
  split; [exact H1|].
  apply (H5 eq_refl) with (l' := py "Testing all models"); [|reflexivity].
  refine (bool_decide_unpack _ _). vm_compute. exact I.
Defined.

(** C4: [release_lock] can be called at any time. On any registry, held or
    free, the call returns, leaves the lock of [k] free with no current
    operation and no start time, records as last completed operation
    whatever operation was current (or none), the current time, and a
    completion id that no earlier call generated; the locks of the other
    keys do not change. A second call right after it returns too, leaves
    the lock free, records no operation and again a new completion id.
    Every completion id found in a registry reachable from the empty one has
    been generated by it. The ids are those of [uuid4], taken to be
    distinct from one call to the next. *)
Theorem release_lock_always_records (uuid4 : nat -> list N)
    (Hinj : Inj (=) (=) uuid4) (k : list N) (r : registry) :
  let r' := (release_lock uuid4 k r).2 in
  let r'' := (release_lock uuid4 k r').2 in
  (release_lock uuid4 k r).1 = Ret tt /\
  lock_of r' k = mkWorktreeLock false None None
                   (current_operation (lock_of r k))
                   (Some (clock r)) (Some (uuid4 (uuid_count r))) /\
  (uuid4 (uuid_count r) ∉ generated_ids uuid4 r) /\
  generated_ids uuid4 r' = generated_ids uuid4 r ++ [uuid4 (uuid_count r)] /\
  (forall k', k' <> k -> lock_of r' k' = lock_of r k') /\
  (release_lock uuid4 k r').1 = Ret tt /\
  lock (lock_of r'' k) = false /\
  last_completed_operation (lock_of r'' k) = None /\
  last_completion_id (lock_of r'' k) <> last_completion_id (lock_of r' k) /\
  (forall os k' id,
     last_completion_id (lock_of (run_ops uuid4 os empty_registry).2 k') = Some id ->
     id ∈ generated_ids uuid4 (run_ops uuid4 os empty_registry).2).
Proof.
  intros r' r''. subst r'' r'. rewrite !release_lock_run. simpl.
  destruct r as [m c u h]. simpl. rewrite !lock_of_insert. simpl.
  repeat case_decide; try congruence.
  split; [reflexivity|]. split; [reflexivity|].
  split; [apply (fresh_id_not_generated uuid4 (mkRegistry m c u h) Hinj)|].
  split; [unfold generated_ids; cbn [uuid_count]; rewrite seq_S, map_app; reflexivity|].
  split; [intros k' Hne; rewrite lock_of_insert; case_decide; [congruence | reflexivity]|].
  split; [reflexivity|]. split; [reflexivity|]. split; [reflexivity|].
  split; [intros [= Heq]; apply Hinj in Heq; lia|].
  intros os. apply ids_known_run_ops. intros k' id. unfold lock_of. simpl.
  rewrite lookup_empty. discriminate.
Qed.

Lemma release_lock_always_records_witness :
  (release_lock (fun n => [N.of_nat n]) (py "/repo") empty_registry).1 = Ret tt /\
  lock_of (release_lock (fun n => [N.of_nat n]) (py "/repo") empty_registry).2 (py "/repo")
  = mkWorktreeLock false None None None (Some 0) (Some [0%N]).
Proof.
  assert (Hinj : Inj (=) (=) (fun n : nat => [N.of_nat n])).
  { intros x y Heq. injection Heq as Heq. apply Nat2N.inj. exact Heq. }
  destruct (release_lock_always_records (fun n => [N.of_nat n]) Hinj (py "/repo")
              empty_registry) as (H1 & H2 & _).
  split; [exact H1 | exact H2].
Defined.

(** * The job runner *)

Section JobRunnerFacts.
Variable uuid4 : nat -> list N.
Variables env_vars_t environ_t Request : Type.
Variable resolve : list N -> list N.
Variable path_exists : list N -> bool.
Variable lower_strip : list N -> list N.
Variable valid_commands_joined : list N.
Variable validate_dbt_selector : list N -> list N -> outcome (list N).
Variable validate_dbt_target : list N -> outcome (list N).
Variable get_env_vars_from_cookie : Request -> list N -> env_vars_t.
Variable get_venv_dbt_path : list N -> outcome (list N).
Variable get_dbt_env : list N -> env_vars_t -> outcome environ_t.
Variable run_command :
  list (list N) -> list N -> nat -> environ_t -> outcome CommandResult.

Abbreviation world := (world env_vars_t).
Abbreviation task := (task env_vars_t).
Abbreviation run_dbt_command_task :=
  (DbtRoutes.run_dbt_command_task uuid4 get_venv_dbt_path get_dbt_env run_command).
Abbreviation dbt_command :=
  (DbtRoutes.dbt_command resolve path_exists lower_strip valid_commands_joined
     validate_dbt_selector validate_dbt_target get_env_vars_from_cookie).
Abbreviation run_event :=
  (DbtRoutes.run_event resolve path_exists lower_strip valid_commands_joined
     validate_dbt_selector validate_dbt_target get_env_vars_from_cookie).
Abbreviation run_events :=
  (DbtRoutes.run_events resolve path_exists lower_strip valid_commands_joined
     validate_dbt_selector validate_dbt_target get_env_vars_from_cookie).
Abbreviation accepted_for :=
  (DbtRoutes.accepted_for resolve path_exists lower_strip validate_dbt_selector
     validate_dbt_target).
Abbreviation submit_for :=
  (DbtRoutes.submit_for (Request := Request) resolve path_exists lower_strip
     validate_dbt_selector validate_dbt_target).

Lemma with_locks_run {A} (m : M registry A) (w : world) :
  with_locks m w =
    ((m (locks w)).1,
     mkWorld (m (locks w)).2 (dbt_command_status w) (background_tasks w)).
Proof. unfold with_locks, lift. destruct (m (locks w)). reflexivity. Qed.

(** ** Computations that leave the locks alone *)

Lemma same_locks_refl (w : world) : same_locks w w.
Proof. repeat split. Qed.

Lemma same_locks_trans (w1 w2 w3 : world) :
  same_locks w1 w2 -> same_locks w2 w3 -> same_locks w1 w3.
Proof. unfold same_locks. intros (?&?&?) (?&?&?). repeat split; congruence. Qed.

Lemma neutral_ret {A} (a : A) : lock_neutral (ret a : M world A).
Proof. intros w. apply same_locks_refl. Qed.

Lemma neutral_raise {A} (e : exn) : lock_neutral (raise e : M world A).
Proof. intros w. apply same_locks_refl. Qed.

Lemma neutral_of_outcome {A} (o : outcome A) : lock_neutral (of_outcome o : M world A).
Proof. intros w. apply same_locks_refl. Qed.

Lemma neutral_bind {A B} (m : M world A) (f : A -> M world B) :
  lock_neutral m -> (forall a, lock_neutral (f a)) -> lock_neutral (bind m f).
Proof.
  intros Hm Hf w. unfold bind. specialize (Hm w).
  destruct (m w) as [[a|e] w1]; simpl in *; [|exact Hm].
  eapply same_locks_trans; [exact Hm | apply Hf].
Qed.

Lemma neutral_try_except {A} (body : M world A) (handler : exn -> option (M world A)) :
  lock_neutral body ->
  (forall e h, handler e = Some h -> lock_neutral h) ->
  lock_neutral (try_except body handler).
Proof.
  intros Hb Hh w. unfold try_except. specialize (Hb w).
  destruct (body w) as [[a|e] w1]; simpl in *; [exact Hb|].
  destruct (handler e) as [h|] eqn:He; simpl; [|exact Hb].
  eapply same_locks_trans; [exact Hb | eapply Hh, He].
Qed.

Lemma neutral_set_status (p : list N) (js : job_status) :
  lock_neutral (set_status p js : M world unit).
Proof. intros w. repeat split. Qed.

Lemma neutral_now : lock_neutral (with_locks datetime_now : M world nat).
Proof. intros w. rewrite with_locks_run. destruct w as [[m c u h] st ts]. repeat split. Qed.

Lemma neutral_if {A} (b : bool) (m1 m2 : M world A) :
  lock_neutral m1 -> lock_neutral m2 -> lock_neutral (if b then m1 else m2).
Proof. destruct b; auto. Qed.

Create HintDb neutral.
Hint Resolve @neutral_ret @neutral_raise @neutral_of_outcome neutral_set_status
  neutral_now : neutral.

Ltac neutral :=
  repeat first
    [ apply neutral_bind; [|intros ?]
    | apply neutral_if
    | solve [auto with neutral] ].

Lemma run_dbt_command_task_run
    (path command selector target : list N) (full_refresh : bool)
    (env_vars : env_vars_t) (w : world) :
  exists (o : outcome unit) (w1 : world),
    same_locks w w1 /\
    (o = Ret tt \/ exists e, o = Raise e /\ is_Exception e = false) /\
    run_dbt_command_task path command selector target full_refresh env_vars w =
      (o, mkWorld (release_lock uuid4 path (locks w1)).2
            (dbt_command_status w1) (background_tasks w1)).
Proof.
  unfold DbtRoutes.run_dbt_command_task, try_finally.
  match goal with |- context [try_except ?b ?h w] =>
    set (body := b); set (handler := h) end.
  assert (Hbody : lock_neutral body).
  { subst body. neutral.
    apply neutral_try_except; [neutral|].
    intros e h He. destruct e; inversion He; neutral. }
  assert (Hhandler : forall e h, handler e = Some h -> lock_neutral h).
  { subst handler. intros e h He. destruct e; inversion He; neutral. }
  pose proof (neutral_try_except body handler Hbody Hhandler w) as Hsame.
  assert (Hout : (try_except body handler w).1 = Ret tt \/
                 exists e, (try_except body handler w).1 = Raise e /\ is_Exception e = false).
  { unfold try_except. destruct (body w) as [[[]|e] w1]; simpl; [left; reflexivity|].
    destruct (handler e) as [h|] eqn:He.
    - subst handler.
      destruct e; inversion He; subst h; unfold bind, with_locks, lift, datetime_now;
        simpl; left; reflexivity.
    - right. exists e. split; [reflexivity|].
      subst handler. destruct e; simpl in *; congruence. }
  destruct (try_except body handler w) as [o w1]. simpl in *.
  exists o, w1. split; [exact Hsame|]. split; [exact Hout|].
  rewrite with_locks_run, release_lock_run. reflexivity.
Qed.

End JobRunnerFacts.

(** ** Submitting commands *)

Section SubmitFacts.
Variables env_vars_t Request : Type.
Variable resolve : list N -> list N.
Variable path_exists : list N -> bool.
Variable lower_strip : list N -> list N.
Variable valid_commands_joined : list N.
Variable validate_dbt_selector : list N -> list N -> outcome (list N).
Variable validate_dbt_target : list N -> outcome (list N).
Variable get_env_vars_from_cookie : Request -> list N -> env_vars_t.

Abbreviation world := (world env_vars_t).
Abbreviation dbt_command :=
  (DbtRoutes.dbt_command resolve path_exists lower_strip valid_commands_joined
     validate_dbt_selector validate_dbt_target get_env_vars_from_cookie).
Abbreviation run_event :=
  (DbtRoutes.run_event resolve path_exists lower_strip valid_commands_joined
     validate_dbt_selector validate_dbt_target get_env_vars_from_cookie).
Abbreviation run_events :=
  (DbtRoutes.run_events resolve path_exists lower_strip valid_commands_joined
     validate_dbt_selector validate_dbt_target get_env_vars_from_cookie).
Abbreviation accepted_for :=
  (DbtRoutes.accepted_for resolve path_exists lower_strip validate_dbt_selector
     validate_dbt_target).
Abbreviation submit_for :=
  (DbtRoutes.submit_for (Request := Request) resolve path_exists lower_strip
     validate_dbt_selector validate_dbt_target).

Lemma dbt_command_run (k : list N) (action : DbtCommandRequest) (request : Request)
    (selector target : list N) (w : world) :
  accepted_for k action selector target ->
  let command := lower_strip (req_command action) in
  let label := operation_name_of command selector (req_full_refresh action) in
  dbt_command action request w =
    if lock (lock_of (locks w) k) then
      (Raise (already_running (current_operation (lock_of (locks w) k))),
       mkWorld (touch k (locks w)) (dbt_command_status w) (background_tasks w))
    else
      (Ret (mkStarted (py "started") command selector label),
       mkWorld (acquire_lock k label (touch k (locks w))).2
         (dbt_command_status w)
         (background_tasks w ++
            [mkTask k command selector target (req_full_refresh action)
                    (get_env_vars_from_cookie request k)])).
Proof.
  intros (Hk & Hex & Hcmd & Hsel & Htgt) command label.
  unfold DbtRoutes.dbt_command. rewrite Hk, Hex. cbn [negb].
  rewrite (bool_decide_eq_true_2 _ Hcmd). cbn [negb].
  rewrite Hsel, Htgt.
  erewrite bind_run by reflexivity. erewrite bind_run by reflexivity.
  erewrite bind_run by (rewrite with_locks_run, get_lock_status_run; reflexivity).
  cbn [st_is_locked st_operation].
  destruct (lock (lock_of (locks w) k)) eqn:Hl; [reflexivity|].
  fold command. fold label.
  unfold bind at 1. rewrite with_locks_run.
  cbn [fst snd locks dbt_command_status background_tasks].
  rewrite acquire_lock_run, lock_of_touch, Hl.
  cbn [fst snd negb locks dbt_command_status background_tasks].
  reflexivity.
Qed.

Lemma run_events_cons (ev : event Request) (evs : list (event Request)) (w : world) :
  run_events (ev :: evs) w =
    ((run_event ev w).1 :: (run_events evs (run_event ev w).2).1,
     (run_events evs (run_event ev w).2).2).
Proof.
  cbn [DbtRoutes.run_events]. destruct (run_event ev w) as [x w']. cbn [fst snd].
  destruct (run_events evs w') as [xs w'']. reflexivity.
Qed.

Lemma run_events_app (evs1 evs2 : list (event Request)) (w : world) :
  run_events (evs1 ++ evs2) w =
    ((run_events evs1 w).1 ++ (run_events evs2 (run_events evs1 w).2).1,
     (run_events evs2 (run_events evs1 w).2).2).
Proof.
  revert w. induction evs1 as [|ev evs1 IH]; intros w.
  - cbn. destruct (run_events evs2 w). reflexivity.
  - rewrite <- app_comm_cons, !run_events_cons, IH. reflexivity.
Qed.

Lemma run_events_length (evs : list (event Request)) (w : world) :
  length (run_events evs w).1 = length evs.
Proof.
  revert w. induction evs as [|ev evs IH]; intros w; [reflexivity|].
  rewrite run_events_cons. cbn [fst length]. rewrite IH. reflexivity.
Qed.

(** Polls and status records leave every lock and the task list alone. *)
Lemma run_event_not_submit (ev : event Request) (w : world) :
  is_submit ev = false ->
  (forall k, lock_of (locks (run_event ev w).2) k = lock_of (locks w) k) /\
  background_tasks (run_event ev w).2 = background_tasks w.
Proof.
  destruct ev as [a q|p|p|p js]; intros Hns; [discriminate| | |].
  - unfold DbtRoutes.run_event, get_dbt_operation_status.
    erewrite bind_run by (rewrite with_locks_run, get_lock_status_run; reflexivity).
    cbn. split; [intros k; apply lock_of_touch | reflexivity].
  - unfold DbtRoutes.run_event, get_dbt_command_status. cbn.
    split; [reflexivity | reflexivity].
  - cbn. split; reflexivity.
Qed.

Lemma run_events_no_submit (evs : list (event Request)) (w : world) :
  Forall (fun ev => is_submit ev = false) evs ->
  (forall k, lock_of (locks (run_events evs w).2) k = lock_of (locks w) k) /\
  background_tasks (run_events evs w).2 = background_tasks w.
Proof.
  revert w. induction evs as [|ev evs IH]; intros w Hall; [split; reflexivity|].
  apply Forall_cons in Hall as [Hev Hall]. rewrite run_events_cons. cbn [snd].
  destruct (run_event_not_submit ev w Hev) as [H1 H2].
  destruct (IH (run_event ev w).2 Hall) as [H3 H4].
  split; [intros k; rewrite H3; apply H1 | congruence].
Qed.

(** While the lock of [k] is held, a submit for [k] is turned away with the
    label of the holder, and nothing changes for [k]. *)
Lemma run_event_while_held (k l : list N) (ev : event Request) (w : world) :
  lock (lock_of (locks w) k) = true ->
  current_operation (lock_of (locks w) k) = Some l ->
  submit_for k ev ->
  lock_of (locks (run_event ev w).2) k = lock_of (locks w) k /\
  background_tasks (run_event ev w).2 = background_tasks w /\
  (is_submit ev = true ->
   (run_event ev w).1 = Rejected (already_running (Some l))).
Proof.
  intros Hheld Hop Hev. destruct ev as [a q|p|p|p js].
  - destruct Hev as (selector & target & Hacc).
    unfold DbtRoutes.run_event.
    rewrite (dbt_command_run k a q selector target w Hacc), Hheld, Hop.
    cbn [fst snd locks background_tasks].
    split; [apply lock_of_touch|]. split; reflexivity.
  - destruct (run_event_not_submit (EvPollOperation p) w eq_refl) as [H1 H2].
    split; [apply H1|]. split; [exact H2 | discriminate].
  - destruct (run_event_not_submit (EvPollCommand p) w eq_refl) as [H1 H2].
    split; [apply H1|]. split; [exact H2 | discriminate].
  - destruct (run_event_not_submit (EvTaskStatus p js) w eq_refl) as [H1 H2].
    split; [apply H1|]. split; [exact H2 | discriminate].
Qed.

Lemma run_events_while_held (k l : list N) (evs : list (event Request)) (w : world) :
  lock (lock_of (locks w) k) = true ->
  current_operation (lock_of (locks w) k) = Some l ->
  Forall (submit_for k) evs ->
  lock_of (locks (run_events evs w).2) k = lock_of (locks w) k /\
  background_tasks (run_events evs w).2 = background_tasks w /\
  (forall i ev, evs !! i = Some ev -> is_submit ev = true ->
     (run_events evs w).1 !! i = Some (Rejected (already_running (Some l)))).
Proof.
  revert w. induction evs as [|ev evs IH]; intros w Hheld Hop Hall.
  - split; [reflexivity|]. split; [reflexivity|].
    intros i ev Hi. rewrite lookup_nil in Hi. discriminate.
  - apply Forall_cons in Hall as [Hev Hall]. rewrite run_events_cons. cbn [fst snd].
    destruct (run_event_while_held k l ev w Hheld Hop Hev) as (H1 & H2 & H3).
    destruct (IH (run_event ev w).2) as (H4 & H5 & H6); [congruence | congruence | exact Hall |].
    split; [congruence|]. split; [congruence|].
    intros [|i] ev' Hi Hs; cbn in *.
    + injection Hi as ->. f_equal. auto.
    + eauto.
Qed.

End SubmitFacts.

(** C2: the background task releases the lock exactly once on every exit
    path. Whatever the virtual environment lookup, the environment
    construction and the external command return or raise (success, a
    non-zero exit, a timeout, any other exception), the run of
    [run_dbt_command_task] adds to the history of registry calls exactly one
    entry, the release of the lock of [path], and ends with that lock free.
    The task itself returns normally, or lets through an exception that is
    not an [Exception] (and has released the lock all the same). *)
Theorem run_dbt_command_task_releases_once
    (uuid4 : nat -> list N) (env_vars_t environ_t : Type)
    (get_venv_dbt_path : list N -> outcome (list N))
    (get_dbt_env : list N -> env_vars_t -> outcome environ_t)
    (run_command : list (list N) -> list N -> nat -> environ_t -> outcome CommandResult)
    (path command selector target : list N) (full_refresh : bool)
    (env_vars : env_vars_t) (w : world env_vars_t) :
  let res := run_dbt_command_task uuid4 get_venv_dbt_path get_dbt_env run_command
               path command selector target full_refresh env_vars w in
  history (locks res.2) = history (locks w) ++ [CallRelease path] /\
  lock (lock_of (locks res.2) path) = false /\
  (res.1 = Ret tt \/ exists e, res.1 = Raise e /\ is_Exception e = false).
Proof.
  intros res. subst res.
  destruct (run_dbt_command_task_run uuid4 env_vars_t environ_t get_venv_dbt_path
              get_dbt_env run_command path command selector target full_refresh
              env_vars w) as (o & w1 & (Hm & Hu & Hh) & Hout & Heq).
  rewrite Heq. cbn [fst snd locks]. rewrite release_lock_run. cbn [snd history].
  split; [rewrite Hh; reflexivity|].
  split; [|exact Hout].
  destruct (locks w1) as [m c u h]. rewrite lock_of_insert.
  case_decide; [reflexivity | congruence].
Qed.



(** * The sequence matcher *)

(** ** The index of [b] *)

Section Positions.
Context {A : Type} `{Countable A}.


Lemma positions_from_app (s : nat) (x : A) (l1 l2 : list A) :
  positions_from s x (l1 ++ l2) =
    positions_from s x l1 ++ positions_from (s + length l1) x l2.
Proof.
  revert s. induction l1 as [|y l1 IH]; intros s; cbn.
  - rewrite Nat.add_0_r. reflexivity.
  - rewrite IH, <- app_assoc.
    replace (S s + length l1) with (s + S (length l1)) by lia. reflexivity.
Qed.

Lemma elem_of_positions_from (s j : nat) (x : A) (l : list A) :
  j ∈ positions_from s x l <-> s <= j /\ l !! (j - s) = Some x.
Proof.
  revert s. induction l as [|y l IH]; intros s; cbn.
  - rewrite elem_of_nil, lookup_nil. split; [tauto | intros [_ [=]]].
  - rewrite elem_of_app, IH. case_decide as Hy.
    + subst y. rewrite list_elem_of_singleton. split.
      * intros [->|[Hle Hl]].
        -- rewrite Nat.sub_diag. split; [lia | reflexivity].
        -- split; [lia|]. replace (j - s) with (S (j - S s)) by lia. exact Hl.
      * intros [Hle Hl]. destruct (decide (j = s)) as [->|Hne]; [left; reflexivity|].
        right. split; [lia|]. replace (j - s) with (S (j - S s)) in Hl by lia. exact Hl.
    + rewrite elem_of_nil. split.
      * intros [[]|[Hle Hl]]. split; [lia|].
        replace (j - s) with (S (j - S s)) by lia. exact Hl.
      * intros [Hle Hl]. right. destruct (decide (j = s)) as [->|Hne].
        -- rewrite Nat.sub_diag in Hl. cbn in Hl. congruence.
        -- split; [lia|]. replace (j - s) with (S (j - S s)) in Hl by lia. exact Hl.
Qed.

Lemma positions_from_lt (s j : nat) (x : A) (l : list A) :
  j ∈ positions_from s x l -> j < s + length l.
Proof.
  rewrite elem_of_positions_from. intros [Hle Hl].
  apply lookup_lt_Some in Hl. lia.
Qed.

Lemma b2j_index_snoc (b : list A) (y : A) :
  b2j_index (b ++ [y]) =
    <[y := default [] (b2j_index b !! y) ++ [length b]]> (b2j_index b).
Proof.
  unfold b2j_index. rewrite imap_app, foldl_app. cbn.
  rewrite Nat.add_0_r. reflexivity.
Qed.

Lemma b2j_index_lookup (b : list A) (x : A) :
  default [] (b2j_index b !! x) = positions_from 0 x b.
Proof.
  induction b as [|y b IH] using rev_ind; [reflexivity|].
  rewrite b2j_index_snoc, positions_from_app. cbn.
  case_decide as Hy.
  - subst y. rewrite lookup_insert_eq. cbn. rewrite IH. reflexivity.
  - rewrite lookup_insert_ne by exact Hy. rewrite IH.
    cbn. rewrite app_nil_r. reflexivity.
Qed.

Lemma chain_b_lookup (b : list A) (x : A) (js : list nat) :
  chain_b b !! x = Some js -> js = positions_from 0 x b.
Proof.
  unfold chain_b. intros Hl.
  assert (Hidx : b2j_index b !! x = Some js).
  { case_decide; [|exact Hl]. apply map_lookup_filter_Some in Hl as [Hl _]. exact Hl. }
  rewrite <- b2j_index_lookup, Hidx. reflexivity.
Qed.

End Positions.

(** ** A sequence matched with itself *)

Section InnerLoop.
Context {A : Type} `{Countable A}.

(** The inner loop on indices that are all in range: every index gets its
    entry, and the best block stays when no entry beats it. *)
Lemma flm_inner_lookup (i blo bhi : nat) (j2len : gmap nat nat) (js : list nat)
    (nj : gmap nat nat) (best : block) (j : nat) :
  Forall (fun j => blo <= j < bhi) js ->
  (flm_inner i blo bhi j2len js nj best).1 !! j =
    if decide (j ∈ js) then Some (j2len_get j2len j + 1) else nj !! j.
Proof.
  revert nj best. induction js as [|j0 js IH]; intros nj best Hall; cbn.
  - rewrite decide_False by apply not_elem_of_nil. reflexivity.
  - apply Forall_cons in Hall as [Hj0 Hall].
    rewrite decide_False by lia. rewrite decide_False by lia.
    rewrite IH by exact Hall.
    destruct (decide (j ∈ js)) as [Hin|Hnin].
    + rewrite decide_True by (apply elem_of_cons; right; exact Hin). reflexivity.
    + destruct (decide (j = j0)) as [->|Hne].
      * rewrite decide_True by (apply elem_of_cons; left; reflexivity).
        rewrite lookup_insert_eq. reflexivity.
      * rewrite decide_False by (rewrite elem_of_cons; tauto).
        rewrite lookup_insert_ne by congruence. reflexivity.
Qed.

Lemma flm_inner_keeps_best (i blo bhi : nat) (j2len : gmap nat nat) (js : list nat)
    (nj : gmap nat nat) (best : block) :
  Forall (fun j => j2len_get j2len j + 1 <= best.2) js ->
  (flm_inner i blo bhi j2len js nj best).2 = best.
Proof.
  revert nj. induction js as [|j0 js IH]; intros nj Hall; cbn; [reflexivity|].
  apply Forall_cons in Hall as [Hj0 Hall].
  repeat case_decide; try reflexivity; try lia; apply IH, Hall.
Qed.

Lemma flm_inner_app (i blo bhi : nat) (j2len : gmap nat nat) (l1 l2 : list nat)
    (nj : gmap nat nat) (best : block) :
  Forall (fun j => j < bhi) l1 ->
  flm_inner i blo bhi j2len (l1 ++ l2) nj best =
    flm_inner i blo bhi j2len l2
      (flm_inner i blo bhi j2len l1 nj best).1
      (flm_inner i blo bhi j2len l1 nj best).2.
Proof.
  revert nj best. induction l1 as [|j0 l1 IH]; intros nj best Hall; cbn; [reflexivity|].
  apply Forall_cons in Hall as [Hj0 Hall].
  repeat case_decide; try lia; apply IH, Hall.
Qed.

Lemma extend_true_id (a b : list A) (alo ahi blo bhi : nat) (best : block) :
  extend true a b alo ahi blo bhi best = best.
Proof.
  destruct best as [[bi bj] bs]. unfold extend.
  assert (Hjunk : forall o : option A, junk_is true o = false).
  { intros [u|]; reflexivity. }
  assert (Hback : extend_back true a b alo blo bi bj bs = (bi, bj, bs)).
  { destruct bi as [|i']; destruct bj as [|j']; cbn; try reflexivity.
    rewrite Hjunk, andb_false_r. reflexivity. }
  rewrite Hback. f_equal.
  destruct (ahi - (bi + bs)) as [|steps]; cbn; [reflexivity|].
  rewrite Hjunk, andb_false_r. reflexivity.
Qed.

End InnerLoop.

Section SameSequence.
Context {A : Type} `{Countable A}.
Variable a : list A.
Variable b2j : gmap A (list nat).
Hypothesis b2j_positions :
  forall x js, b2j !! x = Some js -> js = positions_from 0 x a.

Abbreviation runb := (Difflib.runb a b2j).
Abbreviation row_ok := (Difflib.row_ok a b2j).


Lemma runb_le (m : nat) : runb m <= m.
Proof.
  induction m as [|m IH]; cbn; [lia|].
  destruct (a !! m); [|lia]. case_decide; lia.
Qed.


Lemma entry_bound (m j : nat) (x : A) (j2len : gmap nat nat) :
  (forall j v, j2len !! j = Some v -> v <= runb (S j) /\ v <= runb m) ->
  a !! j = Some x -> is_Some (b2j !! x) ->
  j2len_get j2len j + 1 <= runb (S j) /\ j2len_get j2len j <= runb m.
Proof.
  intros Hmap Hj Hnp. cbn [Difflib.runb]. rewrite Hj, decide_True by exact Hnp.
  destruct j as [|j']; cbn [j2len_get]; [split; lia|].
  destruct (j2len !! j') as [v|] eqn:Hv; cbn [from_option id]; [|split; lia].
  destruct (Hmap j' v Hv). split; lia.
Qed.

Lemma row_ok_step (n m : nat) (st : gmap nat nat * block) :
  n = length a -> m < n -> row_ok m st ->
  row_ok (S m) (flm_row a b2j 0 n st m).
Proof.
  intros Hn Hm (Hmap & Hdiag & Heq & Hle & Hbest).
  destruct st as [j2len [[bi bj] bs]]. cbn in Heq, Hle, Hbest, Hmap, Hdiag. subst bj.
  destruct (lookup_lt_is_Some_2 a m) as [x Hx]; [lia|].
  unfold flm_row. rewrite Hx. cbn [fst snd].
  destruct (b2j !! x) as [js|] eqn:Hjs; cbn [from_option id].
  - (* the element is indexed *)
    assert (Hnp : is_Some (b2j !! x)) by (rewrite Hjs; eauto).
    assert (HrS : runb (S m) = S (runb m)).
    { cbn [Difflib.runb]. rewrite Hx, decide_True by exact Hnp. reflexivity. }
    assert (Hjs' := b2j_positions x js Hjs).
    assert (Hsplit : js = positions_from 0 x (take m a) ++ m ::
                          positions_from (S m) x (drop (S m) a)).
    { rewrite Hjs'. rewrite <- (take_drop_middle a m x Hx) at 1.
      rewrite positions_from_app. cbn. rewrite decide_True by reflexivity.
      rewrite length_take. replace (m `min` length a) with m by lia.
      cbn. replace (m + 1) with (S m) by lia. reflexivity. }
    assert (Hmem : forall j, j ∈ js -> a !! j = Some x /\ j < n).
    { intros j Hj. rewrite Hjs' in Hj. pose proof (positions_from_lt _ _ _ _ Hj).
      apply elem_of_positions_from in Hj as [_ Hj]. rewrite Nat.sub_0_r in Hj.
      split; [exact Hj | lia]. }
    assert (Hrange : Forall (fun j => 0 <= j < n) js).
    { apply Forall_forall. intros j Hj. destruct (Hmem j Hj). lia. }
    assert (Hin_m : m ∈ js).
    { rewrite Hsplit. apply elem_of_app. right. apply elem_of_cons. left. reflexivity. }
    set (l1 := positions_from 0 x (take m a)) in *.
    set (l2 := positions_from (S m) x (drop (S m) a)) in *.
    assert (Hl1 : forall j, j ∈ l1 -> j < m).
    { intros j Hj. apply positions_from_lt in Hj. rewrite length_take in Hj. lia. }
    assert (Hsub1 : forall j, j ∈ l1 -> j ∈ js).
    { intros j Hj. rewrite Hsplit. apply elem_of_app. left. exact Hj. }
    assert (Hsub2 : forall j, j ∈ l2 -> j ∈ js).
    { intros j Hj. rewrite Hsplit. apply elem_of_app. right. apply elem_of_cons.
      right. exact Hj. }
    (* the best block *)
    assert (Hb : (flm_inner m 0 n j2len js ∅ (bi, bi, bs)).2 =
                 if decide (bs < runb (S m))
                 then (m + 1 - runb (S m), m + 1 - runb (S m), runb (S m))
                 else (bi, bi, bs)).
    { rewrite Hsplit. rewrite flm_inner_app.
      2:{ apply Forall_forall. intros j Hj. destruct (Hmem j (Hsub1 j Hj)). lia. }
      rewrite (flm_inner_keeps_best m 0 n j2len l1 ∅ (bi, bi, bs)).
      2:{ apply Forall_forall. intros j Hj. cbn [snd].
          destruct (Hmem j (Hsub1 j Hj)) as [Haj _].
          destruct (entry_bound m j x j2len Hmap Haj Hnp) as [Hb1 _].
          pose proof (Hbest (S j) ltac:(pose proof (Hl1 j Hj); lia)). lia. }
      cbn [flm_inner]. rewrite decide_False by lia. rewrite decide_False by lia.
      rewrite Hdiag. replace (runb m + 1) with (runb (S m)) by lia.
      cbn [snd]. rewrite flm_inner_keeps_best; [reflexivity|].
      apply Forall_forall. intros j Hj.
      destruct (Hmem j (Hsub2 j Hj)) as [Haj _].
      destruct (entry_bound m j x j2len Hmap Haj Hnp) as [_ Hb2].
      case_decide; cbn [snd]; lia. }
    pose proof (runb_le (S m)) as HleS.
    split; [|split; [|split; [|split]]].
    + intros j v. rewrite flm_inner_lookup by exact Hrange. rewrite lookup_empty.
      destruct (decide (j ∈ js)) as [Hj|Hj]; [|intros [=]]. intros [= <-].
      destruct (Hmem j Hj) as [Haj _].
      destruct (entry_bound m j x j2len Hmap Haj Hnp). lia.
    + cbn [j2len_get]. rewrite flm_inner_lookup by exact Hrange.
      rewrite decide_True by exact Hin_m. cbn [from_option id]. rewrite Hdiag. lia.
    + rewrite Hb. case_decide; reflexivity.
    + rewrite Hb. case_decide; cbn [fst snd]; lia.
    + intros y Hy. rewrite Hb. case_decide; cbn [fst snd].
      * destruct (decide (y = S m)) as [->|Hne]; [lia|].
        pose proof (Hbest y ltac:(lia)). lia.
      * destruct (decide (y = S m)) as [->|Hne]; [lia|].
        apply Hbest. lia.
  - (* the element is not indexed *)
    assert (HrS : runb (S m) = 0).
    { cbn [Difflib.runb]. rewrite Hx, decide_False; [reflexivity|].
      rewrite Hjs. intros [? [=]]. }
    cbn [flm_inner]. unfold Difflib.row_ok. cbn [fst snd]. split; [|split; [|split; [|split]]].
    + intros j v Hv. rewrite lookup_empty in Hv. discriminate.
    + rewrite HrS. cbn [j2len_get]. rewrite lookup_empty. reflexivity.
    + reflexivity.
    + lia.
    + intros y Hy. destruct (decide (y = S m)) as [->|Hne]; [rewrite HrS; lia|].
      apply Hbest. lia.
Qed.

Lemma row_ok_rows (n m : nat) :
  n = length a -> m <= n ->
  row_ok m (foldl (flm_row a b2j 0 n) (∅, (0, 0, 0)) (seq 0 m)).
Proof.
  intros Hn. induction m as [|m IH]; intros Hm.
  - cbn [seq foldl]. unfold Difflib.row_ok. cbn [fst snd].
    split; [|split; [|split; [|split]]]; try reflexivity; try lia.
    + intros j v Hv. rewrite lookup_empty in Hv. discriminate.
    + intros x Hx. replace x with 0 by lia. cbn. lia.
  - rewrite seq_S, foldl_app. cbn [foldl]. apply row_ok_step; [exact Hn | lia|].
    apply IH. lia.
Qed.

End SameSequence.

Section SameSequenceBlocks.
Context {A : Type} `{Countable A}.
Variable a : list A.

Lemma extend_back_same (bi bs : nat) :
  bi <= length a ->
  extend_back false a a 0 0 bi bi bs = (0, 0, bs + bi).
Proof.
  revert bs. induction bi as [|i' IH]; intros bs Hle; cbn [extend_back].
  - rewrite Nat.add_0_r. reflexivity.
  - destruct (lookup_lt_is_Some_2 a i') as [x Hx]; [lia|].
    rewrite Hx. cbn [junk_is elt_eqb isbjunk].
    rewrite !bool_decide_eq_true_2 by (reflexivity || lia). cbn [andb].
    rewrite IH by lia. f_equal. lia.
Qed.

Lemma extend_fwd_same (steps bs : nat) :
  bs + steps <= length a ->
  extend_fwd false a a (length a) (length a) 0 0 steps bs = bs + steps.
Proof.
  revert bs. induction steps as [|steps IH]; intros bs Hle; cbn [extend_fwd].
  - lia.
  - cbn [Nat.add]. destruct (lookup_lt_is_Some_2 a bs) as [x Hx]; [lia|].
    rewrite Hx. cbn [junk_is elt_eqb isbjunk].
    rewrite !bool_decide_eq_true_2 by (reflexivity || lia). cbn [andb].
    rewrite IH by lia. lia.
Qed.

Lemma find_longest_match_same (b2j : gmap A (list nat)) :
  (forall x js, b2j !! x = Some js -> js = positions_from 0 x a) ->
  find_longest_match a a b2j 0 (length a) 0 (length a) = (0, 0, length a).
Proof.
  intros Hb2j. unfold find_longest_match. rewrite extend_true_id.
  rewrite Nat.sub_0_r.
  pose proof (row_ok_rows a b2j Hb2j (length a) (length a) eq_refl (le_n _))
    as (_ & _ & Heq & Hle & _).
  destruct (foldl _ _ _) as [j2len [[bi bj] bs]]. cbn [fst snd] in *. subst bj.
  unfold extend. rewrite extend_back_same by lia.
  rewrite extend_fwd_same by lia. f_equal. lia.
Qed.

Lemma mb_loop_nil (fuel : nat) (b : list A) (b2j : gmap A (list nat))
    (acc : list block) :
  mb_loop fuel a b b2j [] acc = acc.
Proof. destruct fuel; reflexivity. Qed.

Lemma get_matching_blocks_same :
  get_matching_blocks a a =
    match a with
    | [] => [(0, 0, 0)]
    | _ => [(0, 0, length a); (length a, length a, 0)]
    end.
Proof.
  unfold get_matching_blocks.
  replace (2 * length a + 1) with (S (2 * length a)) by lia.
  cbn [mb_loop].
  rewrite (find_longest_match_same (chain_b a)) by apply chain_b_lookup.
  destruct a as [|x l] eqn:Ha.
  - cbn. reflexivity.
  - rewrite <- Ha. assert (Hlen : length a <> 0) by (rewrite Ha; cbn; lia).
    rewrite decide_False by exact Hlen.
    rewrite decide_False by lia. rewrite decide_False by lia.
    rewrite mb_loop_nil. cbn [app sort_blocks foldr insert_block foldl collapse_step].
    rewrite decide_True by (split; reflexivity).
    rewrite decide_False by lia. reflexivity.
Qed.

Lemma get_opcodes_same :
  get_opcodes a a =
    match a with
    | [] => []
    | _ => [(Equal, 0, length a, 0, length a)]
    end.
Proof.
  unfold get_opcodes. rewrite get_matching_blocks_same.
  destruct a as [|x l] eqn:Ha; [reflexivity|].
  rewrite <- Ha. assert (Hlen : length a <> 0) by (rewrite Ha; cbn; lia).
  cbn [foldl opcode_step].
  repeat (first [ rewrite decide_False by lia
                | rewrite decide_True by reflexivity ]).
  reflexivity.
Qed.

Lemma get_grouped_opcodes_same : get_grouped_opcodes 3 a a = [].
Proof.
  unfold get_grouped_opcodes. rewrite get_opcodes_same.
  destruct a as [|x l] eqn:Ha; [reflexivity|].
  rewrite <- Ha. cbn [fix_first fix_last foldl group_step].
  rewrite bool_decide_eq_true_2 by reflexivity.
  rewrite bool_decide_eq_false_2 by lia. reflexivity.
Qed.

End SameSequenceBlocks.

Lemma unified_diff_same (a : list (list N)) : unified_diff a a = [].
Proof. unfold unified_diff. rewrite get_grouped_opcodes_same. reflexivity. Qed.

(** ** The longest match *)

Section LongestMatch.
Context {A : Type} `{Countable A}.
Variables a b : list A.
Variable b2j : gmap A (list nat).
Hypothesis b2j_sound :
  forall x js j, b2j !! x = Some js -> j ∈ js -> b !! j = Some x.
Variables alo ahi blo bhi : nat.

Lemma is_match_empty (i j : nat) : is_match a b (i, j, 0).
Proof. intros t Ht. cbn in Ht. lia. Qed.

Lemma is_match_snoc (i j k : nat) (x : A) :
  is_match a b (i, j, k) -> a !! (i + k) = Some x -> b !! (j + k) = Some x ->
  is_match a b (i, j, k + 1).
Proof.
  intros Hm Ha Hb t Ht. cbn [fst snd] in *.
  destruct (decide (t = k)) as [->|Hne]; [eauto|].
  apply Hm. cbn. lia.
Qed.

Lemma is_match_cons (i j k : nat) (x : A) :
  is_match a b (S i, S j, k) -> a !! i = Some x -> b !! j = Some x ->
  is_match a b (i, j, k + 1).
Proof.
  intros Hm Ha Hb t Ht. cbn [fst snd] in *.
  destruct t as [|t]; [rewrite !Nat.add_0_r; eauto|].
  replace (i + S t) with (S i + t) by lia.
  replace (j + S t) with (S j + t) by lia.
  apply Hm. cbn. lia.
Qed.

Lemma elt_eqb_true (x y : option A) :
  elt_eqb x y = true -> exists u, x = Some u /\ y = Some u.
Proof.
  destruct x as [u|], y as [v|]; cbn; try discriminate.
  intros Huv. apply bool_decide_eq_true_1 in Huv. subst v. eauto.
Qed.

(** The inner loop keeps the entries of the new row and the best block
    sound. *)
Lemma flm_inner_ok (i : nat) (x : A) (j2len : gmap nat nat) (js : list nat)
    (nj : gmap nat nat) (best : block) :
  alo <= i -> a !! i = Some x ->
  (forall j v, j2len !! j = Some v -> entry_ok a b alo blo bhi i j v) ->
  Forall (fun j => b !! j = Some x) js ->
  (forall j v, nj !! j = Some v -> entry_ok a b alo blo bhi (S i) j v) ->
  within alo (S i) blo bhi best -> is_match a b best ->
  let r := flm_inner i blo bhi j2len js nj best in
  (forall j v, r.1 !! j = Some v -> entry_ok a b alo blo bhi (S i) j v) /\
  within alo (S i) blo bhi r.2 /\ is_match a b r.2.
Proof.
  intros Hi Hx Hold. revert nj best.
  induction js as [|j js IH]; intros nj best Hjs Hnew Hw Hm; cbn [flm_inner].
  - cbn. auto.
  - apply Forall_cons in Hjs as [Hbj Hjs].
    case_decide as Hlo; [apply IH; assumption|].
    case_decide as Hhi; [cbn; auto|].
    assert (Hentry : entry_ok a b alo blo bhi (S i) j (j2len_get j2len j + 1)).
    { destruct j as [|j']; cbn [j2len_get].
      - exists i, 0. repeat split; try lia.
        apply (is_match_snoc i 0 0 x); [apply is_match_empty | |];
          rewrite Nat.add_0_r; assumption.
      - destruct (j2len !! j') as [v|] eqn:Hv; cbn [from_option id].
        + destruct (Hold j' v Hv) as (si & sj & Hsi & Hsj & Hv1 & Ha & Hb & _ & Hmv).
          exists si, sj. repeat split; try lia.
          apply (is_match_snoc si sj v x); [exact Hmv | |].
          * replace (si + v) with i by lia. exact Hx.
          * replace (sj + v) with (S j') by lia. exact Hbj.
        + exists i, (S j'). repeat split; try lia.
          apply (is_match_snoc i (S j') 0 x); [apply is_match_empty | |];
            rewrite Nat.add_0_r; assumption. }
    apply IH; [exact Hjs | | |].
    + intros j0 v0. destruct (decide (j0 = j)) as [->|Hne].
      * rewrite lookup_insert_eq. intros [= <-]. exact Hentry.
      * rewrite lookup_insert_ne by congruence. apply Hnew.
    + case_decide; [|exact Hw].
      destruct Hentry as (si & sj & Hsi & Hsj & Hv1 & Ha & Hb & Hj & _).
      unfold within. cbn [fst snd]. lia.
    + case_decide; [|exact Hm].
      destruct Hentry as (si & sj & Hsi & Hsj & Hv1 & Ha & Hb & Hj & Hmv).
      replace (i + 1 - (j2len_get j2len j + 1)) with si by lia.
      replace (j + 1 - (j2len_get j2len j + 1)) with sj by lia.
      exact Hmv.
Qed.

Lemma within_row (i : nat) (best : block) :
  within alo i blo bhi best -> within alo (S i) blo bhi best.
Proof. unfold within. lia. Qed.

Lemma flm_row_ok (i : nat) (st : gmap nat nat * block) :
  alo <= i ->
  (forall j v, st.1 !! j = Some v -> entry_ok a b alo blo bhi i j v) ->
  within alo i blo bhi st.2 -> is_match a b st.2 ->
  let r := flm_row a b2j blo bhi st i in
  (forall j v, r.1 !! j = Some v -> entry_ok a b alo blo bhi (S i) j v) /\
  within alo (S i) blo bhi r.2 /\ is_match a b r.2.
Proof.
  intros Hi Hold Hw Hm. unfold flm_row.
  destruct (a !! i) as [x|] eqn:Hx.
  - apply (flm_inner_ok i x); try assumption.
    + destruct (b2j !! x) as [js|] eqn:Hjs; cbn [from_option id]; [|constructor].
      apply Forall_forall. intros j Hj. exact (b2j_sound x js j Hjs Hj).
    + intros j v Hv. rewrite lookup_empty in Hv. discriminate.
    + apply within_row, Hw.
  - cbn. split; [|split; [apply within_row, Hw | exact Hm]].
    intros j v Hv. rewrite lookup_empty in Hv. discriminate.
Qed.

Lemma flm_rows_ok (n : nat) :
  blo <= bhi ->
  let r := foldl (flm_row a b2j blo bhi) (∅, (alo, blo, 0)) (seq alo n) in
  (forall j v, r.1 !! j = Some v -> entry_ok a b alo blo bhi (alo + n) j v) /\
  within alo (alo + n) blo bhi r.2 /\ is_match a b r.2.
Proof.
  intros Hb. induction n as [|n IH].
  - cbn. split; [|split; [unfold within; cbn; lia | apply is_match_empty]].
    intros j v Hv. rewrite lookup_empty in Hv. discriminate.
  - rewrite seq_S, foldl_app. cbn [foldl].
    replace (alo + S n) with (S (alo + n)) by lia.
    destruct IH as (He & Hw & Hm). apply flm_row_ok; [lia | assumption..].
Qed.

Lemma extend_back_ok (want : bool) (bi bj bs : nat) :
  within alo ahi blo bhi (bi, bj, bs) -> is_match a b (bi, bj, bs) ->
  within alo ahi blo bhi (extend_back want a b alo blo bi bj bs) /\
  is_match a b (extend_back want a b alo blo bi bj bs) /\
  bs <= (extend_back want a b alo blo bi bj bs).2.
Proof.
  revert bj bs. induction bi as [|i' IH]; intros bj bs Hw Hm.
  - cbn. auto.
  - destruct bj as [|j']; cbn [extend_back]; [auto|].
    destruct (bool_decide (alo < S i') && bool_decide (blo < S j')
              && junk_is want (b !! j') && elt_eqb (a !! i') (b !! j')) eqn:Hc;
      [|auto].
    apply andb_prop in Hc as [Hc He]. apply andb_prop in Hc as [Hc _].
    apply andb_prop in Hc as [Ha Hb].
    apply bool_decide_eq_true_1 in Ha. apply bool_decide_eq_true_1 in Hb.
    apply elt_eqb_true in He as (u & Hau & Hbu).
    destruct (IH j' (bs + 1)) as (Hw' & Hm' & Hs').
    + unfold within in *. cbn [fst snd] in *. lia.
    + apply (is_match_cons i' j' bs u); assumption.
    + split; [exact Hw'|]. split; [exact Hm'|]. lia.
Qed.

Lemma extend_fwd_ok (want : bool) (bi bj steps bs : nat) :
  within alo ahi blo bhi (bi, bj, bs) -> is_match a b (bi, bj, bs) ->
  within alo ahi blo bhi (bi, bj, extend_fwd want a b ahi bhi bi bj steps bs) /\
  is_match a b (bi, bj, extend_fwd want a b ahi bhi bi bj steps bs) /\
  bs <= extend_fwd want a b ahi bhi bi bj steps bs.
Proof.
  revert bs. induction steps as [|steps IH]; intros bs Hw Hm; cbn [extend_fwd].
  - auto.
  - destruct (bool_decide (bi + bs < ahi) && bool_decide (bj + bs < bhi)
              && junk_is want (b !! (bj + bs))
              && elt_eqb (a !! (bi + bs)) (b !! (bj + bs))) eqn:Hc; [|auto].
    apply andb_prop in Hc as [Hc He]. apply andb_prop in Hc as [Hc _].
    apply andb_prop in Hc as [Ha Hb].
    apply bool_decide_eq_true_1 in Ha. apply bool_decide_eq_true_1 in Hb.
    apply elt_eqb_true in He as (u & Hau & Hbu).
    destruct (IH (bs + 1)) as (Hw' & Hm' & Hs').
    + unfold within in *. cbn [fst snd] in *. lia.
    + apply (is_match_snoc bi bj bs u); assumption.
    + split; [exact Hw'|]. split; [exact Hm'|]. lia.
Qed.

Lemma extend_ok (want : bool) (best : block) :
  within alo ahi blo bhi best -> is_match a b best ->
  within alo ahi blo bhi (extend want a b alo ahi blo bhi best) /\
  is_match a b (extend want a b alo ahi blo bhi best).
Proof.
  intros Hw Hm. destruct best as [[bi bj] bs]. unfold extend.
  destruct (extend_back_ok want bi bj bs Hw Hm) as (Hw1 & Hm1 & _).
  destruct (extend_back want a b alo blo bi bj bs) as [[bi' bj'] bs'].
  destruct (extend_fwd_ok want bi' bj' (ahi - (bi' + bs')) bs' Hw1 Hm1)
    as (Hw2 & Hm2 & _).
  auto.
Qed.

(** The block of [find_longest_match] is a match inside the window. *)
Lemma find_longest_match_ok :
  alo <= ahi -> blo <= bhi ->
  within alo ahi blo bhi (find_longest_match a b b2j alo ahi blo bhi) /\
  is_match a b (find_longest_match a b b2j alo ahi blo bhi).
Proof.
  intros Ha Hb. unfold find_longest_match.
  destruct (flm_rows_ok (ahi - alo) Hb) as (_ & Hw & Hm).
  replace (alo + (ahi - alo)) with ahi in Hw by lia.
  destruct (extend_ok false _ Hw Hm) as [Hw1 Hm1].
  apply extend_ok; assumption.
Qed.

End LongestMatch.

(** ** The work list *)

Section WorkList.
Context {A : Type} `{Countable A}.
Variables a b : list A.
Variable b2j : gmap A (list nat).
Hypothesis b2j_sound :
  forall x js j, b2j !! x = Some js -> j ∈ js -> b !! j = Some x.

Lemma mb_loop_empty (fuel : nat) (acc : list block) :
  mb_loop fuel a b b2j [] acc = acc.
Proof. destruct fuel; reflexivity. Qed.

Lemma queue_weight_cons (w : window) (queue : list window) :
  queue_weight (w :: queue) =
    (let '(alo, ahi, _, _) := w in 2 * (ahi - alo) + 1) + queue_weight queue.
Proof. reflexivity. Qed.

(** Fuel beyond the weight of the work list changes nothing. *)
Lemma mb_loop_enough (fuel1 fuel2 : nat) (queue : list window) (acc : list block) :
  Forall window_ok queue ->
  queue_weight queue <= fuel1 -> queue_weight queue <= fuel2 ->
  mb_loop fuel1 a b b2j queue acc = mb_loop fuel2 a b b2j queue acc.
Proof.
  revert fuel2 queue acc.
  induction fuel1 as [|fuel1 IH]; intros fuel2 queue acc Hok H1 H2.
  - destruct queue as [|[[[alo ahi] blo] bhi] queue].
    + rewrite !mb_loop_empty. reflexivity.
    + rewrite queue_weight_cons in H1. lia.
  - destruct queue as [|[[[alo ahi] blo] bhi] queue].
    + rewrite !mb_loop_empty. reflexivity.
    + rewrite queue_weight_cons in H1, H2.
      destruct fuel2 as [|fuel2]; [lia|].
      apply Forall_cons in Hok as [[Ha Hb] Hok].
      cbn [mb_loop].
      destruct (find_longest_match_ok a b b2j b2j_sound alo ahi blo bhi Ha Hb)
        as [Hw _].
      destruct (find_longest_match a b b2j alo ahi blo bhi) as [[i j] k].
      unfold within in Hw. cbn [fst snd] in Hw.
      case_decide as Hk; [apply IH; [exact Hok | lia | lia]|].
      apply IH.
      * repeat case_decide; repeat (apply Forall_cons; split);
          try exact Hok; unfold window_ok; lia.
      * repeat case_decide; rewrite ?queue_weight_cons; lia.
      * repeat case_decide; rewrite ?queue_weight_cons; lia.
Qed.

Lemma apart_sym (w1 w2 : window) : apart w1 w2 -> apart w2 w1.
Proof. unfold apart. tauto. Qed.

Lemma apart_inside (w1 w2 w : window) :
  inside w1 w2 -> apart w2 w -> apart w1 w.
Proof.
  destruct w1 as [[[alo1 ahi1] blo1] bhi1], w2 as [[[alo2 ahi2] blo2] bhi2],
    w as [[[alo ahi] blo] bhi].
  unfold inside, apart, before. lia.
Qed.

Lemma pairwise_apart_perm (l1 l2 : list window) :
  l1 ≡ₚ l2 -> pairwise_apart l1 -> pairwise_apart l2.
Proof.
  induction 1 as [|w l1 l2 Hp IH|w1 w2 l|l1 l2 l3 _ IH1 _ IH2]; cbn.
  - auto.
  - intros [Hw Hl]. split; [rewrite <- Hp; exact Hw | auto].
  - intros [Hw2 [Hw1 Hl]]. apply Forall_cons in Hw2 as [H21 Hw2].
    split; [apply Forall_cons; split; [apply apart_sym, H21 | exact Hw1]|].
    split; assumption.
  - auto.
Qed.

Lemma pairwise_apart_app_r (l1 l2 : list window) :
  pairwise_apart (l1 ++ l2) -> pairwise_apart l2.
Proof. induction l1 as [|w l1 IH]; cbn; [auto | intros [_ Hl]; auto]. Qed.

Lemma collected_step (alo ahi blo bhi : nat) (queue : list window)
    (acc : list block) :
  collected a b ((alo, ahi, blo, bhi) :: queue) acc ->
  let x := find_longest_match a b b2j alo ahi blo bhi in
  let queue1 := if decide (alo < x.1.1 /\ blo < x.1.2)
                then (alo, x.1.1, blo, x.1.2) :: queue else queue in
  let queue2 := if decide (x.1.1 + x.2 < ahi /\ x.1.2 + x.2 < bhi)
                then (x.1.1 + x.2, ahi, x.1.2 + x.2, bhi) :: queue1 else queue1 in
  collected a b queue acc /\ (x.2 <> 0 -> collected a b queue2 (acc ++ [x])).
Proof.
  intros (Hok & Hacc & Hpw) x queue1 queue2.
  apply Forall_cons in Hok as [[Ha Hb] Hok].
  cbn [app pairwise_apart] in Hpw. destruct Hpw as [Hw Hpw].
  split; [split; [|split]; assumption|].
  intros Hk.
  destruct (find_longest_match_ok a b b2j b2j_sound alo ahi blo bhi Ha Hb)
    as [Hin Hm]. fold x in Hin, Hm.
  destruct x as [[i j] k]. unfold within in Hin. cbn [fst snd] in *.
  split; [|split].
  - subst queue2 queue1. repeat case_decide; repeat (apply Forall_cons; split);
      try exact Hok; unfold window_ok; lia.
  - apply Forall_app. split; [exact Hacc|].
    apply Forall_cons. split; [|constructor]. cbn. split; [lia | exact Hm].
  - rewrite map_app. cbn [map region].
    assert (Hall : pairwise_apart
              ((alo, i, blo, j) :: (i + k, ahi, j + k, bhi) :: (i, i + k, j, j + k)
               :: queue ++ map region acc)).
    { assert (Hsub : forall w, inside w (alo, ahi, blo, bhi) ->
                Forall (apart w) (queue ++ map region acc)).
      { intros w Hsub. eapply Forall_impl; [exact Hw|].
        intros w' Hw'. exact (apart_inside _ _ _ Hsub Hw'). }
      cbn [pairwise_apart]. repeat split; try exact Hpw.
      - repeat (apply Forall_cons; split);
          [unfold apart, before; lia | unfold apart, before; lia|].
        apply Hsub. unfold inside. lia.
      - apply Forall_cons; split; [unfold apart, before; lia|].
        apply Hsub. unfold inside. lia.
      - apply Hsub. unfold inside. lia. }
    assert (Hperm : forall l : list window,
              l ⊆+ (alo, i, blo, j) :: (i + k, ahi, j + k, bhi) :: (i, i + k, j, j + k)
                   :: queue ++ map region acc ->
              pairwise_apart l).
    { intros l Hl. apply submseteq_Permutation in Hl as [rest Hl].
      apply (pairwise_apart_perm _ _ Hl) in Hall.
      revert Hall. clear. induction l as [|w l IH]; cbn; [auto|].
      intros [Hw Hl]. apply Forall_app in Hw as [Hw _]. auto. }
    apply Hperm. subst queue2 queue1.
    repeat case_decide.
    + rewrite (Permutation_swap (alo, i, blo, j)).
      cbn [app]. rewrite app_assoc.
      rewrite <- (Permutation_middle (queue ++ map region acc) [] (i, i + k, j, j + k)).
      cbn [app]. rewrite app_nil_r. reflexivity.
    + cbn [app]. rewrite app_assoc.
      rewrite <- (Permutation_middle (queue ++ map region acc) [] (i, i + k, j, j + k)).
      rewrite app_nil_r. apply submseteq_cons. reflexivity.
    + cbn [app]. rewrite app_assoc.
      rewrite <- (Permutation_middle (queue ++ map region acc) [] (i, i + k, j, j + k)).
      rewrite app_nil_r.
      apply submseteq_skip, submseteq_cons. reflexivity.
    + rewrite app_assoc.
      rewrite <- (Permutation_middle (queue ++ map region acc) [] (i, i + k, j, j + k)).
      rewrite app_nil_r.
      apply submseteq_cons, submseteq_cons. reflexivity.
Qed.

Lemma mb_loop_collected (fuel : nat) (queue : list window) (acc : list block) :
  collected a b queue acc -> collected a b [] (mb_loop fuel a b b2j queue acc).
Proof.
  revert queue acc. induction fuel as [|fuel IH]; intros queue acc Hc.
  - cbn. destruct Hc as (_ & Hacc & Hpw).
    split; [constructor|]. split; [exact Hacc|].
    exact (pairwise_apart_app_r _ _ Hpw).
  - destruct queue as [|[[[alo ahi] blo] bhi] queue]; [exact Hc|].
    cbn [mb_loop].
    destruct (collected_step alo ahi blo bhi queue acc Hc) as [H0 Hk].
    destruct (find_longest_match a b b2j alo ahi blo bhi) as [[i j] k].
    cbn [fst snd] in Hk.
    destruct (decide (k = 0)) as [Hz|Hz]; [apply IH, H0|].
    apply IH. exact (Hk Hz).
Qed.

End WorkList.

Section Blocks.
Context {A : Type} `{Countable A}.
Variables a b : list A.

(** ** Sorting the blocks *)

Lemma Forall_insert_block (P : block -> Prop) (x : block) (l : list block) :
  P x -> Forall P l -> Forall P (insert_block x l).
Proof.
  intros Hx. induction 1 as [|y l Hy Hl IH]; cbn [insert_block].
  - repeat constructor. exact Hx.
  - destruct (block_leb x y); repeat constructor; assumption.
Qed.

Lemma Forall_sort_blocks (P : block -> Prop) (l : list block) :
  Forall P l -> Forall P (sort_blocks l).
Proof.
  induction 1 as [|x l Hx Hl IH]; [constructor|].
  cbn. apply Forall_insert_block; assumption.
Qed.

Lemma follows_trans (x y z : block) :
  follows x y -> follows y z -> follows x z.
Proof.
  destruct x as [[i1 j1] k1], y as [[i2 j2] k2], z as [[i3 j3] k3].
  unfold follows, before, region. lia.
Qed.

Lemma block_leb_follows (x y : block) :
  0 < x.2 -> 0 < y.2 -> apart (region x) (region y) ->
  if block_leb x y then follows x y else follows y x.
Proof.
  destruct x as [[i1 j1] k1], y as [[i2 j2] k2].
  unfold apart, follows, before, region, block_leb. cbn [fst snd].
  intros Hx Hy Hxy.
  repeat (case_bool_decide; cbn [orb andb]); lia.
Qed.

Lemma insert_block_sorted (x : block) (l : list block) :
  0 < x.2 -> Forall (fun y => 0 < y.2) l ->
  Forall (fun y => apart (region x) (region y)) l ->
  StronglySorted follows l -> StronglySorted follows (insert_block x l).
Proof.
  intros Hx Hpos Hap Hs.
  induction l as [|y l IH]; cbn [insert_block].
  - repeat constructor.
  - apply Forall_cons in Hpos as [Hy Hpos]. apply Forall_cons in Hap as [Hxy Hap].
    apply StronglySorted_cons in Hs as [Hyl Hs].
    pose proof (block_leb_follows x y Hx Hy Hxy) as Hleb.
    destruct (block_leb x y).
    + apply StronglySorted_cons. split.
      * apply Forall_cons. split; [exact Hleb|].
        eapply Forall_impl; [exact Hyl|]. intros z Hz.
        exact (follows_trans x y z Hleb Hz).
      * apply StronglySorted_cons. split; assumption.
    + apply StronglySorted_cons. split.
      * apply Forall_insert_block; assumption.
      * apply IH; assumption.
Qed.

Lemma sort_blocks_sorted (l : list block) :
  Forall (fun y => 0 < y.2) l -> pairwise_apart (map region l) ->
  StronglySorted follows (sort_blocks l).
Proof.
  induction l as [|x l IH]; intros Hpos Hap; [constructor|].
  apply Forall_cons in Hpos as [Hx Hpos]. cbn in Hap. destruct Hap as [Hxl Hap].
  cbn. apply insert_block_sorted.
  - exact Hx.
  - apply Forall_sort_blocks, Hpos.
  - apply Forall_sort_blocks. exact (proj1 (List.Forall_map region _ l) Hxl).
  - apply IH; assumption.
Qed.

(** ** Collapsing adjacent blocks *)

Lemma is_match_app (i j k1 k2 : nat) :
  is_match a b (i, j, k1) -> is_match a b (i + k1, j + k1, k2) ->
  is_match a b (i, j, k1 + k2).
Proof.
  intros H1 H2 t Ht. cbn [fst snd] in *.
  destruct (decide (t < k1)) as [Hlt|Hge]; [apply H1; exact Hlt|].
  replace (i + t) with (i + k1 + (t - k1)) by lia.
  replace (j + t) with (j + k1 + (t - k1)) by lia.
  apply H2. cbn. lia.
Qed.

Lemma collapse_fold (l : list block) (cur : block) (na : list block) :
  StronglySorted follows (na ++ cur :: l) ->
  Forall (is_match a b) (na ++ cur :: l) ->
  Forall (fun y => 0 < y.2) (na ++ l) ->
  let r := foldl collapse_step (cur, na) l in
  StronglySorted follows (r.2 ++ [r.1]) /\
  Forall (is_match a b) (r.2 ++ [r.1]) /\
  Forall (fun y => 0 < y.2) r.2.
Proof.
  revert cur na. induction l as [|x l IH]; intros cur na Hs Hm Hp.
  - cbn. rewrite app_nil_r in Hp. auto.
  - cbn [foldl]. destruct cur as [[i1 j1] k1], x as [[i2 j2] k2].
    set (st := collapse_step _ _).
    assert (Hstep : st =
              if decide (i1 + k1 = i2 /\ j1 + k1 = j2) then ((i1, j1, k1 + k2), na)
              else ((i2, j2, k2),
                    if decide (k1 = 0) then na else na ++ [(i1, j1, k1)]))
      by reflexivity.
    rewrite Hstep. clear Hstep st.
    apply Forall_app in Hp as [Hpna Hpl].
    apply Forall_cons in Hpl as [Hk2 Hpl]. cbn [snd] in Hk2.
    apply StronglySorted_app in Hs as (Hcross & Hna & Hs).
    apply StronglySorted_cons in Hs as [Hcur Hs].
    apply Forall_cons in Hcur as [Hcx Hcur].
    apply StronglySorted_cons in Hs as [Hx Hs].
    apply Forall_app in Hm as [Hmna Hm].
    apply Forall_cons in Hm as [Hmc Hm]. apply Forall_cons in Hm as [Hmx Hm].
    case_decide as Hadj.
    + destruct Hadj as [<- <-]. apply IH.
      * apply StronglySorted_app_2; [|exact Hna|].
        -- intros y z Hy Hz. apply elem_of_cons in Hz as [->|Hz].
           ++ assert (Hyc : follows y (i1, j1, k1)).
              { apply Hcross; [exact Hy | apply elem_of_cons; left; reflexivity]. }
              destruct y as [[i j] k]. revert Hyc.
              unfold follows, before, region. lia.
           ++ apply Hcross; [exact Hy|]. do 2 (apply elem_of_cons; right). exact Hz.
        -- apply StronglySorted_cons. split; [|exact Hs].
           eapply Forall_impl; [exact Hx|]. intros [[i j] k].
           unfold follows, before, region. lia.
      * apply Forall_app. split; [exact Hmna|].
        apply Forall_cons. split; [|exact Hm].
        apply is_match_app; assumption.
      * apply Forall_app. split; assumption.
    + apply IH.
      * case_decide.
        -- apply StronglySorted_app_2; [|exact Hna|].
           ++ intros y z Hy Hz. apply Hcross; [exact Hy|].
              apply elem_of_cons. right. exact Hz.
           ++ apply StronglySorted_cons. split; assumption.
        -- rewrite <- app_assoc. cbn [app].
           apply StronglySorted_app_2; [exact Hcross | exact Hna|].
           apply StronglySorted_cons. split.
           ++ apply Forall_cons. split; assumption.
           ++ apply StronglySorted_cons. split; assumption.
      * case_decide.
        -- apply Forall_app. split; [exact Hmna|]. apply Forall_cons. split; assumption.
        -- rewrite <- app_assoc. cbn [app]. apply Forall_app. split; [exact Hmna|].
           repeat (apply Forall_cons; split); assumption.
      * case_decide.
        -- apply Forall_app. split; assumption.
        -- rewrite <- app_assoc. cbn [app]. apply Forall_app. split; [exact Hpna|].
           apply Forall_cons. split; [cbn; lia | exact Hpl].
Qed.

End Blocks.

Section Opcodes.
Context {A : Type} `{Countable A}.
Variables a b : list A.

Lemma chain_b_sound (x : A) (js : list nat) (j : nat) :
  chain_b b !! x = Some js -> j ∈ js -> b !! j = Some x.
Proof.
  intros Hjs Hj. apply chain_b_lookup in Hjs. subst js.
  apply elem_of_positions_from in Hj as [_ Hj].
  rewrite Nat.sub_0_r in Hj. exact Hj.
Qed.

(** The fuel given to the work list is enough: more of it gives the same
    blocks. *)
Lemma get_matching_blocks_fuel (extra : nat) :
  mb_loop (2 * length a + 1 + extra) a b (chain_b b) [(0, length a, 0, length b)] []
  = mb_loop (2 * length a + 1) a b (chain_b b) [(0, length a, 0, length b)] [].
Proof.
  apply (mb_loop_enough a b (chain_b b) chain_b_sound).
  - repeat constructor; cbn; lia.
  - cbn. lia.
  - cbn. lia.
Qed.

Lemma is_match_bound (x : block) :
  is_match a b x -> 0 < x.2 ->
  x.1.1 + x.2 <= length a /\ x.1.2 + x.2 <= length b.
Proof.
  intros Hm Hk. destruct (Hm (x.2 - 1)) as (u & Ha & Hb); [lia|].
  apply lookup_lt_Some in Ha. apply lookup_lt_Some in Hb. lia.
Qed.

(** The matching blocks are matches, one after the other, closed by the
    sentinel [(len(a), len(b), 0)]. *)
Lemma get_matching_blocks_chain :
  exists l,
    get_matching_blocks a b = l ++ [(length a, length b, 0)] /\
    StronglySorted follows (l ++ [(length a, length b, 0)]) /\
    Forall (is_match a b) l.
Proof.
  unfold get_matching_blocks.
  set (mb := mb_loop _ a b (chain_b b) _ []).
  assert (Hmb : collected a b [] mb).
  { apply (mb_loop_collected a b (chain_b b) chain_b_sound).
    split; [|split].
    - repeat constructor; cbn; lia.
    - constructor.
    - cbn. split; constructor. }
  destruct Hmb as (_ & Hacc & Hpw). cbn [app] in Hpw.
  assert (Hpos : Forall (fun y : block => 0 < y.2) mb).
  { eapply Forall_impl; [exact Hacc|]. intros y [Hy _]. exact Hy. }
  assert (Hmat : Forall (is_match a b) mb).
  { eapply Forall_impl; [exact Hacc|]. intros y [_ Hy]. exact Hy. }
  pose proof (sort_blocks_sorted mb Hpos Hpw) as Hsorted.
  pose proof (Forall_sort_blocks _ mb Hpos) as Hpos'.
  pose proof (Forall_sort_blocks _ mb Hmat) as Hmat'.
  destruct (collapse_fold a b (sort_blocks mb) (0, 0, 0) []) as (Hs & Hm & Hp).
  - cbn [app]. apply StronglySorted_cons. split; [|exact Hsorted].
    apply Forall_forall. intros [[i j] k] _. unfold follows, before, region. lia.
  - cbn [app]. apply Forall_cons. split; [|exact Hmat'].
    intros t Ht. cbn in Ht. lia.
  - exact Hpos'.
  - destruct (foldl collapse_step _ _) as [[[i1 j1] k1] na]. cbn [fst snd] in *.
    assert (Hlast : forall l, Forall (is_match a b) l ->
              Forall (fun y : block => 0 < y.2) l -> StronglySorted follows l ->
              StronglySorted follows (l ++ [(length a, length b, 0)])).
    { intros l Hlm Hlp Hls. apply StronglySorted_app_2; [|exact Hls|repeat constructor].
      intros y z Hy Hz. apply list_elem_of_singleton in Hz. subst z.
      rewrite Forall_forall in Hlm, Hlp.
      destruct (is_match_bound y (Hlm y Hy) (Hlp y Hy)).
      destruct y as [[i j] k]. unfold follows, before, region. cbn [fst snd] in *. lia. }
    case_decide as Hk.
    + exists na. split; [reflexivity|].
      apply Forall_app in Hm as [Hm _].
      split; [|exact Hm].
      apply Hlast; [exact Hm | exact Hp|].
      exact (StronglySorted_app_1_l _ _ _ Hs).
    + exists (na ++ [(i1, j1, k1)]). split; [reflexivity|].
      split; [|exact Hm].
      apply Hlast; [exact Hm | | exact Hs].
      apply Forall_app. split; [exact Hp|]. repeat constructor. cbn. lia.
Qed.

(** ** From the blocks to the opcodes *)

Lemma opcode_fold_prefix (l : list block) (i j : nat) (answer : list opcode) :
  exists more, (foldl opcode_step (i, j, answer) l).2 = answer ++ more.
Proof.
  revert i j answer. induction l as [|[[ai bj] size] l IH]; intros i j answer.
  - exists []. cbn. rewrite app_nil_r. reflexivity.
  - cbn [foldl]. unfold opcode_step at 2.
    match goal with
    | |- context [foldl opcode_step (?i', ?j', ?ans') l] =>
        destruct (IH i' j' ans') as [more Hmore]; rewrite Hmore
    end.
    repeat case_decide; rewrite <- ?app_assoc; eauto.
Qed.

Lemma not_equal_in_answer (l : list block) (i j : nat) (answer : list opcode)
    (c : opcode) :
  c ∈ answer -> ¬ is_equal c ->
  ¬ Forall is_equal (foldl opcode_step (i, j, answer) l).2.
Proof.
  intros Hc Hne Hall.
  destruct (opcode_fold_prefix l i j answer) as [more Hmore].
  rewrite Hmore in Hall. apply Forall_app in Hall as [Hall _].
  rewrite Forall_forall in Hall. exact (Hne (Hall c Hc)).
Qed.

Lemma opcodes_tiles (l : list block) (i j : nat) (answer : list opcode) :
  StronglySorted follows l ->
  Forall (fun x : block => i <= x.1.1 /\ j <= x.1.2) l ->
  Forall is_equal (foldl opcode_step (i, j, answer) l).2 ->
  tiles i j l.
Proof.
  revert i j answer. induction l as [|[[ai bj] size] l IH];
    intros i j answer Hs Hlo Hall; [exact I|].
  apply StronglySorted_cons in Hs as [Hx Hs].
  apply Forall_cons in Hlo as [[Hi Hj] Hlo]. cbn [fst snd] in Hi, Hj.
  cbn [foldl] in Hall. unfold opcode_step at 2 in Hall.
  assert (Hnext : Forall (fun y : block => ai + size <= y.1.1 /\ bj + size <= y.1.2) l).
  { eapply Forall_impl; [exact Hx|]. intros [[i' j'] k'].
    unfold follows, before, region. cbn [fst snd]. lia. }
  cbn [tiles fst snd].
  destruct (decide (i < ai /\ j < bj)) as [H1|H1].
  { exfalso. revert Hall.
    apply (not_equal_in_answer l _ _ _ (Replace, i, ai, j, bj)); [|discriminate].
    case_decide; rewrite ?elem_of_app, list_elem_of_singleton; auto. }
  destruct (decide (i < ai)) as [H2|H2].
  { exfalso. revert Hall.
    apply (not_equal_in_answer l _ _ _ (Delete, i, ai, j, bj)); [|discriminate].
    case_decide; rewrite ?elem_of_app, list_elem_of_singleton; auto. }
  destruct (decide (j < bj)) as [H3|H3].
  { exfalso. revert Hall.
    apply (not_equal_in_answer l _ _ _ (Insert, i, ai, j, bj)); [|discriminate].
    case_decide; rewrite ?elem_of_app, list_elem_of_singleton; auto. }
  assert (ai = i) by lia. assert (bj = j) by lia. subst ai bj.
  split; [reflexivity|]. split; [reflexivity|].
  eapply IH; [exact Hs | exact Hnext | exact Hall].
Qed.

Lemma tiles_equal (l : list block) (n : nat) :
  Forall (is_match a b) l ->
  tiles n n (l ++ [(length a, length b, 0)]) ->
  (forall t, t < n -> a !! t = b !! t) ->
  length a = length b /\ forall t, t < length a -> a !! t = b !! t.
Proof.
  revert n. induction l as [|[[i j] k] l IH]; intros n Hm Ht Hn.
  - cbn in Ht. destruct Ht as (Ha & Hb & _). subst n.
    split; [congruence | exact Hn].
  - apply Forall_cons in Hm as [Hx Hm].
    cbn [app tiles fst snd] in Ht. destruct Ht as (-> & -> & Ht).
    apply (IH (n + k) Hm Ht).
    intros t Hlt. destruct (decide (t < n)) as [Hsmall|Hbig]; [apply Hn, Hsmall|].
    destruct (Hx (t - n)) as (u & Ha & Hb); [cbn; lia|].
    cbn [fst snd] in Ha, Hb.
    replace (n + (t - n)) with t in Ha, Hb by lia. congruence.
Qed.

(** Two sequences whose opcodes are all [equal] are the same sequence. *)
Lemma get_opcodes_all_equal :
  Forall is_equal (get_opcodes a b) -> a = b.
Proof.
  unfold get_opcodes. intros Hall.
  destruct get_matching_blocks_chain as (l & Hl & Hs & Hm).
  rewrite Hl in Hall.
  assert (Ht : tiles 0 0 (l ++ [(length a, length b, 0)])).
  { apply (opcodes_tiles _ 0 0 []); [exact Hs | | exact Hall].
    apply Forall_forall. intros x _. lia. }
  destruct (tiles_equal l 0 Hm Ht) as [Hlen Heq]; [lia|].
  apply list_eq. intros t. destruct (decide (t < length a)) as [Hlt|Hge].
  - apply Heq, Hlt.
  - rewrite !lookup_ge_None_2 by lia. reflexivity.
Qed.

(** ** From the opcodes to the groups *)

Lemma fix_first_equal (n : nat) (codes : list opcode) :
  Forall is_equal (fix_first n codes) -> Forall is_equal codes.
Proof.
  destruct codes as [|[[[[t i1] i2] j1] j2] rest]; [auto|].
  destruct t; cbn; auto.
  intros Hall. apply Forall_cons in Hall as [_ Hall].
  apply Forall_cons. split; [reflexivity | exact Hall].
Qed.

Lemma fix_last_equal (n : nat) (codes : list opcode) :
  Forall is_equal (fix_last n codes) -> Forall is_equal codes.
Proof.
  induction codes as [|[[[[t i1] i2] j1] j2] rest IH]; [auto|].
  destruct rest as [|c rest].
  - destruct t; cbn; auto. intros _. repeat constructor.
  - change (fix_last n ((t, i1, i2, j1, j2) :: c :: rest))
      with ((t, i1, i2, j1, j2) :: fix_last n (c :: rest)).
    intros Hall. apply Forall_cons in Hall as [Hc Hall].
    apply Forall_cons. split; [exact Hc | apply IH, Hall].
Qed.

Lemma group_fold_clean (n : nat) (codes group : list opcode)
    (out : list (list opcode)) :
  (foldl (group_step n) (group, out) codes).2 = [] ->
  Forall is_equal (foldl (group_step n) (group, out) codes).1 ->
  out = [] /\ Forall is_equal group /\ Forall is_equal codes.
Proof.
  revert group out. induction codes as [|[[[[t i1] i2] j1] j2] codes IH];
    intros group out Hout Hgroup; [cbn in *; auto|].
  cbn [foldl] in Hout, Hgroup.
  set (st := group_step n _ _) in Hout, Hgroup.
  assert (Hst : st = if bool_decide (t = Equal) && bool_decide (n + n < i2 - i1)
                     then ([(t, i1 `max` (i2 - n), i2, j1 `max` (j2 - n), j2)],
                           out ++ [group ++ [(t, i1, i2 `min` (i1 + n), j1,
                                              j2 `min` (j1 + n))]])
                     else (group ++ [(t, i1, i2, j1, j2)], out)) by reflexivity.
  rewrite Hst in Hout, Hgroup. clear Hst st.
  destruct (bool_decide (t = Equal) && bool_decide (n + n < i2 - i1)).
  - destruct (IH _ _ Hout Hgroup) as (Hnil & _).
    apply app_eq_nil in Hnil as [_ Hnil]. discriminate.
  - destruct (IH _ _ Hout Hgroup) as (Hnil & Hg & Hcodes).
    apply Forall_app in Hg as [Hg Hc]. apply Forall_cons in Hc as [Hc _].
    split; [exact Hnil|]. split; [exact Hg|].
    apply Forall_cons. split; assumption.
Qed.

(** No group of opcodes means every opcode is [equal]. *)
Lemma get_grouped_opcodes_nil (n : nat) :
  get_grouped_opcodes n a b = [] -> Forall is_equal (get_opcodes a b).
Proof.
  unfold get_grouped_opcodes.
  set (codes := match get_opcodes a b with
                | [] => [(Equal, 0, 1, 0, 1)]
                | _ => get_opcodes a b
                end).
  assert (Hcodes : Forall is_equal codes -> Forall is_equal (get_opcodes a b)).
  { subst codes. destruct (get_opcodes a b); [constructor | auto]. }
  intros Hnil. apply Hcodes, (fix_first_equal n), (fix_last_equal n).
  pose proof (group_fold_clean n (fix_last n (fix_first n codes)) [] []) as Hfold.
  destruct (foldl (group_step n) ([], []) (fix_last n (fix_first n codes)))
    as [group out].
  cbn [fst snd] in Hfold.
  destruct group as [|[[[[t i1] i2] j1] j2] [|c group]].
  - apply Hfold; [exact Hnil | constructor].
  - destruct t;
      try (apply app_eq_nil in Hnil as [_ Hnil]; discriminate).
    apply Hfold; [exact Hnil | repeat constructor].
  - destruct t; apply app_eq_nil in Hnil as [_ Hnil]; discriminate.
Qed.

End Opcodes.

(** An empty diff means the same lines. *)
Lemma unified_diff_nil (a b : list (list N)) : unified_diff a b = [] -> a = b.
Proof.
  unfold unified_diff. intros Hd.
  apply get_opcodes_all_equal, (get_grouped_opcodes_nil a b 3).
  destruct (get_grouped_opcodes 3 a b); [reflexivity | discriminate].
Qed.

(** The lines of [splitlines(keepends=True)] make up the string. *)
Lemma splitlines_from_concat (cur s : list N) :
  concat (splitlines_from cur s) = cur ++ s.
Proof.
  remember (length s) as n eqn:Hn. revert s cur Hn.
  induction n as [n IH] using lt_wf_ind. intros s cur Hn.
  destruct s as [|c rest]; cbn [splitlines_from].
  - destruct cur; cbn; rewrite ?app_nil_r; reflexivity.
  - cbn [length] in Hn. destruct (c =? CR)%N.
    + destruct rest as [|d rest'].
      * cbn. rewrite app_nil_r. reflexivity.
      * cbn [length] in Hn. destruct (d =? LF)%N; cbn [concat].
        -- rewrite (IH (length rest') ltac:(lia) rest' [] eq_refl).
           rewrite <- app_assoc. reflexivity.
        -- rewrite (IH (length (d :: rest')) ltac:(cbn; lia) (d :: rest') [] eq_refl).
           rewrite <- app_assoc. reflexivity.
    + destruct (is_linebreak c); [cbn [concat]|].
      * rewrite (IH (length rest) ltac:(lia) rest [] eq_refl).
        rewrite <- app_assoc. reflexivity.
      * rewrite (IH (length rest) ltac:(lia) rest (cur ++ [c]) eq_refl).
        rewrite <- app_assoc. reflexivity.
Qed.

Lemma join_splitlines (s : list N) : join (splitlines s) = s.
Proof. apply (splitlines_from_concat [] s). Qed.

Lemma splitlines_inj (s1 s2 : list N) : splitlines s1 = splitlines s2 -> s1 = s2.
Proof.
  intros Heq. rewrite <- (join_splitlines s1), <- (join_splitlines s2), Heq.
  reflexivity.
Qed.

(** * Strings *)

Lemma startswith_app (p rest : list N) : startswith p (p ++ rest) = true.
Proof.
  induction p as [|x p IH]; cbn; [reflexivity|].
  rewrite N.eqb_refl, IH. reflexivity.
Qed.

Lemma str_in_app (needle pre post : list N) :
  str_in needle (pre ++ needle ++ post) = true.
Proof.
  induction pre as [|x pre IH].
  - cbn [app]. destruct (needle ++ post) eqn:E; cbn [str_in].
    + destruct needle; [reflexivity | discriminate].
    + rewrite <- E, startswith_app. reflexivity.
  - cbn [app str_in]. rewrite IH. apply orb_true_r.
Qed.

Lemma str_in_concat (needle line : list N) (lines : list (list N)) (rest : list N) :
  line ∈ lines -> line = needle ++ rest -> str_in needle (concat lines) = true.
Proof.
  intros Hin ->. apply list_elem_of_split in Hin as (l1 & l2 & ->).
  rewrite concat_app. cbn [concat]. rewrite <- !app_assoc. apply str_in_app.
Qed.

(** * The three-way merge *)

Lemma apply_one_side_flag (st : merge_state) (c : change) :
  has_conflicts (apply_one_side st c) = has_conflicts st /\
  conflicts (apply_one_side st c) = conflicts st /\
  exists new, merged_lines (apply_one_side st c) = merged_lines st ++ new.
Proof.
  destruct c as [t new]. unfold apply_one_side.
  repeat case_bool_decide; cbn; repeat split; eauto using app_nil_r.
  all: exists []; rewrite app_nil_r; reflexivity.
Qed.


Lemma merge_step_marked original_lines user_changes disk_changes st i :
  marked st -> marked (merge_step original_lines user_changes disk_changes st i).
Proof.
  intros Hst. unfold merge_step, marked in *.
  destruct (user_changes !! i) as [[ut un]|]; destruct (disk_changes !! i) as [[dt dn]|].
  - case_bool_decide.
    + case_bool_decide; cbn; intros Hc; [|auto].
      apply elem_of_app. left. auto.
    + cbn. intros _. apply elem_of_app. right. apply elem_of_cons. left. reflexivity.
  - destruct (apply_one_side_flag st (ut, un)) as (Hf & _ & new & Hm).
    rewrite Hf, Hm. intros Hc. apply elem_of_app. left. auto.
  - destruct (apply_one_side_flag st (dt, dn)) as (Hf & _ & new & Hm).
    rewrite Hf, Hm. intros Hc. apply elem_of_app. left. auto.
  - destruct (original_lines !! i); cbn; [|exact Hst].
    intros Hc. apply elem_of_app. left. auto.
Qed.

Lemma merge_lines_marked original_lines user_lines disk_lines :
  marked (merge_lines original_lines user_lines disk_lines).
Proof.
  unfold merge_lines.
  generalize (seq 0 (length original_lines)) as idx.
  intros idx. induction idx as [|i idx IH] using rev_ind.
  - cbn. intros [=].
  - rewrite foldl_app. cbn [foldl]. apply merge_step_marked, IH.
Qed.

(** When both sides made the same changes, no conflict is raised. *)
Lemma merge_step_same original_lines changes st i :
  has_conflicts st = false -> conflicts st = [] ->
  has_conflicts (merge_step original_lines changes changes st i) = false /\
  conflicts (merge_step original_lines changes changes st i) = [].
Proof.
  intros Hf Hc. unfold merge_step.
  destruct (changes !! i) as [[t new]|].
  - rewrite bool_decide_eq_true_2 by reflexivity.
    case_bool_decide; cbn; auto.
  - destruct (original_lines !! i); cbn; auto.
Qed.

Lemma merge_lines_same original_lines lines :
  has_conflicts (merge_lines original_lines lines lines) = false /\
  conflicts (merge_lines original_lines lines lines) = [].
Proof.
  unfold merge_lines.
  generalize (build_changes lines (get_opcodes original_lines lines)) as changes.
  intros changes.
  generalize (seq 0 (length original_lines)) as idx.
  intros idx. induction idx as [|i idx IH] using rev_ind.
  - cbn. auto.
  - rewrite foldl_app. cbn [foldl]. destruct IH. apply merge_step_same; assumption.
Qed.

Lemma three_way_merge_user_unchanged (original disk_version : list N) :
  (three_way_merge original original disk_version).1.2 = false /\
  (three_way_merge original original disk_version).2 = [].
Proof.
  unfold three_way_merge. rewrite unified_diff_same.
  rewrite (bool_decide_eq_true_2 ([] = [])) by reflexivity. cbn [andb].
  repeat case_bool_decide; cbn; auto.
Qed.

Lemma three_way_merge_disk_unchanged (original user_version : list N) :
  (three_way_merge original user_version original).1.2 = false /\
  (three_way_merge original user_version original).2 = [].
Proof.
  unfold three_way_merge. rewrite unified_diff_same.
  rewrite (bool_decide_eq_true_2 ([] = [])) by reflexivity. rewrite andb_true_r.
  repeat case_bool_decide; cbn; auto.
Qed.

Lemma three_way_merge_same_edit (original version : list N) :
  (three_way_merge original version version).1.2 = false /\
  (three_way_merge original version version).2 = [].
Proof.
  unfold three_way_merge.
  destruct (merge_lines_same (splitlines original) (splitlines version)) as [Hf Hc].
  repeat case_bool_decide; cbn [fst snd andb]; auto.
Qed.

Lemma three_way_merge_conflict_marked original user_version disk_version merged cs :
  three_way_merge original user_version disk_version = (merged, true, cs) ->
  str_in (py "<<<<<<< YOUR CHANGES") merged = true.
Proof.
  unfold three_way_merge.
  repeat case_bool_decide; cbn [andb]; try (intros [=]; fail).
  pose proof (merge_lines_marked (splitlines original) (splitlines user_version)
                (splitlines disk_version)) as Hm.
  destruct (merge_lines _ _ _) as [lines flag cfs]. unfold marked in Hm.
  cbn [merged_lines has_conflicts conflicts] in *.
  intros [= <- -> <-]. specialize (Hm eq_refl).
  apply list_elem_of_split in Hm as (l1 & l2 & ->). unfold join.
  rewrite concat_app.
  change (concat (start_marker :: l2))
    with ((py "<<<<<<< YOUR CHANGES" ++ py "\n") ++ concat l2).
  destruct (endswith_newline original && negb _);
    rewrite <- ?app_assoc; apply str_in_app.
Qed.

(** * The merge when one side is the baseline *)

Lemma unified_diff_nil_iff (s1 s2 : list N) :
  unified_diff (splitlines s1) (splitlines s2) = [] <-> s1 = s2.
Proof.
  split.
  - intros Hd. apply splitlines_inj, unified_diff_nil, Hd.
  - intros ->. apply unified_diff_same.
Qed.

Lemma three_way_merge_only_user (original user_version : list N) :
  three_way_merge original user_version original = (user_version, false, []).
Proof.
  unfold three_way_merge. rewrite unified_diff_same.
  rewrite (bool_decide_eq_true_2 ([] = [])) by reflexivity.
  rewrite andb_true_r.
  case_bool_decide as Hu; [|reflexivity].
  apply unified_diff_nil_iff in Hu. subst user_version. reflexivity.
Qed.

Lemma three_way_merge_only_disk (original disk_version : list N) :
  three_way_merge original original disk_version = (disk_version, false, []).
Proof.
  unfold three_way_merge. rewrite unified_diff_same.
  rewrite (bool_decide_eq_true_2 ([] = [])) by reflexivity.
  cbn [andb].
  case_bool_decide as Hd; [|reflexivity].
  apply unified_diff_nil_iff in Hd. subst disk_version. reflexivity.
Qed.

(** * The write path *)

Section WritePathFacts.
Variable resolve : list N -> list N.
Variable joinpath : list N -> list N -> list N.
Variable relative_to : list N -> list N -> option (list N).

Abbreviation write_file := (FileRoutes.write_file resolve joinpath relative_to).


Lemma write_file_run (fd : file_data) (s : storage) (stored r0 rel : list N) :
  let project_path := resolve (projectPath fd) in
  let file_path := joinpath project_path (filePath fd) in
  let disk_content := universal_newlines stored in
  let read_log := io_log s ++ [IoRead file_path] in
  files s !! file_path = Some (File (Some stored)) ->
  relative_to (resolve file_path) (resolve project_path) = Some r0 ->
  relative_to file_path project_path = Some rel ->
  write_file fd s =
    match originalContent fd with
    | None => written s file_path rel (content fd) false read_log
    | Some original_content =>
        if bool_decide (disk_content = original_content)
        then written s file_path rel (content fd) false read_log
        else
          let merge_log :=
            read_log ++ [IoMerge original_content (content fd) disk_content] in
          let m := simple_merge original_content (content fd) disk_content in
          if str_in conflict_marker m.1
          then (Ret (mkResponse true rel true true (Some m.1) (Some disk_content)),
                mkStorage (files s) merge_log)
          else written s file_path rel m.1 m.2 merge_log
    end.
Proof.
  intros project_path file_path disk_content read_log Hfile Hinside Hrel.
  unfold FileRoutes.write_file. fold project_path. fold file_path.
  unfold path_exists, path_is_file, relative_to_or_raise.
  rewrite Hinside, Hrel.
  unfold read_text, write_text, log_io, modify.
  unfold try_except, bind, get, ret, raise.
  cbn [files io_log]. rewrite Hfile.
  rewrite bool_decide_eq_true_2 by eauto.
  repeat (progress (cbv beta iota; cbn [negb files io_log fst snd]; rewrite ?Hfile)).
  fold disk_content.
  destruct (originalContent fd) as [original_content|]; [|reflexivity].
  case_bool_decide; [reflexivity|].
  repeat (progress (cbv beta iota; cbn [negb files io_log fst snd])).
  destruct (simple_merge original_content (content fd) disk_content) as [merged was].
  cbn [fst snd]. destruct (str_in conflict_marker merged); reflexivity.
Qed.

End WritePathFacts.

Section WritePathOutcomes.
Variable resolve : list N -> list N.
Variable joinpath : list N -> list N -> list N.
Variable relative_to : list N -> list N -> option (list N).

Abbreviation write_file := (FileRoutes.write_file resolve joinpath relative_to).

(** Every response of [write_file] is either a conflict response, with the
    stored files untouched, or the response to a write. *)
Lemma write_file_responses (fd : file_data) (s s' : storage) (r : response) :
  write_file fd s = (Ret r, s') ->
  (hasConflicts r = true /\ merged r = true /\ is_Some (diskContent r) /\
   is_Some (resp_content r) /\ files s' = files s) \/
  (hasConflicts r = false /\ diskContent r = None /\
   exists text,
     files s' = <[joinpath (resolve (projectPath fd)) (filePath fd) := File (Some text)]>
                  (files s)).
Proof.
  unfold FileRoutes.write_file, path_exists, path_is_file, relative_to_or_raise.
  unfold read_text, write_text, log_io, modify.
  unfold try_except, bind, get, ret, raise.
  set (file_path := joinpath (resolve (projectPath fd)) (filePath fd)).
  destruct (files s !! file_path) as [[|[stored|]]|] eqn:Hfile;
    cbn [files io_log];
    rewrite ?Hfile;
    try (rewrite bool_decide_eq_true_2 by eauto);
    try (rewrite bool_decide_eq_false_2 by (intros [? ?]; discriminate));
    repeat (progress (cbv beta iota; cbn [negb files io_log fst snd]; rewrite ?Hfile));
    try discriminate.
  - destruct (relative_to (resolve file_path) _); cbv beta iota; [|discriminate].
    repeat (progress (cbv beta iota; cbn [negb files io_log fst snd]; rewrite ?Hfile)).
    destruct (relative_to file_path _) as [rel|].
    + destruct (originalContent fd) as [original_content|].
      * case_bool_decide;
          repeat (progress (cbv beta iota; cbn [negb files io_log fst snd])).
        -- intros [= <- <-]. right. cbn. eauto.
        -- destruct (simple_merge _ _ _) as [merged_content was_merged].
           destruct (str_in conflict_marker merged_content);
             intros [= <- <-]; [left | right]; cbn; eauto 10.
      * intros [= <- <-]. right. cbn. eauto.
    + destruct (originalContent fd) as [original_content|].
      * case_bool_decide;
          repeat (progress (cbv beta iota; cbn [negb files io_log fst snd]));
          [discriminate|].
        destruct (simple_merge _ _ _) as [merged_content was_merged].
        destruct (str_in conflict_marker merged_content); discriminate.
      * discriminate.
  - destruct (relative_to (resolve file_path) _); cbv beta iota; [|discriminate].
    repeat (progress (cbv beta iota; cbn [negb files io_log fst snd]; rewrite ?Hfile)).
    discriminate.
Qed.

End WritePathOutcomes.

(** * The merge: fast paths and examples *)

(** C5: the fast paths of the merge. [simple_merge B B B] is [B] and
    [simple_merge B L B] is [L], both with the flag unset; for [R] other
    than [B], [simple_merge B B R] is [R], with the flag set: the second
    component tells that the stored content was changed by others, it is
    not a conflict flag. No conflict is found on any of the three: the merge
    engine [three_way_merge] returns the same text as [simple_merge],
    reports no conflict and lists no conflict region. *)
Theorem simple_merge_fast_paths (B L R : list N) :
  simple_merge B B B = (B, false) /\
  simple_merge B L B = (L, false) /\
  (R <> B -> simple_merge B B R = (R, true)) /\
  three_way_merge B B B = (B, false, []) /\
  three_way_merge B L B = (L, false, []) /\
  three_way_merge B B R = (R, false, []).
Proof.
  unfold simple_merge.
  rewrite (bool_decide_eq_true_2 (B = B)) by reflexivity.
  split; [reflexivity|]. split; [reflexivity|].
  split.
  { intros HR. rewrite (bool_decide_eq_false_2 (R = B)) by exact HR. reflexivity. }
  split; [apply three_way_merge_only_user|].
  split; [apply three_way_merge_only_user | apply three_way_merge_only_disk].
Qed.

Lemma simple_merge_fast_paths_witness :
  simple_merge (py "x=1\n") (py "x=1\n") (py "x=3\n") = (py "x=3\n", true).
Proof.
  destruct (simple_merge_fast_paths (py "x=1\n") (py "x=2\n") (py "x=3\n"))
    as (_ & _ & H & _).
  apply H. vm_compute. discriminate.
Defined.

(** C6: the divergent edit of line 2. On baseline [a b c], local [a LOCAL c]
    and remote [a REMOTE c], [three_way_merge] reports a conflict at line 2;
    the merged text is line [a], the start marker, [LOCAL], the separator,
    [REMOTE], the end marker, and line [c]. *)
Theorem three_way_merge_divergent_edit :
  three_way_merge (py "a\nb\nc\n") (py "a\nLOCAL\nc\n") (py "a\nREMOTE\nc\n")
  = (py "a\n" ++ start_marker ++ py "LOCAL\n" ++ separator_marker ++
     py "REMOTE\n" ++ end_marker ++ py "c\n",
     true, [py "Conflict at line 2"]).
Proof. vm_compute. reflexivity. Qed.

(** C7: what [three_way_merge] does with an insertion made by one side. On
    baseline [a b c], where the user inserts [X] before [b] and the stored
    version replaces [c] by [C], the merged text is [a X C]: the baseline
    line [b], which neither side touched, is lost, and no conflict is
    reported. On baseline [a b], where the user appends [U] and the stored
    version replaces [a] by [D], the merged text is [D b]: the line the user
    appended is lost. *)
Theorem three_way_merge_insert_loses_lines :
  get_opcodes (splitlines (py "a\nb\nc\n")) (splitlines (py "a\nX\nb\nc\n"))
  = [(Equal, 0, 1, 0, 1); (Insert, 1, 1, 1, 2); (Equal, 1, 3, 2, 4)] /\
  get_opcodes (splitlines (py "a\nb\nc\n")) (splitlines (py "a\nb\nC\n"))
  = [(Equal, 0, 2, 0, 2); (Replace, 2, 3, 2, 3)] /\
  three_way_merge (py "a\nb\nc\n") (py "a\nX\nb\nc\n") (py "a\nb\nC\n")
  = (py "a\nX\nC\n", false, []) /\
  get_opcodes (splitlines (py "a\nb\n")) (splitlines (py "a\nb\nU\n"))
  = [(Equal, 0, 2, 0, 2); (Insert, 2, 2, 2, 3)] /\
  three_way_merge (py "a\nb\n") (py "a\nb\nU\n") (py "D\nb\n")
  = (py "D\nb\n", false, []).
Proof. vm_compute. repeat split. Qed.

(** * The responses of the write path *)

Section WritePath.
Variable resolve : list N -> list N.
Variable joinpath : list N -> list N -> list N.
Variable relative_to : list N -> list N -> option (list N).

Abbreviation write_file := (FileRoutes.write_file resolve joinpath relative_to).

(** C3: a conflict is not persisted. When the file holds text that differs
    from the baseline of the request and [three_way_merge] of baseline,
    client content and stored content reports a conflict, [write_file]
    answers with [merged] and [hasConflicts] set, the merged text (which
    holds the start marker) and the stored content as [diskContent]; the
    files are left as they were, the file being read and merged but not
    written. And for every request and every state: a response carries
    [diskContent] exactly when [hasConflicts] is set, and then the files
    are unchanged. *)
Theorem write_file_conflict_not_persisted
    (fd : file_data) (s : storage) (stored r0 rel baseline merged_text : list N)
    (regions : list (list N)) :
  let project_path := resolve (projectPath fd) in
  let file_path := joinpath project_path (filePath fd) in
  let disk_content := universal_newlines stored in
  files s !! file_path = Some (File (Some stored)) ->
  relative_to (resolve file_path) (resolve project_path) = Some r0 ->
  relative_to file_path project_path = Some rel ->
  originalContent fd = Some baseline ->
  disk_content <> baseline ->
  three_way_merge baseline (content fd) disk_content = (merged_text, true, regions) ->
  write_file fd s
  = (Ret (mkResponse true rel true true (Some merged_text) (Some disk_content)),
     mkStorage (files s)
       (io_log s ++ [IoRead file_path; IoMerge baseline (content fd) disk_content])) /\
  str_in conflict_marker merged_text = true /\
  (forall fd' s0 r s',
     write_file fd' s0 = (Ret r, s') ->
     (is_Some (diskContent r) <-> hasConflicts r = true) /\
     (hasConflicts r = true -> files s' = files s0)).
Proof.
  intros project_path file_path disk_content Hfile Hinside Hrel Hbase Hdiff Hmerge.
  assert (Hmark : str_in conflict_marker merged_text = true).
  { exact (three_way_merge_conflict_marked _ _ _ _ _ Hmerge). }
  assert (Hsimple : simple_merge baseline (content fd) disk_content = (merged_text, true)).
  { unfold simple_merge.
    rewrite (bool_decide_eq_false_2 (disk_content = baseline)) by exact Hdiff.
    case_bool_decide as Hu.
    { destruct (three_way_merge_user_unchanged baseline disk_content) as [Hf _].
      rewrite Hu in Hmerge. rewrite Hmerge in Hf. discriminate. }
    case_bool_decide as Hd.
    { destruct (three_way_merge_same_edit baseline disk_content) as [Hf _].
      rewrite Hd in Hmerge. rewrite Hmerge in Hf. discriminate. }
    rewrite Hmerge. reflexivity. }
  split; [|split; [exact Hmark|]].
  - rewrite (write_file_run resolve joinpath relative_to fd s stored r0 rel
               Hfile Hinside Hrel).
    fold project_path file_path disk_content. rewrite Hbase.
    rewrite (bool_decide_eq_false_2 (disk_content = baseline)) by exact Hdiff.
    cbv zeta. rewrite Hsimple. cbn [fst snd]. rewrite Hmark.
    rewrite <- app_assoc. reflexivity.
  - intros fd' s0 r s' Hrun.
    destruct (write_file_responses resolve joinpath relative_to fd' s0 s' r Hrun)
      as [(Hc & _ & Hd & _ & Hs) | (Hc & Hd & _)].
    + split; [split; auto | auto].
    + rewrite Hc, Hd. split; [split; [intros [? [=]] | discriminate] | discriminate].
Qed.



End WritePath.

Lemma write_file_conflict_not_persisted_witness :
  FileRoutes.write_file demo_resolve demo_joinpath demo_relative_to
    (demo_file_data (Some (py "x=1\n")) (py "x=2\n")) (demo_storage (py "x=3\n"))
  = (Ret (mkResponse true (py "models/orders.sql") true true
            (Some (py "<<<<<<< YOUR CHANGES\nx=2\n=======\nx=3\n>>>>>>> DISK VERSION\n"))
            (Some (py "x=3\n"))),
     mkStorage (files (demo_storage (py "x=3\n")))
       [IoRead (py "/repo/models/orders.sql");
        IoMerge (py "x=1\n") (py "x=2\n") (py "x=3\n")]).
Proof.
  destruct (write_file_conflict_not_persisted demo_resolve demo_joinpath
              demo_relative_to
              (demo_file_data (Some (py "x=1\n")) (py "x=2\n"))
              (demo_storage (py "x=3\n")) (py "x=3\n")
              (py "models/orders.sql") (py "models/orders.sql") (py "x=1\n")
              (py "<<<<<<< YOUR CHANGES\nx=2\n=======\nx=3\n>>>>>>> DISK VERSION\n")
              [py "Conflict at line 1"]) as (H & _).
  - vm_compute. reflexivity.
  - vm_compute. reflexivity.
  - vm_compute. reflexivity.
  - reflexivity.
  - vm_compute. discriminate.
  - vm_compute. reflexivity.
  - exact H.
Defined.



(** * Input validation *)

Import InputValidation.

(** ** [str.strip] *)

Lemma lstrip_suffix (s : list N) :
  exists pre, s = pre ++ lstrip s /\ Forall (fun c => isspace c = true) pre.
Proof.
  induction s as [|c s IH]; cbn [lstrip].
  - exists []. split; [reflexivity | constructor].
  - destruct (isspace c) eqn:Hc.
    + destruct IH as (pre & Hs & Hpre). exists (c :: pre).
      split; [cbn; congruence | constructor; assumption].
    + exists []. split; [reflexivity | constructor].
Qed.

Lemma lstrip_head (s : list N) (c : N) :
  head (lstrip s) = Some c -> isspace c = false.
Proof.
  induction s as [|d s IH]; cbn [lstrip]; [discriminate|].
  destruct (isspace d) eqn:Hd; [exact IH|].
  cbn. intros [= <-]. exact Hd.
Qed.

Lemma lstrip_id (s : list N) :
  match head s with Some c => isspace c = false | None => True end ->
  lstrip s = s.
Proof. destruct s as [|c s]; cbn; [reflexivity|]. intros ->. reflexivity. Qed.

Lemma last_rev (s : list N) : last (rev s) = head s.
Proof. destruct s as [|c s]; [reflexivity|]. cbn [rev]. apply last_snoc. Qed.

Lemma head_rev (s : list N) : head (rev s) = last s.
Proof. rewrite <- (rev_involutive s) at 2. rewrite last_rev. reflexivity. Qed.

Lemma rstrip_prefix (s : list N) :
  exists post, s = rstrip s ++ post /\ Forall (fun c => isspace c = true) post.
Proof.
  unfold rstrip. destruct (lstrip_suffix (rev s)) as (pre & Hs & Hpre).
  exists (rev pre). split.
  - rewrite <- rev_app_distr, <- Hs, rev_involutive. reflexivity.
  - apply Forall_forall. intros c Hc. rewrite Forall_forall in Hpre.
    apply Hpre. apply list_elem_of_In, in_rev, list_elem_of_In. exact Hc.
Qed.

Lemma rstrip_last (s : list N) (c : N) :
  last (rstrip s) = Some c -> isspace c = false.
Proof. unfold rstrip. rewrite last_rev. apply lstrip_head. Qed.

Lemma rstrip_id (s : list N) :
  match last s with Some c => isspace c = false | None => True end ->
  rstrip s = s.
Proof.
  intros Hl. unfold rstrip. rewrite lstrip_id; [apply rev_involutive|].
  rewrite head_rev. exact Hl.
Qed.

Lemma rstrip_head (s : list N) (c : N) :
  head (rstrip s) = Some c -> head s = Some c.
Proof.
  destruct (rstrip_prefix s) as (post & Hs & _). intros Hh.
  rewrite Hs. destruct (rstrip s); [discriminate | exact Hh].
Qed.

Lemma strip_stripped (s : list N) : stripped (strip s) = true.
Proof.
  unfold stripped, strip. apply andb_true_intro. split.
  - destruct (head (rstrip (lstrip s))) as [c|] eqn:Hh; [|reflexivity].
    apply rstrip_head, lstrip_head in Hh. rewrite Hh. reflexivity.
  - destruct (last (rstrip (lstrip s))) as [c|] eqn:Hl; [|reflexivity].
    apply rstrip_last in Hl. rewrite Hl. reflexivity.
Qed.

Lemma stripped_strip (s : list N) : stripped s = true -> strip s = s.
Proof.
  unfold stripped, strip. intros Hs. apply andb_prop in Hs as [Hh Hl].
  rewrite lstrip_id.
  - apply rstrip_id. destruct (last s); [|exact I].
    apply negb_true_iff in Hl. exact Hl.
  - destruct (head s); [|exact I]. apply negb_true_iff in Hh. exact Hh.
Qed.

Lemma strip_idempotent (s : list N) : strip (strip s) = strip s.
Proof. apply stripped_strip, strip_stripped. Qed.

Lemma stripped_last_not_LF (s : list N) :
  stripped s = true -> last s <> Some LF.
Proof.
  unfold stripped. intros Hs Hl. apply andb_prop in Hs as [_ Hs].
  rewrite Hl in Hs. discriminate.
Qed.

(** ** The patterns *)

Lemma class_star_end_spec (cls : N -> bool) (s : list N) :
  class_star_end cls s = true <->
  forallb cls s = true \/ exists body, s = body ++ [LF] /\ forallb cls body = true.
Proof.
  induction s as [|c s IH].
  - cbn. split; [left; reflexivity | reflexivity].
  - cbn [class_star_end forallb]. rewrite orb_true_iff, andb_true_iff, IH. split.
    + intros [He | [Hc [Hs | (body & -> & Hb)]]].
      * destruct s as [|d s]; [|discriminate]. cbn in He.
        apply N.eqb_eq in He. subst c. right. exists []. split; reflexivity.
      * left. rewrite Hc, Hs. reflexivity.
      * right. exists (c :: body). split; [reflexivity|]. cbn. rewrite Hc, Hb. reflexivity.
    + intros [Hall | (body & Hs & Hb)].
      * apply andb_prop in Hall as [Hc Hs]. right. split; [exact Hc | left; exact Hs].
      * destruct body as [|d body].
        -- cbn in Hs. injection Hs as -> ->. left. reflexivity.
        -- cbn in Hs. injection Hs as -> ->. cbn in Hb.
           apply andb_prop in Hb as [Hc Hb]. right. split; [exact Hc|].
           right. exists body. split; [reflexivity | exact Hb].
Qed.

(** On a string that does not end with a line feed, or for a class that
    holds the line feed, [^[cls]+$] asks for a character or more, all
    of the class. *)
Lemma match_class_plus_spec (cls : N -> bool) (s : list N) :
  last s <> Some LF \/ cls LF = true ->
  match_class_plus cls s = truthy s && forallb cls s.
Proof.
  intros Hend. destruct s as [|c s]; [reflexivity|].
  cbn [match_class_plus truthy forallb andb].
  destruct (cls c); [|reflexivity]. cbn [andb].
  apply eq_true_iff_eq. rewrite class_star_end_spec. split; [|auto].
  intros [Hs | (body & -> & Hb)]; [exact Hs|].
  destruct Hend as [Hl | HLF].
  - exfalso. apply Hl. rewrite app_comm_cons. apply last_snoc.
  - rewrite forallb_app. cbn. rewrite Hb, HLF. reflexivity.
Qed.

Lemma str_in_single (d : N) (s : list N) : str_in [d] s = bool_decide (d ∈ s).
Proof.
  apply eq_true_iff_eq. rewrite bool_decide_eq_true.
  induction s as [|c s IH]; cbn [str_in startswith].
  - split; [discriminate | intros Hd; apply elem_of_nil in Hd; contradiction].
  - rewrite orb_true_iff, andb_true_iff, IH, elem_of_cons, N.eqb_eq. tauto.
Qed.

Lemma any_in_dangerous (s : list N) :
  any_in dangerous_chars s = true <-> exists d, d ∈ shell_metacharacters /\ d ∈ s.
Proof.
  change dangerous_chars
    with [[59]; [124]; [38]; [96]; [36]; [40]; [41]; [123]; [125]; [91]; [93];
          [60]; [62]; [33]; [92]; [10]; [13]]%N.
  cbn [any_in]. rewrite !str_in_single.
  split.
  - repeat case_bool_decide; try discriminate; intros _;
      match goal with H : ?d ∈ s |- _ =>
        exists d; split; [|exact H] end;
      refine (bool_decide_unpack _ _); vm_compute; exact I.
  - intros (d & Hd & Hs).
    assert (Hcases : d ∈ [59; 124; 38; 96; 36; 40; 41; 123; 125; 91; 93; 60; 62; 33;
                           92; 10; 13]%N) by exact Hd.
    repeat (apply elem_of_cons in Hcases as [->|Hcases];
            [repeat case_bool_decide; try reflexivity; contradiction|]).
    apply elem_of_nil in Hcases. contradiction.
Qed.

Lemma selector_char_safe (d : N) :
  d ∈ shell_metacharacters -> selector_char d = false.
Proof.
  intros Hd.
  assert (Hcases : d ∈ [59; 124; 38; 96; 36; 40; 41; 123; 125; 91; 93; 60; 62; 33;
                         92; 10; 13]%N) by exact Hd.
  repeat (apply elem_of_cons in Hcases as [->|Hcases]; [vm_compute; reflexivity|]).
  apply elem_of_nil in Hcases. contradiction.
Qed.

Lemma selector_chars_spec (s : list N) :
  forallb dbt_selector_class s = true /\ any_in dangerous_chars s = false <->
  forallb selector_char s = true.
Proof.
  rewrite !forallb_forall. split.
  - intros [Hcls Hdang] c Hc. unfold selector_char. rewrite (Hcls c Hc). cbn [andb].
    apply list_elem_of_In in Hc.
    assert (Hno : forall d, d ∈ shell_metacharacters -> d <> c).
    { intros d Hd ->. apply not_true_iff_false in Hdang. apply Hdang.
      apply any_in_dangerous. eauto. }
    apply andb_true_intro. split; apply negb_true_iff, N.eqb_neq; intros ->.
    + apply (Hno LF); [|reflexivity]. refine (bool_decide_unpack _ _); vm_compute; exact I.
    + apply (Hno CR); [|reflexivity]. refine (bool_decide_unpack _ _); vm_compute; exact I.
  - intros Hall. split.
    + intros c Hc. specialize (Hall c Hc). unfold selector_char in Hall.
      apply andb_prop in Hall as [Hall _]. apply andb_prop in Hall as [Hall _].
      exact Hall.
    + apply not_true_iff_false. intros Hany.
      apply any_in_dangerous in Hany as (d & Hd & Hs).
      apply list_elem_of_In in Hs. specialize (Hall d Hs).
      rewrite (selector_char_safe d Hd) in Hall. discriminate.
Qed.

Lemma truthy_false (s : list N) : truthy s = false <-> s = [].
Proof. destruct s; cbn; split; congruence. Qed.

(** ** The validators *)

Lemma validate_dbt_selector_ret (selector field_name r : list N) :
  validate_dbt_selector selector field_name = Ret r <->
  r = strip selector /\ length r <= 1000 /\ forallb selector_char r = true.
Proof.
  unfold validate_dbt_selector, bad_request.
  destruct (truthy selector) eqn:Hs; cbn [negb].
  2:{ apply truthy_false in Hs. subst selector. cbn.
      split; [intros [= <-]; repeat split; cbn; lia | intros (-> & _); reflexivity]. }
  destruct (truthy (strip selector)) eqn:Hst; cbn [negb].
  2:{ apply truthy_false in Hst. rewrite Hst.
      split; [intros [= <-]; repeat split; cbn; lia | intros (-> & _); reflexivity]. }
  unfold DBT_SELECTOR_PATTERN.
  rewrite (match_class_plus_spec dbt_selector_class) by (right; reflexivity).
  rewrite Hst. cbn [andb].
  pose proof (selector_chars_spec (strip selector)) as Hspec.
  destruct (1000 <? length (strip selector)) eqn:Hlen.
  { apply Nat.ltb_lt in Hlen. split; [discriminate | intros (-> & Hle & _); lia]. }
  apply Nat.ltb_ge in Hlen.
  destruct (forallb dbt_selector_class (strip selector)) eqn:Hcls; cbn [negb].
  2:{ split; [discriminate|]. intros (-> & _ & Hall).
      apply Hspec in Hall as [Hall _]. discriminate. }
  destruct (any_in dangerous_chars (strip selector)) eqn:Hdang.
  { split; [discriminate|]. intros (-> & _ & Hall).
    apply Hspec in Hall as [_ Hall]. discriminate. }
  split.
  - intros [= <-]. split; [reflexivity|]. split; [exact Hlen|].
    apply Hspec. split; reflexivity.
  - intros (-> & _). reflexivity.
Qed.

Lemma validate_dbt_selector_raise (selector field_name : list N) (e : exn) :
  validate_dbt_selector selector field_name = Raise e ->
  exists detail, e = HTTPException 400 detail.
Proof.
  unfold validate_dbt_selector, bad_request.
  repeat match goal with |- context [if ?b then _ else _] => destruct b end;
    intros [= <-]; eauto.
Qed.

(** X1: [validate_dbt_selector] returns exactly the stripped selector,
    and does so exactly when the stripped selector has at most 1000
    characters, each a letter, a digit, one of _ . : + - * / , @ or a white
    space other than line feed and carriage return; an empty or blank
    selector gives the empty string. Every other selector is refused with
    status 400. *)
Theorem validate_dbt_selector_accepts (selector field_name r : list N) :
  (validate_dbt_selector selector field_name = Ret r <->
   r = strip selector /\ length r <= 1000 /\ forallb selector_char r = true) /\
  (forall e, validate_dbt_selector selector field_name = Raise e ->
             exists detail, e = HTTPException 400 detail).
Proof.
  split; [apply validate_dbt_selector_ret|].
  intros e. apply validate_dbt_selector_raise.
Qed.

Lemma selector_chars_no_metacharacter (r : list N) :
  forallb selector_char r = true ->
  forall d, d ∈ shell_metacharacters -> d ∉ r.
Proof.
  intros Hall d Hd Hin. rewrite forallb_forall in Hall.
  apply list_elem_of_In in Hin. specialize (Hall d Hin).
  rewrite (selector_char_safe d Hd) in Hall. discriminate.
Qed.

(** X2: a selector that [validate_dbt_selector] returns has no
    white space at either end and none of the characters
    ; | & ` $ ( ) { } [ ] < > ! \ , line feed and carriage return, and
    validating it again, under any field name, returns it unchanged. *)
Theorem validate_dbt_selector_safe (selector field_name r : list N) :
  validate_dbt_selector selector field_name = Ret r ->
  stripped r = true /\
  (forall d, d ∈ shell_metacharacters -> d ∉ r) /\
  (forall field_name', validate_dbt_selector r field_name' = Ret r).
Proof.
  intros Hv. apply validate_dbt_selector_ret in Hv as (-> & Hlen & Hall).
  split; [apply strip_stripped|]. split.
  - exact (selector_chars_no_metacharacter _ Hall).
  - intros field_name'. apply validate_dbt_selector_ret.
    rewrite strip_idempotent. auto.
Qed.

Lemma validate_dbt_selector_safe_witness :
  validate_dbt_selector (py "+orders") (py "model") = Ret (py "+orders").
Proof.
  destruct (validate_dbt_selector_safe (py "  +orders ") (py "selector") (py "+orders"))
    as (_ & _ & H).
  - vm_compute. reflexivity.
  - apply H.
Defined.

Lemma validate_dbt_target_ret (target r : list N) :
  validate_dbt_target target = Ret r <->
  r = strip target /\ length r <= 100 /\ forallb dbt_target_class r = true.
Proof.
  unfold validate_dbt_target, bad_request.
  destruct (truthy target) eqn:Hs; cbn [negb].
  2:{ apply truthy_false in Hs. subst target. cbn.
      split; [intros [= <-]; repeat split; cbn; lia | intros (-> & _); reflexivity]. }
  destruct (truthy (strip target)) eqn:Hst; cbn [negb].
  2:{ apply truthy_false in Hst. rewrite Hst.
      split; [intros [= <-]; repeat split; cbn; lia | intros (-> & _); reflexivity]. }
  rewrite (match_class_plus_spec dbt_target_class)
    by (left; apply stripped_last_not_LF, strip_stripped).
  rewrite Hst. cbn [andb].
  destruct (forallb dbt_target_class (strip target)) eqn:Hcls; cbn [negb].
  2:{ split; [discriminate|]. intros (-> & _ & Hall). congruence. }
  destruct (100 <? length (strip target)) eqn:Hlen.
  { apply Nat.ltb_lt in Hlen. split; [discriminate | intros (-> & Hle & _); lia]. }
  apply Nat.ltb_ge in Hlen.
  split.
  - intros [= <-]. auto.
  - intros (-> & _). reflexivity.
Qed.

(** X3: [validate_dbt_target] returns exactly the stripped target, and
    does so exactly when the stripped target has at most 100 characters, all
    of them letters, digits, underscore or hyphen (an empty or blank target
    gives the empty string). Every other target is refused with status
    400. *)
Theorem validate_dbt_target_accepts (target r : list N) :
  (validate_dbt_target target = Ret r <->
   r = strip target /\ length r <= 100 /\ forallb dbt_target_class r = true) /\
  (forall e, validate_dbt_target target = Raise e ->
             exists detail, e = HTTPException 400 detail).
Proof.
  split; [apply validate_dbt_target_ret|].
  unfold validate_dbt_target, bad_request. intros e.
  repeat match goal with |- context [if ?b then _ else _] => destruct b end;
    intros [= <-]; eauto.
Qed.

(** ** Path traversal *)

Lemma split_from_head (sep : N) (cur s : list N) :
  exists more rest, split_from sep cur s = (cur ++ more) :: rest.
Proof.
  revert cur. induction s as [|c s IH]; intros cur; cbn [split_from].
  - exists [], []. rewrite app_nil_r. reflexivity.
  - destruct (c =? sep)%N.
    + exists [], (split_from sep [] s). rewrite app_nil_r. reflexivity.
    + destruct (IH (cur ++ [c])) as (more & rest & ->).
      exists (c :: more), rest. rewrite <- app_assoc. reflexivity.
Qed.

Lemma last_cons_cons (c : N) (s : list N) :
  last (c :: s) <> Some LF -> last s <> Some LF.
Proof. destruct s as [|d s]; [discriminate | exact id]. Qed.

(** [\.\.(/|$)] matches at the head of a string exactly when its first
    component is [..]. *)
Lemma dotdot_end_spec (s : list N) :
  last s <> Some LF ->
  dotdot_end s = true <-> head (str_split (ord "/") s) = Some (py "..").
Proof.
  intros Hl. unfold str_split, dotdot_end.
  change (py "..") with [46; 46]%N. change (ord "/") with 47%N.
  change (ord ".") with 46%N.
  destruct s as [|c1 [|c2 rest]].
  - cbn. split; discriminate.
  - cbn. destruct (c1 =? 47)%N; cbn; split; discriminate.
  - cbn [split_from].
    destruct (c1 =? 47)%N eqn:H1.
    { apply N.eqb_eq in H1. subst c1. cbn. split; discriminate. }
    cbn [app]. destruct (c2 =? 47)%N eqn:H2.
    { apply N.eqb_eq in H2. subst c2. cbn [head].
      rewrite andb_false_r. cbn. split; discriminate. }
    destruct rest as [|c3 r3].
    + cbn. rewrite andb_true_r, andb_true_iff, !N.eqb_eq.
      split; [intros [-> ->]; reflexivity | intros [= -> ->]; auto].
    + cbn [split_from app at_end].
      destruct (c3 =? 47)%N eqn:H3.
      * cbn. rewrite andb_true_r, andb_true_iff, !N.eqb_eq.
        split; [intros [-> ->]; reflexivity | intros [= -> ->]; auto].
      * destruct (split_from_head 47 [c1; c2; c3] r3) as (more & tl & ->).
        cbn [orb head]. split.
        -- intros Hm. apply andb_prop in Hm as [_ Hm].
           destruct r3; [|discriminate]. apply N.eqb_eq in Hm. subst c3.
           exfalso. apply Hl. reflexivity.
        -- intros [=].
Qed.

Lemma traversal_from_true (s : list N) :
  traversal_from true s = dotdot_end s || traversal_from false s.
Proof. destruct s; reflexivity. Qed.

Lemma elem_of_split_head (x : list N) (l : list (list N)) :
  x ∈ l <-> head l = Some x \/ x ∈ tail l.
Proof.
  destruct l as [|y l]; cbn.
  - split; [intros Hx; apply elem_of_nil in Hx; contradiction|].
    intros [[=]|Hx]; apply elem_of_nil in Hx; contradiction.
  - rewrite elem_of_cons. split; intros [Hx|Hx]; auto; [left|left]; congruence.
Qed.

Lemma traversal_from_false (s cur : list N) :
  last s <> Some LF ->
  traversal_from false s = true <-> py ".." ∈ tail (split_from (ord "/") cur s).
Proof.
  revert cur. induction s as [|c s IH]; intros cur Hl.
  - cbn. split; [discriminate | intros Hx; apply elem_of_nil in Hx; contradiction].
  - pose proof (last_cons_cons c s Hl) as Hl'.
    cbn [traversal_from split_from andb orb].
    destruct (c =? ord "/")%N.
    + cbn [tail andb]. rewrite <- traversal_from_true.
      rewrite traversal_from_true, orb_true_iff, (dotdot_end_spec s Hl'), (IH [] Hl').
      symmetry. apply elem_of_split_head.
    + cbn [andb orb]. apply IH, Hl'.
Qed.

(** The traversal pattern finds a match exactly in the paths that have a
    component [..]. *)
Lemma path_traversal_spec (s : list N) :
  last s <> Some LF ->
  PATH_TRAVERSAL_PATTERN s = true <-> py ".." ∈ str_split (ord "/") s.
Proof.
  intros Hl. unfold PATH_TRAVERSAL_PATTERN.
  rewrite traversal_from_true, orb_true_iff, (dotdot_end_spec s Hl),
    (traversal_from_false s [] Hl).
  symmetry. apply elem_of_split_head.
Qed.

Lemma existsb_forallb (f : N -> bool) (s : list N) :
  existsb f s = negb (forallb (fun c => negb (f c)) s).
Proof.
  induction s as [|c s IH]; [reflexivity|].
  cbn. rewrite IH. destruct (f c); reflexivity.
Qed.

Lemma startswith_slash (s : list N) :
  startswith (py "/") s = true <-> head s = Some (ord "/").
Proof.
  destruct s as [|c s]; cbn; [split; discriminate|].
  rewrite andb_true_r, N.eqb_eq. split; [intros <-; reflexivity | intros [= <-]; reflexivity].
Qed.

Lemma validate_file_path_ret (file_path field_name r : list N) :
  validate_file_path file_path field_name = Ret r <->
  r = strip file_path /\ r <> [] /\ length r <= 1000 /\
  forallb (fun c => negb (dangerous_path_class c)) r = true /\
  (py ".." ∉ str_split (ord "/") r) /\
  head r <> Some (ord "/") /\
  (0%N ∉ r).
Proof.
  unfold validate_file_path, bad_request.
  destruct (truthy file_path) eqn:Hs; cbn [negb].
  2:{ apply truthy_false in Hs. subst file_path.
      split; [discriminate | intros (-> & Hne & _); exfalso; apply Hne; reflexivity]. }
  destruct (truthy (strip file_path)) eqn:Hst; cbn [negb].
  2:{ apply truthy_false in Hst.
      split; [discriminate | intros (-> & Hne & _); contradiction]. }
  pose proof (stripped_last_not_LF _ (strip_stripped file_path)) as Hl.
  assert (Hne : strip file_path <> []).
  { intros Hnil. rewrite Hnil in Hst. discriminate. }
  destruct (1000 <? length (strip file_path)) eqn:Hlen.
  { apply Nat.ltb_lt in Hlen. split; [discriminate | intros (-> & _ & Hle & _); lia]. }
  apply Nat.ltb_ge in Hlen.
  unfold DANGEROUS_PATH_CHARS, search_class. rewrite existsb_forallb.
  destruct (forallb (fun c => negb (dangerous_path_class c)) (strip file_path)) eqn:Hd;
    cbn [negb].
  2:{ split; [discriminate | intros (-> & _ & _ & Hall & _); congruence]. }
  destruct (PATH_TRAVERSAL_PATTERN (strip file_path)) eqn:Ht.
  { apply (path_traversal_spec _ Hl) in Ht.
    split; [discriminate | intros (-> & _ & _ & _ & Hno & _); contradiction]. }
  assert (Hno : py ".." ∉ str_split (ord "/") (strip file_path)).
  { intros Hin. apply (path_traversal_spec _ Hl) in Hin. congruence. }
  destruct (startswith (py "/") (strip file_path)) eqn:Hsl.
  { apply startswith_slash in Hsl.
    split; [discriminate | intros (-> & _ & _ & _ & _ & Hh & _); contradiction]. }
  assert (Hh : head (strip file_path) <> Some (ord "/")).
  { intros Hh. apply startswith_slash in Hh. congruence. }
  rewrite str_in_single. case_bool_decide as Hz.
  { split; [discriminate | intros (-> & _ & _ & _ & _ & _ & Hnz); contradiction]. }
  split.
  - intros [= <-]. auto 10.
  - intros (-> & _). reflexivity.
Qed.

(** X4: [validate_file_path] returns exactly the stripped path, and
    does so exactly when the stripped path is not empty, has at most 1000
    characters, none of them one of ; | & ` $ ( ) { } [ ] < > ! \ or the
    null character, has no component equal to two dots between slashes, and
    does not start with a slash. Every other path is refused with status
    400. *)
Theorem validate_file_path_accepts (file_path field_name r : list N) :
  (validate_file_path file_path field_name = Ret r <->
   r = strip file_path /\ r <> [] /\ length r <= 1000 /\
   forallb (fun c => negb (dangerous_path_class c)) r = true /\
   (py ".." ∉ str_split (ord "/") r) /\
   head r <> Some (ord "/") /\
   (0%N ∉ r)) /\
  (forall e, validate_file_path file_path field_name = Raise e ->
             exists detail, e = HTTPException 400 detail).
Proof.
  split; [apply validate_file_path_ret|].
  unfold validate_file_path, bad_request. intros e.
  repeat match goal with |- context [if ?b then _ else _] => destruct b end;
    intros [= <-]; eauto.
Qed.

(** * The lock registry, seen by its readers *)

(** X5: reading the lock changes nothing that can be observed.
    [get_lock_status] reports the lock of the worktree, with the operation
    and its start time only while the lock is held; [is_locked] returns the
    same flag and leaves the same registry; the lock of every worktree, the
    clock, the id counter and the call history are as before. A worktree
    never seen before is reported as free, with every field empty. *)
Theorem lock_status_reads_change_nothing (k : list N) (r : registry) :
  let l := lock_of r k in
  (get_lock_status k r).1
    = Ret (mkLockStatus (lock l)
             (if lock l then current_operation l else None)
             (if lock l then operation_started_at l else None)
             (last_completed_operation l) (last_completed_at l)
             (last_completion_id l)) /\
  (is_locked k r).1 = Ret (lock l) /\
  (is_locked k r).2 = (get_lock_status k r).2 /\
  (forall k', lock_of (get_lock_status k r).2 k' = lock_of r k') /\
  clock (get_lock_status k r).2 = clock r /\
  uuid_count (get_lock_status k r).2 = uuid_count r /\
  history (get_lock_status k r).2 = history r /\
  (worktree_locks r !! k = None ->
   (get_lock_status k r).1 = Ret (mkLockStatus false None None None None None)).
Proof.
  intros l. subst l. rewrite get_lock_status_run, is_locked_run. cbn [fst snd].
  split; [reflexivity|]. split; [reflexivity|]. split; [reflexivity|].
  split; [intros k'; apply lock_of_touch|].
  split; [reflexivity|]. split; [reflexivity|]. split; [reflexivity|].
  intros Hk. unfold lock_of. rewrite Hk. reflexivity.
Qed.

(** X6: one cycle of the lock. After [acquire_lock] on a free worktree
    the status shows the lock held with the operation name and the time of
    the call, the record of the last completion untouched; after
    [release_lock] it shows the lock free, the operation as the last
    completed one, the completion time and a fresh completion id; the next
    [acquire_lock] succeeds; the locks of the other worktrees are never
    changed. *)
Theorem lock_cycle (uuid4 : nat -> list N) (k l l' : list N) (r : registry) :
  lock (lock_of r k) = false ->
  let r1 := (acquire_lock k l r).2 in
  let r2 := (release_lock uuid4 k r1).2 in
  (get_lock_status k r1).1
    = Ret (mkLockStatus true (Some l) (Some (clock r))
             (last_completed_operation (lock_of r k))
             (last_completed_at (lock_of r k))
             (last_completion_id (lock_of r k))) /\
  (get_lock_status k r2).1
    = Ret (mkLockStatus false None None (Some l) (Some (S (clock r)))
             (Some (uuid4 (uuid_count r)))) /\
  (acquire_lock k l' r2).1 = Ret true /\
  (forall k', k' <> k -> lock_of r2 k' = lock_of r k').
Proof.
  intros Hfree r1 r2. subst r2 r1.
  rewrite !get_lock_status_run, !acquire_lock_run, Hfree. cbn [fst snd].
  rewrite release_lock_run. cbn [fst snd].
  destruct r as [m c u h].
  rewrite !lock_of_insert, !decide_True by reflexivity.
  cbn [lock current_operation operation_started_at last_completed_operation
       last_completed_at last_completion_id clock uuid_count].
  split; [reflexivity|]. split; [reflexivity|]. split; [reflexivity|].
  intros k' Hne.
  repeat (cbn [worktree_locks]; rewrite lock_of_insert, decide_False by congruence).
  reflexivity.
Qed.

Lemma lock_cycle_witness :
  (get_lock_status (py "/repo")
     (release_lock demo_uuid4 (py "/repo")
        (acquire_lock (py "/repo") (py "Running all models") empty_registry).2).2).1
  = Ret (mkLockStatus false None None (Some (py "Running all models")) (Some 1)
           (Some [0%N])).
Proof.
  destruct (lock_cycle demo_uuid4 (py "/repo") (py "Running all models")
              (py "Testing all models") empty_registry) as (_ & H & _).
  - reflexivity.
  - exact H.
Defined.

(** * Submitting, running and polling *)

Section RouteFacts.
Variable uuid4 : nat -> list N.
Variables env_vars_t environ_t Request : Type.
Variable resolve : list N -> list N.
Variable path_exists : list N -> bool.
Variable lower_strip : list N -> list N.
Variable valid_commands_joined : list N.
Variable validate_dbt_selector : list N -> list N -> outcome (list N).
Variable validate_dbt_target : list N -> outcome (list N).
Variable get_env_vars_from_cookie : Request -> list N -> env_vars_t.
Variable get_venv_dbt_path : list N -> outcome (list N).
Variable get_dbt_env : list N -> env_vars_t -> outcome environ_t.
Variable run_command :
  list (list N) -> list N -> nat -> environ_t -> outcome CommandResult.

Abbreviation world := (world env_vars_t).
Abbreviation run_dbt_command_task :=
  (DbtRoutes.run_dbt_command_task uuid4 get_venv_dbt_path get_dbt_env run_command).
Abbreviation dbt_command :=
  (DbtRoutes.dbt_command resolve path_exists lower_strip valid_commands_joined
     validate_dbt_selector validate_dbt_target get_env_vars_from_cookie).
Abbreviation accepted_for :=
  (DbtRoutes.accepted_for resolve path_exists lower_strip validate_dbt_selector
     validate_dbt_target).
Abbreviation get_dbt_operation_status := (DbtRoutes.get_dbt_operation_status resolve).
Abbreviation get_dbt_command_status := (DbtRoutes.get_dbt_command_status resolve).

(** A submit is accepted for its own path, or fails one of the checks made
    before the lock is looked at and leaves the world as it is. *)
Lemma dbt_command_checks (action : DbtCommandRequest) (request : Request) (w : world) :
  (exists selector target, accepted_for (resolve (req_path action)) action selector target) \/
  (exists e, dbt_command action request w = (Raise e, w)).
Proof.
  unfold DbtRoutes.dbt_command, DbtRoutes.accepted_for.
  destruct (path_exists (resolve (req_path action))) eqn:Hex; cbn [negb];
    [|right; eauto].
  case_bool_decide as Hcmd; cbn [negb]; [|right; eauto].
  destruct (validate_dbt_selector (req_selector action) (py "selector"))
    as [selector|e1] eqn:Hsel; [|right; exists e1; reflexivity].
  destruct (validate_dbt_target (req_target action))
    as [target|e2] eqn:Htgt; [|right; exists e2; reflexivity].
  left. exists selector, target. auto.
Qed.


(** X8: [run_dbt_command_task] touches the status entry of its
    own path only and schedules nothing. When it returns, the entry of its
    path is final: its status is success or failed, never running, it
    carries the command and the selector of the task and a completion time
    but no start time; success means that [run_command] returned with code 0
    and the entry holds its standard output and no error; failed means that
    the entry holds an error and no output. *)
Theorem run_dbt_command_task_final_status
    (path command selector target : list N) (full_refresh : bool)
    (env_vars : env_vars_t) (w : world) :
  let res := run_dbt_command_task path command selector target full_refresh env_vars w in
  (forall p, p <> path ->
     dbt_command_status res.2 !! p = dbt_command_status w !! p) /\
  background_tasks res.2 = background_tasks w /\
  (res.1 = Ret tt ->
   exists js,
     dbt_command_status res.2 !! path = Some js /\
     status js <> Running /\
     DbtRoutes.command js = command /\ DbtRoutes.selector js = selector /\
     started_at js = None /\ is_Some (completed_at js) /\
     (status js = Success ->
      exists cmd env r,
        run_command cmd path 300 env = Ret r /\ returncode r = 0%Z /\
        output js = Some (stdout r) /\ error js = None) /\
     (status js = Failed -> is_Some (error js) /\ output js = None)).
Proof.
  intros res. subst res.
  unfold DbtRoutes.run_dbt_command_task, try_finally.
  set (inner := try_except _ _ w).
  rewrite (surjective_pairing inner).
  rewrite with_locks_run, release_lock_run.
  cbn [fst snd dbt_command_status background_tasks].
  subst inner.
  unfold try_except, bind, with_locks, lift, datetime_now, set_status, modify,
    of_outcome, ret, raise.
  cbn [fst snd locks dbt_command_status background_tasks].
  assert (Hne : forall (p : list N) (js1 js2 : job_status) (m : gmap (list N) job_status),
            p <> path -> <[path := js2]> (<[path := js1]> m) !! p = m !! p).
  { intros p js1 js2 m Hp. rewrite !lookup_insert_ne by congruence. reflexivity. }
  assert (Hne1 : forall (p : list N) (js1 : job_status) (m : gmap (list N) job_status),
            p <> path -> <[path := js1]> m !! p = m !! p).
  { intros p js1 m Hp. rewrite !lookup_insert_ne by congruence. reflexivity. }
  destruct (get_venv_dbt_path path) as [exe|[]];
    cbn [fst snd locks dbt_command_status background_tasks is_Exception];
    destruct (get_dbt_env path env_vars) as [env|[]];
    cbn [fst snd locks dbt_command_status background_tasks is_Exception];
    try match goal with
        | |- context [run_command ?cmd path 300 env] =>
            destruct (run_command cmd path 300 env) as [r|[]] eqn:Hrun;
            cbn [fst snd locks dbt_command_status background_tasks is_Exception];
            try (destruct (cr_success r) eqn:Hok;
                 cbn [fst snd locks dbt_command_status background_tasks])
        end;
    (split; [intros p Hp; first [apply Hne, Hp | apply Hne1, Hp]|]);
    (split; [reflexivity|]);
    intros Hret; try discriminate;
    (eexists; split; [apply lookup_insert_eq|]);
    cbn [status DbtRoutes.command DbtRoutes.selector started_at completed_at output error];
    (split; [discriminate|]); (split; [reflexivity|]); (split; [reflexivity|]);
    (split; [reflexivity|]); (split; [eauto|]);
    (split; [try discriminate | first [discriminate | intros _; split; [eauto | reflexivity]]]).
  all: intros _; eexists _, _, r; split; [exact Hrun|];
    split; [|split; reflexivity].
  all: unfold cr_success in Hok; apply Z.eqb_eq in Hok; exact Hok.
Qed.

Lemma get_dbt_operation_status_run (project_path : list N) (w : world) :
  let l := lock_of (locks w) (resolve project_path) in
  get_dbt_operation_status project_path w =
    (Ret (lock l, if lock l then current_operation l else None,
          last_completed_operation l, last_completion_id l),
     mkWorld (touch (resolve project_path) (locks w))
       (dbt_command_status w) (background_tasks w)).
Proof.
  unfold DbtRoutes.get_dbt_operation_status.
  erewrite bind_run by (rewrite with_locks_run, get_lock_status_run; reflexivity).
  reflexivity.
Qed.

(** X9: the two polls are read-only. [get_dbt_operation_status]
    leaves the lock of every worktree, the call history, the job statuses
    and the scheduled tasks as they are and reports the lock flag, the
    running operation only while the lock is held, and the last completed
    operation with its completion id; [get_dbt_command_status] returns the
    stored entry of the resolved path and leaves the whole state as it
    is. *)
Theorem status_polls_change_nothing (project_path : list N) (w : world) :
  let polled := (get_dbt_operation_status project_path w).2 in
  (forall k, lock_of (locks polled) k = lock_of (locks w) k) /\
  history (locks polled) = history (locks w) /\
  dbt_command_status polled = dbt_command_status w /\
  background_tasks polled = background_tasks w /\
  get_dbt_command_status project_path w
    = (Ret (dbt_command_status w !! resolve project_path), w) /\
  (get_dbt_operation_status project_path w).1
    = Ret (lock (lock_of (locks w) (resolve project_path)),
           if lock (lock_of (locks w) (resolve project_path))
           then current_operation (lock_of (locks w) (resolve project_path))
           else None,
           last_completed_operation (lock_of (locks w) (resolve project_path)),
           last_completion_id (lock_of (locks w) (resolve project_path))).
Proof.
  intros polled. subst polled. rewrite get_dbt_operation_status_run.
  cbn [fst snd locks dbt_command_status background_tasks].
  split; [intros k; apply lock_of_touch|].
  repeat split.
Qed.


End RouteFacts.



(** X11: with the validators of utils/input_validation.py,
    every submit that [dbt_command] accepts schedules exactly one task, for
    the resolved path, whose command is one of compile, run, test and seed,
    whose selector and target are the stripped ones of the request, within
    1000 and 100 characters, made of the allowed characters only, the
    selector free of shell metacharacters; the selector in the answer is the
    scheduled one. *)
Theorem dbt_command_schedules_validated
    (env_vars_t Request : Type)
    (resolve : list N -> list N) (path_exists : list N -> bool)
    (lower_strip : list N -> list N) (valid_commands_joined : list N)
    (get_env_vars_from_cookie : Request -> list N -> env_vars_t)
    (action : DbtCommandRequest) (request : Request)
    (w w' : world env_vars_t) (r : started_response) :
  dbt_command resolve path_exists lower_strip valid_commands_joined
    validate_dbt_selector validate_dbt_target get_env_vars_from_cookie
    action request w = (Ret r, w') ->
  exists t,
    background_tasks w' = background_tasks w ++ [t] /\
    task_path t = resolve (req_path action) /\
    task_command t ∈ VALID_DBT_COMMANDS /\
    task_selector t = strip (req_selector action) /\
    task_target t = strip (req_target action) /\
    length (task_selector t) <= 1000 /\ length (task_target t) <= 100 /\
    forallb selector_char (task_selector t) = true /\
    forallb dbt_target_class (task_target t) = true /\
    (forall d, d ∈ shell_metacharacters -> d ∉ task_selector t) /\
    resp_selector r = task_selector t.
Proof.
  intros Hrun.
  destruct (dbt_command_checks env_vars_t Request resolve path_exists lower_strip
              valid_commands_joined validate_dbt_selector validate_dbt_target
              get_env_vars_from_cookie action request w)
    as [(selector & target & Hacc) | (e & He)]; [|congruence].
  rewrite (dbt_command_run env_vars_t Request resolve path_exists lower_strip
             valid_commands_joined validate_dbt_selector validate_dbt_target
             get_env_vars_from_cookie _ action request selector target w Hacc)
    in Hrun.
  cbv zeta in Hrun.
  destruct (lock (lock_of (locks w) (resolve (req_path action)))); [discriminate|].
  injection Hrun as <- <-.
  destruct Hacc as (_ & _ & Hcmd & Hsel & Htgt).
  apply validate_dbt_selector_ret in Hsel as (Hs1 & Hs2 & Hs3).
  pose proof (selector_chars_no_metacharacter _ Hs3) as Hsafe.
  apply validate_dbt_target_ret in Htgt as (Ht1 & Ht2 & Ht3).
  eexists. split; [reflexivity|].
  cbn [task_path task_command task_selector task_target background_tasks
       resp_selector].
  auto 12.
Qed.

Lemma dbt_command_schedules_validated_witness :
  exists t,
    background_tasks
      (dbt_command id (fun _ => true) id (py "compile, run, test, seed")
         validate_dbt_selector validate_dbt_target demo_cookie
         (demo_request (py "run") (py " +orders ")) tt demo_world).2 = [] ++ [t] /\
    task_selector t = py "+orders".
Proof.
  destruct (dbt_command_schedules_validated unit unit id (fun _ => true) id
              (py "compile, run, test, seed") demo_cookie
              (demo_request (py "run") (py " +orders ")) tt demo_world
              (dbt_command id (fun _ => true) id (py "compile, run, test, seed")
                 validate_dbt_selector validate_dbt_target demo_cookie
                 (demo_request (py "run") (py " +orders ")) tt demo_world).2
              (mkStarted (py "started") (py "run") (py "+orders")
                 (py "Running: +orders")))
    as (t & Ht & _ & _ & Hs & _).
  - vm_compute. reflexivity.
  - exists t. split; [exact Ht|]. rewrite Hs. vm_compute. reflexivity.
Defined.

(** * Recreating the virtual environment *)

Import VenvRoutes.

Section VenvFacts.
Variable uuid4 : nat -> list N.
Variables env_vars_t Result : Type.
Variable resolve : list N -> list N.
Variable _recreate_venv_sync : list N -> M (world env_vars_t) Result.

Abbreviation world := (world env_vars_t).
Abbreviation recreate_venv :=
  (VenvRoutes.recreate_venv uuid4 resolve _recreate_venv_sync).

Lemma recreate_venv_run (project_path : list N) (w : world) :
  let k := resolve project_path in
  recreate_venv project_path w =
    if lock (lock_of (locks w) k) then
      (Raise (already_running (current_operation (lock_of (locks w) k))),
       mkWorld (touch k (locks w)) (dbt_command_status w) (background_tasks w))
    else
      let w1 := mkWorld (acquire_lock k (py "Setting up environment")
                           (touch k (locks w))).2
                  (dbt_command_status w) (background_tasks w) in
      let during := _recreate_venv_sync project_path w1 in
      (venv_outcome during.1,
       mkWorld (release_lock uuid4 k (locks during.2)).2
         (dbt_command_status during.2) (background_tasks during.2)).
Proof.
  intros k. unfold VenvRoutes.recreate_venv. fold k.
  erewrite bind_run by (rewrite with_locks_run, get_lock_status_run; reflexivity).
  cbn [st_is_locked st_operation].
  destruct (lock (lock_of (locks w) k)) eqn:Hl; [reflexivity|].
  unfold bind at 1. rewrite with_locks_run.
  cbn [fst snd locks dbt_command_status background_tasks].
  rewrite acquire_lock_run, lock_of_touch, Hl.
  cbn [fst snd negb].
  unfold try_finally, try_except.
  match goal with |- context [_recreate_venv_sync project_path ?w1] =>
    destruct (_recreate_venv_sync project_path w1) as [o w2] end.
  cbn [fst snd].
  destruct o as [x|e].
  - rewrite with_locks_run, release_lock_run. reflexivity.
  - destruct e; cbn [is_Exception venv_outcome]; unfold raise;
      rewrite with_locks_run, release_lock_run; reflexivity.
Qed.

(** X12: on a free worktree [recreate_venv] takes the lock under
    the name [Setting up environment] before the work starts, changing
    nothing else, and releases it once when the work is over, however it
    ended: the answer is the result of the work, its HTTPException as it is,
    or status 500 for any other exception; afterwards the lock is free, the
    operation is the last completed one, and the rest of the state is as the
    work left it. *)
Theorem recreate_venv_releases_after_work (project_path : list N) (w : world) :
  lock (lock_of (locks w) (resolve project_path)) = false ->
  let k := resolve project_path in
  let res := recreate_venv project_path w in
  exists w1,
    lock_of (locks w1) k
    = mkWorktreeLock true (Some (py "Setting up environment")) (Some (clock (locks w)))
        (last_completed_operation (lock_of (locks w) k))
        (last_completed_at (lock_of (locks w) k))
        (last_completion_id (lock_of (locks w) k)) /\
    (forall k', k' <> k -> lock_of (locks w1) k' = lock_of (locks w) k') /\
    dbt_command_status w1 = dbt_command_status w /\
    background_tasks w1 = background_tasks w /\
    let during := _recreate_venv_sync project_path w1 in
    res.1 = venv_outcome during.1 /\
    history (locks res.2) = history (locks during.2) ++ [CallRelease k] /\
    lock (lock_of (locks res.2) k) = false /\
    last_completed_operation (lock_of (locks res.2) k)
    = current_operation (lock_of (locks during.2) k) /\
    (forall k', k' <> k -> lock_of (locks res.2) k' = lock_of (locks during.2) k') /\
    dbt_command_status res.2 = dbt_command_status during.2 /\
    background_tasks res.2 = background_tasks during.2.
Proof.
  intros Hfree k res. subst res k. rewrite recreate_venv_run. cbv zeta.
  rewrite Hfree.
  exists (mkWorld (acquire_lock (resolve project_path) (py "Setting up environment")
                    (touch (resolve project_path) (locks w))).2
            (dbt_command_status w) (background_tasks w)).
  split; [|split; [|split; [reflexivity|split; [reflexivity|]]]].
  - cbn [locks]. rewrite acquire_lock_run, lock_of_touch, Hfree.
    cbn [snd]. rewrite lock_of_insert, decide_True by reflexivity. reflexivity.
  - intros k' Hne. cbn [locks]. rewrite acquire_lock_run, lock_of_touch, Hfree. cbn [snd]. rewrite lock_of_insert, decide_False by congruence.
    apply lock_of_touch.
  - cbn [fst snd locks dbt_command_status background_tasks].
    match goal with |- context [_recreate_venv_sync project_path ?w1] =>
      destruct (_recreate_venv_sync project_path w1) as [o w2] end.
    cbn [fst snd]. rewrite release_lock_run. cbn [snd history].
    destruct (locks w2) as [m c u h].
    rewrite lock_of_insert, decide_True by reflexivity.
    cbn [lock last_completed_operation history].
    split; [reflexivity|]. split; [reflexivity|]. split; [reflexivity|].
    split; [reflexivity|]. split; [|split; reflexivity].
    intros k' Hne. rewrite lock_of_insert, decide_False by congruence. reflexivity.
Qed.

(** X13: while the lock of the worktree is held,
    [recreate_venv] is refused with status 409 and the name of the running
    operation; it does no work, makes no call to acquire or release, and
    leaves every lock, the job statuses and the scheduled tasks as they
    are. *)
Theorem recreate_venv_refused_while_busy (project_path : list N) (w : world) :
  lock (lock_of (locks w) (resolve project_path)) = true ->
  let res := recreate_venv project_path w in
  res.1 = Raise (HTTPException 409
                   (py "Another operation is already running: " ++
                    fmt_opt (current_operation
                               (lock_of (locks w) (resolve project_path))))) /\
  history (locks res.2) = history (locks w) /\
  (forall k, lock_of (locks res.2) k = lock_of (locks w) k) /\
  dbt_command_status res.2 = dbt_command_status w /\
  background_tasks res.2 = background_tasks w.
Proof.
  intros Hheld res. subst res. rewrite recreate_venv_run. cbv zeta. rewrite Hheld.
  cbn [fst snd locks dbt_command_status background_tasks].
  split; [reflexivity|]. split; [reflexivity|].
  split; [intros k; apply lock_of_touch | split; reflexivity].
Qed.

End VenvFacts.

Lemma recreate_venv_releases_after_work_witness :
  (recreate_venv demo_uuid4 id demo_failing_sync (py "/repo") demo_world).1
  = Raise (HTTPException 500 (py "Error recreating venv: uv not found")) /\
  lock (lock_of (locks (recreate_venv demo_uuid4 id demo_failing_sync (py "/repo")
                          demo_world).2) (py "/repo")) = false.
Proof.
  destruct (recreate_venv_releases_after_work demo_uuid4 unit unit id demo_failing_sync
              (py "/repo") demo_world)
    as (w1 & _ & _ & _ & _ & H1 & _ & H2 & _).
  - reflexivity.
  - split; [rewrite H1; reflexivity | exact H2].
Defined.

Lemma recreate_venv_refused_while_busy_witness :
  (recreate_venv demo_uuid4 id demo_failing_sync (py "/repo") demo_busy_world).1
  = Raise (HTTPException 409
             (py "Another operation is already running: Running all models")) /\
  history (locks (recreate_venv demo_uuid4 id demo_failing_sync (py "/repo")
                    demo_busy_world).2)
  = [CallAcquire (py "/repo") (py "Running all models") true].
Proof.
  destruct (recreate_venv_refused_while_busy demo_uuid4 unit unit id demo_failing_sync
              (py "/repo") demo_busy_world) as (H1 & H2 & _).
  - vm_compute. reflexivity.
  - split; [rewrite H1; vm_compute; reflexivity | rewrite H2; vm_compute; reflexivity].
Defined.

(** X14: a dbt command submitted while [recreate_venv] is at
    work on the same worktree is refused with status 409 and the operation
    name [Setting up environment], and schedules no task; when the handler
    is done the lock is free again and that operation is the last completed
    one. *)
Theorem dbt_command_refused_during_venv_setup
    (uuid4 : nat -> list N) (env_vars_t Request : Type)
    (resolve : list N -> list N) (path_exists : list N -> bool)
    (lower_strip : list N -> list N) (valid_commands_joined : list N)
    (validate_dbt_selector : list N -> list N -> outcome (list N))
    (validate_dbt_target : list N -> outcome (list N))
    (get_env_vars_from_cookie : Request -> list N -> env_vars_t)
    (project_path : list N) (action : DbtCommandRequest) (request : Request)
    (selector target : list N) (w : world env_vars_t) :
  lock (lock_of (locks w) (resolve project_path)) = false ->
  accepted_for resolve path_exists lower_strip validate_dbt_selector
    validate_dbt_target (resolve project_path) action selector target ->
  let submit := dbt_command resolve path_exists lower_strip valid_commands_joined
                  validate_dbt_selector validate_dbt_target get_env_vars_from_cookie
                  action request in
  let res := recreate_venv uuid4 resolve (fun _ => observe submit) project_path w in
  res.1 = Ret (Raise (HTTPException 409
                        (py "Another operation is already running: Setting up environment"))) /\
  background_tasks res.2 = background_tasks w /\
  lock (lock_of (locks res.2) (resolve project_path)) = false /\
  last_completed_operation (lock_of (locks res.2) (resolve project_path))
  = Some (py "Setting up environment").
Proof.
  intros Hfree Hacc submit res. subst res submit.
  rewrite recreate_venv_run. cbv zeta. rewrite Hfree. unfold observe.
  rewrite (dbt_command_run env_vars_t Request resolve path_exists lower_strip
             valid_commands_joined validate_dbt_selector validate_dbt_target
             get_env_vars_from_cookie _ action request selector target _ Hacc).
  cbv zeta. cbn [locks].
  assert (Hheld : lock_of (acquire_lock (resolve project_path)
                             (py "Setting up environment")
                             (touch (resolve project_path) (locks w))).2
                    (resolve project_path)
                  = mkWorktreeLock true (Some (py "Setting up environment"))
                      (Some (clock (locks w)))
                      (last_completed_operation (lock_of (locks w) (resolve project_path)))
                      (last_completed_at (lock_of (locks w) (resolve project_path)))
                      (last_completion_id (lock_of (locks w) (resolve project_path)))).
  { rewrite acquire_lock_run, lock_of_touch, Hfree. cbn [snd].
    rewrite lock_of_insert, decide_True by reflexivity. reflexivity. }
  rewrite Hheld. cbn [lock current_operation fst snd venv_outcome
                      locks dbt_command_status background_tasks].
  split; [reflexivity|]. split; [reflexivity|].
  rewrite release_lock_run. cbn [snd]. rewrite lock_of_touch, Hheld.
  match goal with |- context [touch ?k ?r] => destruct (touch k r) as [m c u h] end.
  rewrite lock_of_insert, decide_True by reflexivity. split; reflexivity.
Qed.

Lemma dbt_command_refused_during_venv_setup_witness :
  (recreate_venv demo_uuid4 id
     (fun _ => observe
        (dbt_command id (fun _ => true) id (py "compile, run, test, seed")
           demo_validate_selector demo_validate_target demo_cookie
           (demo_request (py "run") []) tt))
     (py "/repo") demo_world).1
  = Ret (Raise (HTTPException 409
                  (py "Another operation is already running: Setting up environment"))).
Proof.
  destruct (dbt_command_refused_during_venv_setup demo_uuid4 unit unit id
              (fun _ => true) id (py "compile, run, test, seed")
              demo_validate_selector demo_validate_target demo_cookie
              (py "/repo") (demo_request (py "run") []) tt [] [] demo_world)
    as (H & _).
  - reflexivity.
  - repeat split. refine (bool_decide_unpack _ _). vm_compute. exact I.
  - exact H.
Defined.

(** * Reading, and reading back what was written *)

Section FileRouteFacts.
Variable resolve : list N -> list N.
Variable joinpath : list N -> list N -> list N.
Variable relative_to : list N -> list N -> option (list N).

Abbreviation write_file := (FileRoutes.write_file resolve joinpath relative_to).
Abbreviation read_file := (FileRoutes.read_file resolve joinpath relative_to).

(** [read_file], case by case. *)
Lemma read_file_run (fd : file_data) (s : storage) :
  let project_path := resolve (projectPath fd) in
  let file_path := joinpath project_path (filePath fd) in
  let s1 := mkStorage (files s) (io_log s ++ [IoRead file_path]) in
  read_file fd s =
    match files s !! file_path with
    | None => (Raise (HTTPException 404 (py "File does not exist")), s)
    | Some Directory => (Raise (HTTPException 400 (py "Path is not a file")), s)
    | Some (File c) =>
        match relative_to (resolve file_path) (resolve project_path) with
        | None =>
            (Raise (HTTPException 403
                      (py "Access denied: File outside project directory")), s)
        | Some _ =>
            match relative_to file_path project_path, c with
            | Some rel, Some text =>
                (Ret (mkReadResponse rel (Some (universal_newlines text)) false None), s1)
            | Some rel, None =>
                (Ret (mkReadResponse rel None true
                        (Some (py "Cannot display binary file"))), s1)
            | None, Some _ =>
                (Raise (HTTPException 500 (py "Error reading file: " ++ subpath_error)), s1)
            | None, None => (Raise (ValueError subpath_error), s1)
            end
        end
    end.
Proof.
  intros project_path file_path s1. subst s1.
  unfold FileRoutes.read_file. fold project_path. fold file_path.
  unfold path_exists, path_is_file, relative_to_or_raise.
  unfold read_text, log_io, modify.
  unfold try_except, bind, get, ret, raise.
  destruct (files s !! file_path) as [[|c]|] eqn:Hfile;
    cbn [files io_log];
    rewrite ?Hfile;
    try (rewrite bool_decide_eq_true_2 by eauto);
    try (rewrite bool_decide_eq_false_2 by (intros [? ?]; discriminate));
    repeat (progress (cbv beta iota; cbn [negb files io_log fst snd]; rewrite ?Hfile));
    try reflexivity.
  destruct (relative_to (resolve file_path) _); cbv beta iota; [|reflexivity].
  repeat (progress (cbv beta iota; cbn [negb files io_log fst snd]; rewrite ?Hfile)).
  destruct c as [text|];
    repeat (progress (cbv beta iota; cbn [negb files io_log fst snd]; rewrite ?Hfile));
    destruct (relative_to file_path _) as [rel|]; reflexivity.
Qed.

(** [write_file], case by case. *)
Lemma write_file_cases (fd : file_data) (s : storage) :
  let project_path := resolve (projectPath fd) in
  let file_path := joinpath project_path (filePath fd) in
  let read_log := io_log s ++ [IoRead file_path] in
  write_file fd s =
    match files s !! file_path with
    | None => (Raise (HTTPException 404 (py "File does not exist")), s)
    | Some Directory => (Raise (HTTPException 400 (py "Path is not a file")), s)
    | Some (File c) =>
        match relative_to (resolve file_path) (resolve project_path) with
        | None =>
            (Raise (HTTPException 403
                      (py "Access denied: File outside project directory")), s)
        | Some _ =>
            match c with
            | None =>
                (Raise (HTTPException 400 (py "File is not a text file")),
                 mkStorage (files s) read_log)
            | Some stored =>
                let disk_content := universal_newlines stored in
                let answer (rel : list N) (merged_content : list N) (was_merged : bool)
                           (log : list io_event) :=
                  written s file_path rel merged_content was_merged log in
                let failure (merged_content : list N) (log : list io_event) :=
                  (Raise (HTTPException 500 (py "Error writing file: " ++ subpath_error)),
                   mkStorage (<[file_path := File (Some merged_content)]> (files s))
                     (log ++ [IoWrite file_path merged_content])) in
                let save (merged_content : list N) (was_merged : bool)
                         (log : list io_event) :=
                  match relative_to file_path project_path with
                  | Some rel => answer rel merged_content was_merged log
                  | None => failure merged_content log
                  end in
                match originalContent fd with
                | None => save (content fd) false read_log
                | Some original_content =>
                    if bool_decide (disk_content = original_content)
                    then save (content fd) false read_log
                    else
                      let merge_log :=
                        read_log ++ [IoMerge original_content (content fd) disk_content] in
                      let m := simple_merge original_content (content fd) disk_content in
                      if str_in conflict_marker m.1
                      then
                        match relative_to file_path project_path with
                        | Some rel =>
                            (Ret (mkResponse true rel true true (Some m.1)
                                    (Some disk_content)),
                             mkStorage (files s) merge_log)
                        | None =>
                            (Raise (HTTPException 500
                                      (py "Error writing file: " ++ subpath_error)),
                             mkStorage (files s) merge_log)
                        end
                      else save m.1 m.2 merge_log
                end
            end
        end
    end.
Proof.
  intros project_path file_path read_log. subst read_log.
  unfold FileRoutes.write_file. fold project_path. fold file_path.
  unfold path_exists, path_is_file, relative_to_or_raise, written.
  unfold read_text, write_text, log_io, modify.
  unfold try_except, bind, get, ret, raise.
  destruct (files s !! file_path) as [[|c]|] eqn:Hfile;
    cbn [files io_log];
    rewrite ?Hfile;
    try (rewrite bool_decide_eq_true_2 by eauto);
    try (rewrite bool_decide_eq_false_2 by (intros [? ?]; discriminate));
    repeat (progress (cbv beta iota; cbn [negb files io_log fst snd]; rewrite ?Hfile));
    try reflexivity.
  destruct (relative_to (resolve file_path) _); cbv beta iota; [|reflexivity].
  repeat (progress (cbv beta iota; cbn [negb files io_log fst snd]; rewrite ?Hfile)).
  destruct c as [stored|];
    repeat (progress (cbv beta iota; cbn [negb files io_log fst snd]; rewrite ?Hfile));
    [|reflexivity].
  destruct (originalContent fd) as [original_content|].
  - case_bool_decide;
      repeat (progress (cbv beta iota zeta; cbn [negb files io_log fst snd])).
    + destruct (relative_to file_path _) as [rel|]; reflexivity.
    + destruct (simple_merge _ _ _) as [merged_content was_merged].
      cbn [fst snd].
      destruct (str_in conflict_marker merged_content);
        destruct (relative_to file_path _) as [rel|]; reflexivity.
  - cbv zeta. destruct (relative_to file_path _) as [rel|]; reflexivity.
Qed.


Lemma universal_newlines_id (text : list N) :
  CR ∉ text -> universal_newlines text = text.
Proof.
  induction text as [|c rest IH]; [reflexivity|].
  intros Hcr. rewrite not_elem_of_cons in Hcr. destruct Hcr as [Hc Hrest].
  cbn [universal_newlines].
  destruct (N.eqb_spec c CR) as [->|_]; [congruence|].
  rewrite IH by exact Hrest. reflexivity.
Qed.

Lemma simple_merge_unmerged (original user_version disk_version merged_content : list N) :
  simple_merge original user_version disk_version = (merged_content, false) ->
  merged_content = user_version.
Proof.
  unfold simple_merge. repeat case_bool_decide; try congruence.
  destruct (three_way_merge _ _ _) as [[merged_text has] ?].
  destruct has; congruence.
Qed.





(** X19: what [write_file] saves, [read_file] returns. After a
    write answered without conflict the file holds the saved text (the
    client's content, or the merged content of the answer when [merged] is
    set), and reading the same file returns that text with CR LF and CR
    turned into LF, under the path of the write's answer; a text without CR
    is read back unchanged. *)
Theorem write_file_then_read_file (fd : file_data) (s s' : storage) (r : response) :
  let file_path := joinpath (resolve (projectPath fd)) (filePath fd) in
  let saved := if merged r then default [] (resp_content r) else content fd in
  write_file fd s = (Ret r, s') ->
  hasConflicts r = false ->
  files s' = <[file_path := File (Some saved)]> (files s) /\
  (read_file fd s').1
  = Ret (mkReadResponse (path r) (Some (universal_newlines saved)) false None) /\
  (CR ∉ saved ->
   (read_file fd s').1 = Ret (mkReadResponse (path r) (Some saved) false None)).
Proof.
  intros file_path saved Hw Hc.
  assert (Hgoal : files s' = <[file_path := File (Some saved)]> (files s) /\
                  (read_file fd s').1
                  = Ret (mkReadResponse (path r) (Some (universal_newlines saved))
                           false None)).
  { revert Hw. rewrite write_file_cases. cbv zeta. fold file_path. unfold written.
    destruct (files s !! file_path) as [[|[stored|]]|] eqn:Hfile; try discriminate;
      destruct (relative_to (resolve file_path) _) as [r0|] eqn:Hinside;
      try discriminate.
    assert (Hread : forall text log rel,
              relative_to file_path (resolve (projectPath fd)) = Some rel ->
              (read_file fd
                 (mkStorage (<[file_path := File (Some text)]> (files s)) log)).1
              = Ret (mkReadResponse rel (Some (universal_newlines text)) false None)).
    { intros text log rel Hrel. rewrite read_file_run. cbv zeta. fold file_path.
      cbn [files]. rewrite lookup_insert_eq, Hinside, Hrel. reflexivity. }
    destruct (relative_to file_path _) as [rel|] eqn:Hrel.
    - destruct (originalContent fd) as [original_content|];
        [case_bool_decide; [|destruct (str_in _ _) eqn:Hm]|].
      + intros [= <- <-]. subst saved. cbn [merged files path].
        split; [reflexivity|]. apply Hread. reflexivity.
      + intros [= <- <-]. discriminate Hc.
      + intros [= <- <-]. subst saved. cbn [merged files path resp_content].
        destruct (simple_merge _ _ _) as [merged_content was_merged] eqn:Hsm.
        cbn [fst snd]. destruct was_merged; cbn [default].
        * split; [reflexivity|]. apply Hread. reflexivity.
        * apply simple_merge_unmerged in Hsm. subst merged_content.
          split; [reflexivity|]. apply Hread. reflexivity.
      + intros [= <- <-]. subst saved. cbn [merged files path].
        split; [reflexivity|]. apply Hread. reflexivity.
    - destruct (originalContent fd) as [original_content|];
        [case_bool_decide; [|destruct (str_in _ _)]|]; discriminate. }
  destruct Hgoal as [Hfiles Hread]. split; [exact Hfiles|]. split; [exact Hread|].
  intros Hcr. rewrite Hread, universal_newlines_id by exact Hcr. reflexivity.
Qed.


End FileRouteFacts.




Lemma write_file_then_read_file_witness :
  (FileRoutes.read_file demo_resolve demo_joinpath demo_relative_to
     (demo_file_data None (py "select 2\n"))
     (mkStorage (<[py "/repo/models/orders.sql" := File (Some (py "select 2\n"))]>
                   (files (demo_storage (py "select 1" ++ [CR; LF]))))
        [IoRead (py "/repo/models/orders.sql");
         IoWrite (py "/repo/models/orders.sql") (py "select 2\n")])).1
  = Ret (mkReadResponse (py "models/orders.sql") (Some (py "select 2\n")) false None).
Proof.
  destruct (write_file_then_read_file demo_resolve demo_joinpath demo_relative_to
              (demo_file_data None (py "select 2\n"))
              (demo_storage (py "select 1" ++ [CR; LF]))
              (mkStorage (<[py "/repo/models/orders.sql" := File (Some (py "select 2\n"))]>
                            (files (demo_storage (py "select 1" ++ [CR; LF]))))
                 [IoRead (py "/repo/models/orders.sql");
                  IoWrite (py "/repo/models/orders.sql") (py "select 2\n")])
              (mkResponse true (py "models/orders.sql") false false None None))
    as (_ & _ & H).
  - vm_compute. reflexivity.
  - reflexivity.
  - apply H. vm_compute. intros Hin.
    repeat (apply elem_of_cons in Hin; destruct Hin as [Hin|Hin]; [discriminate|]).
    apply elem_of_nil in Hin. exact Hin.
Defined.


(** * New files *)

Section CreateFileFacts.
Variable resolve : list N -> list N.
Variable joinpath : list N -> list N -> list N.
Variable http_exception_str : nat -> list N -> list N.

Abbreviation create_file := (FileRoutes.create_file resolve joinpath http_exception_str).
Abbreviation untitled_loop := (FileRoutes.untitled_loop joinpath).

Lemma untitled_names_lookup (i : nat) (name : list N) :
  untitled_names !! i = Some name ->
  (i = 0 /\ name = py "untitled") \/
  (exists k, i = S k /\ k < 999 /\ name = py "untitled" ++ str_of_nat (2 + k)).
Proof.
  unfold untitled_names. destruct i as [|k].
  - intros [= <-]. left. split; reflexivity.
  - change ((?x :: ?l) !! S k) with (l !! k).
    change (map ?f ?l) with (f <$> l).
    rewrite list_lookup_fmap.
    destruct (seq 2 999 !! k) as [n|] eqn:Hn; [|discriminate].
    apply lookup_seq in Hn. destruct Hn as [-> Hk].
    intros [= <-]. right. exists k. repeat split. exact Hk.
Qed.

Lemma untitled_names_numbered (k : nat) :
  k < 999 -> untitled_names !! S k = Some (py "untitled" ++ str_of_nat (2 + k)).
Proof.
  intros Hk. unfold untitled_names.
  change ((?x :: ?l) !! S k) with (l !! k).
  change (map ?f ?l) with (f <$> l).
  rewrite list_lookup_fmap, lookup_seq_lt by exact Hk. reflexivity.
Qed.

Lemma path_exists_run (p : list N) (s : storage) :
  path_exists p s = (Ret (bool_decide (is_Some (files s !! p))), s).
Proof. reflexivity. Qed.

(** The loop stops at the first number whose name is free. *)
Lemma untitled_loop_free (target_dir folder : list N) (s : storage) (n : nat) :
  forall rounds counter,
    counter + n <= 1000 -> n < rounds ->
    (forall i, i < n ->
       is_Some (files s !! joinpath target_dir (py "untitled" ++ str_of_nat (counter + i)))) ->
    files s !! joinpath target_dir (py "untitled" ++ str_of_nat (counter + n)) = None ->
    untitled_loop rounds target_dir folder counter s
    = (Ret (mkCreateResponse
              (relative_name folder (py "untitled" ++ str_of_nat (counter + n))) true),
       mkStorage (<[joinpath target_dir (py "untitled" ++ str_of_nat (counter + n))
                    := File (Some [])]> (files s)) (io_log s)).
Proof.
  induction n as [|n IH]; intros rounds counter Hle Hlt Htaken Hfree;
    (destruct rounds as [|rounds]; [lia|]); cbn [FileRoutes.untitled_loop].
  - rewrite Nat.add_0_r in *.
    rewrite (bind_run _ _ _ _ _ (path_exists_run _ _)), Hfree.
    rewrite bool_decide_eq_false_2 by (intros [? ?]; discriminate).
    reflexivity.
  - rewrite (bind_run _ _ _ _ _ (path_exists_run _ _)).
    pose proof (Htaken 0 ltac:(lia)) as H0. rewrite Nat.add_0_r in H0.
    rewrite bool_decide_eq_true_2 by exact H0.
    cbv beta iota. cbn [negb].
    destruct (Nat.ltb_spec 1000 (counter + 1)) as [Hgt|_]; [lia|].
    rewrite (IH rounds (counter + 1)).
    + replace (counter + 1 + n) with (counter + S n) by lia. reflexivity.
    + lia.
    + lia.
    + intros i Hi. replace (counter + 1 + i) with (counter + S i) by lia.
      apply Htaken. lia.
    + replace (counter + 1 + n) with (counter + S n) by lia. exact Hfree.
Qed.

(** With every number up to 1000 taken, the loop gives up. *)
Lemma untitled_loop_full (target_dir folder : list N) (s : storage) (n : nat) :
  forall rounds counter,
    counter + n = 1000 -> n < rounds ->
    (forall i, i <= n ->
       is_Some (files s !! joinpath target_dir (py "untitled" ++ str_of_nat (counter + i)))) ->
    untitled_loop rounds target_dir folder counter s
    = (Raise (HTTPException 500 (py "Unable to generate unique filename")), s).
Proof.
  induction n as [|n IH]; intros rounds counter Hle Hlt Htaken;
    (destruct rounds as [|rounds]; [lia|]); cbn [FileRoutes.untitled_loop];
    rewrite (bind_run _ _ _ _ _ (path_exists_run _ _));
    pose proof (Htaken 0 ltac:(lia)) as H0; rewrite Nat.add_0_r in H0;
    rewrite bool_decide_eq_true_2 by exact H0;
    cbv beta iota; cbn [negb].
  - destruct (Nat.ltb_spec 1000 (counter + 1)) as [_|Hgt]; [|lia]. reflexivity.
  - destruct (Nat.ltb_spec 1000 (counter + 1)) as [Hgt|_]; [lia|].
    apply IH; [lia|lia|].
    intros i Hi. replace (counter + 1 + i) with (counter + S i) by lia.
    apply Htaken. lia.
Qed.

(** The checks [create_file] makes before it looks for a name. *)
Lemma create_file_run (request : CreateFileRequest) (s : storage) :
  let project_path := resolve (create_path request) in
  let folder := create_folder request in
  let target_dir := if truthy folder then joinpath project_path folder else project_path in
  is_Some (files s !! project_path) ->
  (truthy folder = true -> files s !! target_dir = Some Directory) ->
  create_file request s =
    match
      (if bool_decide (is_Some (files s !! joinpath target_dir (py "untitled")))
       then untitled_loop 999 target_dir folder 2 s
       else (Ret (mkCreateResponse (relative_name folder (py "untitled")) true),
             mkStorage (<[joinpath target_dir (py "untitled") := File (Some [])]> (files s))
               (io_log s)))
    with
    | (Ret r, s') => (Ret r, s')
    | (Raise e, s') =>
        if is_Exception e
        then (Raise (HTTPException 500
                       (py "Error creating file: " ++ str_of_exception http_exception_str e)),
              s')
        else (Raise e, s')
    end.
Proof.
  intros project_path folder target_dir Hproject Hfolder. subst target_dir.
  unfold FileRoutes.create_file. fold project_path. fold folder.
  rewrite (bind_run _ _ _ _ _ (path_exists_run _ _)).
  rewrite bool_decide_eq_true_2 by exact Hproject.
  cbv beta iota. cbn [negb].
  destruct (truthy folder) eqn:Htruthy.
  - specialize (Hfolder eq_refl).
    erewrite bind_run; cycle 1.
    { rewrite (bind_run _ _ _ _ _ (path_exists_run _ _)).
      rewrite Hfolder, bool_decide_eq_true_2 by eauto.
      cbv beta iota. cbn [negb].
      unfold path_is_dir, bind, get, ret. rewrite Hfolder. reflexivity. }
    unfold try_except.
    rewrite (bind_run _ _ _ _ _ (path_exists_run _ _)).
    case_bool_decide; cbv beta iota; cbn [negb]; [|reflexivity].
    destruct (untitled_loop 999 _ _ 2 s) as [[r|e] s']; [reflexivity|].
    destruct (is_Exception e); reflexivity.
  - erewrite bind_run; cycle 1. { reflexivity. }
    unfold try_except.
    rewrite (bind_run _ _ _ _ _ (path_exists_run _ _)).
    case_bool_decide; cbv beta iota; cbn [negb]; [|reflexivity].
    destruct (untitled_loop 999 _ _ 2 s) as [[r|e] s']; [reflexivity|].
    destruct (is_Exception e); reflexivity.
Qed.

(** X21: [create_file] creates the first free name of [untitled],
    [untitled2], ..., [untitled1000]: when the names before it exist in the
    target folder and it does not, an empty file of that name is created
    there, nothing else changes, and the answer gives the name, after the
    folder of the request and a slash when there is one. *)
Theorem create_file_first_free (request : CreateFileRequest) (s : storage)
    (i : nat) (name : list N) :
  let project_path := resolve (create_path request) in
  let folder := create_folder request in
  let target_dir := if truthy folder then joinpath project_path folder else project_path in
  is_Some (files s !! project_path) ->
  (truthy folder = true -> files s !! target_dir = Some Directory) ->
  untitled_names !! i = Some name ->
  (forall j earlier, j < i -> untitled_names !! j = Some earlier ->
     is_Some (files s !! joinpath target_dir earlier)) ->
  files s !! joinpath target_dir name = None ->
  create_file request s
  = (Ret (mkCreateResponse (relative_name folder name) true),
     mkStorage (<[joinpath target_dir name := File (Some [])]> (files s)) (io_log s)).
Proof.
  intros project_path folder target_dir Hproject Hfolder Hname Htaken Hfree.
  rewrite create_file_run by assumption. cbv zeta.
  fold project_path. fold folder. fold target_dir.
  apply untitled_names_lookup in Hname.
  destruct Hname as [[-> ->]|(k & -> & Hk & ->)].
  - rewrite Hfree.
    rewrite bool_decide_eq_false_2 by (intros [? ?]; discriminate). reflexivity.
  - rewrite bool_decide_eq_true_2 by (apply (Htaken 0); [lia|reflexivity]).
    rewrite (untitled_loop_free target_dir folder s k); [reflexivity|lia|lia| |exact Hfree].
    intros j Hj. apply (Htaken (S j)); [lia|].
    apply untitled_names_numbered. lia.
Qed.

(** X22: when [untitled] and [untitled2] to [untitled1000] all exist
    in the target folder, [create_file] creates nothing and fails with status
    500; the detail is [Error creating file: ] followed by the text of the
    inner HTTPException. *)
Theorem create_file_all_taken (request : CreateFileRequest) (s : storage) :
  let project_path := resolve (create_path request) in
  let folder := create_folder request in
  let target_dir := if truthy folder then joinpath project_path folder else project_path in
  is_Some (files s !! project_path) ->
  (truthy folder = true -> files s !! target_dir = Some Directory) ->
  Forall (fun name => is_Some (files s !! joinpath target_dir name)) untitled_names ->
  create_file request s
  = (Raise (HTTPException 500
              (py "Error creating file: "
                 ++ http_exception_str 500 (py "Unable to generate unique filename"))),
     s).
Proof.
  intros project_path folder target_dir Hproject Hfolder Hall.
  rewrite create_file_run by assumption. cbv zeta.
  fold project_path. fold folder. fold target_dir.
  rewrite Forall_lookup in Hall.
  rewrite bool_decide_eq_true_2 by (apply (Hall 0); reflexivity).
  rewrite (untitled_loop_full target_dir folder s 998); [reflexivity|lia|lia|].
  intros j Hj. apply (Hall (S j)). apply untitled_names_numbered. lia.
Qed.

End CreateFileFacts.

Lemma create_file_first_free_witness :
  FileRoutes.create_file demo_resolve demo_joinpath demo_http_exception_str
    demo_create_request (demo_project [py "untitled"; py "untitled2"])
  = (Ret (mkCreateResponse (py "untitled3") true),
     mkStorage (<[py "/repo/untitled3" := File (Some [])]>
                  (files (demo_project [py "untitled"; py "untitled2"]))) []).
Proof.
  apply (create_file_first_free demo_resolve demo_joinpath demo_http_exception_str
           demo_create_request (demo_project [py "untitled"; py "untitled2"])
           2 (py "untitled3")).
  - vm_compute. eauto.
  - discriminate.
  - vm_compute. reflexivity.
  - intros j earlier Hj Hname.
    destruct j as [|[|j]]; [| |lia]; vm_compute in Hname;
      injection Hname as <-; vm_compute; eauto.
  - vm_compute. reflexivity.
Defined.

Lemma create_file_all_taken_witness :
  FileRoutes.create_file demo_resolve demo_joinpath demo_http_exception_str
    demo_create_request demo_full_project
  = (Raise (HTTPException 500
              (py "Error creating file: "
                 ++ demo_http_exception_str 500 (py "Unable to generate unique filename"))),
     demo_full_project).
Proof.
  refine (create_file_all_taken demo_resolve demo_joinpath demo_http_exception_str
            demo_create_request demo_full_project _ _ _).
  - refine (bool_decide_unpack _ _). vm_compute. exact I.
  - discriminate.
  - refine (bool_decide_unpack _ _). vm_compute. exact I.
Defined.

(** * The conflicts the merge reports *)

Lemma merge_step_reports original_lines user_changes disk_changes st i line_nums :
  reports st line_nums ->
  reports (merge_step original_lines user_changes disk_changes st i) line_nums \/
  reports (merge_step original_lines user_changes disk_changes st i) (line_nums ++ [i + 1]).
Proof.
  unfold reports. intros [Hc Hf]. unfold merge_step.
  destruct (user_changes !! i) as [[ut un]|]; destruct (disk_changes !! i) as [[dt dn]|].
  - destruct (bool_decide (un = dn)).
    + left. destruct (bool_decide (ut <> Delete));
        cbn [conflicts has_conflicts]; split; assumption.
    + right. split; cbn [conflicts has_conflicts].
      * rewrite Hc, map_app. reflexivity.
      * rewrite bool_decide_eq_false_2; [reflexivity|].
        intros Hnil. apply app_eq_nil in Hnil. destruct Hnil as [_ [=]].
  - left. destruct (apply_one_side_flag st (ut, un)) as (Hf' & Hc' & _).
    split; congruence.
  - left. destruct (apply_one_side_flag st (dt, dn)) as (Hf' & Hc' & _).
    split; congruence.
  - left. destruct (original_lines !! i); cbn [conflicts has_conflicts]; split; assumption.
Qed.

Lemma merge_fold_reports original_lines user_changes disk_changes (k : nat) :
  exists line_nums,
    reports (foldl (merge_step original_lines user_changes disk_changes)
               (MergeState [] false []) (seq 0 k)) line_nums /\
    StronglySorted lt line_nums /\
    Forall (fun n => 1 <= n <= k) line_nums.
Proof.
  induction k as [|k (line_nums & Hr & Hs & Hb)].
  - exists []. repeat split; constructor.
  - rewrite seq_S, foldl_app. cbn [foldl plus].
    destruct (merge_step_reports original_lines user_changes disk_changes _ k _ Hr)
      as [Hr'|Hr'].
    + exists line_nums. split; [exact Hr'|]. split; [exact Hs|].
      eapply Forall_impl; [exact Hb|]. cbn. lia.
    + exists (line_nums ++ [k + 1]). split; [exact Hr'|]. split.
      * clear Hr Hr'. induction line_nums as [|n rest IH].
        -- repeat constructor.
        -- apply StronglySorted_inv in Hs. destruct Hs as [Hs Hn].
           apply Forall_cons in Hb. destruct Hb as [Hn1 Hb].
           cbn [app]. constructor; [exact (IH Hs Hb)|].
           apply Forall_app. split; [exact Hn|].
           apply Forall_cons. split; [lia|constructor].
      * apply Forall_app. split.
        -- eapply Forall_impl; [exact Hb|]. cbn. lia.
        -- apply Forall_cons. split; [lia|constructor].
Qed.

(** X23: the conflicts [three_way_merge] reports are
    [Conflict at line n] for strictly increasing line numbers [n] between 1
    and the number of lines of the original, the conflict flag is set exactly
    when there is one, and there is none when the user's or the disk's
    version equals the original or the two versions are equal. *)
Theorem three_way_merge_conflict_report (original user_version disk_version : list N) :
  exists line_nums,
    (three_way_merge original user_version disk_version).2
    = map conflict_message line_nums /\
    (three_way_merge original user_version disk_version).1.2
    = negb (bool_decide (line_nums = [])) /\
    StronglySorted lt line_nums /\
    Forall (fun n => 1 <= n <= length (splitlines original)) line_nums /\
    (user_version = original \/ disk_version = original \/ user_version = disk_version ->
     line_nums = []).
Proof.
  assert (Hsome : exists line_nums,
            (three_way_merge original user_version disk_version).2
            = map conflict_message line_nums /\
            (three_way_merge original user_version disk_version).1.2
            = negb (bool_decide (line_nums = [])) /\
            StronglySorted lt line_nums /\
            Forall (fun n => 1 <= n <= length (splitlines original)) line_nums).
  { unfold three_way_merge.
    repeat case_bool_decide; cbn [andb fst snd];
      try (exists []; repeat split; constructor).
    destruct (merge_fold_reports (splitlines original)
                (build_changes (splitlines user_version)
                   (get_opcodes (splitlines original) (splitlines user_version)))
                (build_changes (splitlines disk_version)
                   (get_opcodes (splitlines original) (splitlines disk_version)))
                (length (splitlines original)))
      as (line_nums & [Hc Hf] & Hs & Hb).
    exists line_nums. unfold merge_lines. cbv zeta. auto. }
  destruct Hsome as (line_nums & Hc & Hf & Hs & Hb).
  exists line_nums. repeat split; try assumption.
  intros Hagree.
  assert (Hnone : (three_way_merge original user_version disk_version).2 = []).
  { destruct Hagree as [->|[->| ->]].
    - apply three_way_merge_user_unchanged.
    - apply three_way_merge_disk_unchanged.
    - apply three_way_merge_same_edit. }
  rewrite Hnone in Hc. symmetry in Hc. apply map_eq_nil in Hc. exact Hc.
Qed.

(** * Listing the models *)

Lemma split_from_no_sep (sep : N) (s cur : list N) :
  sep ∉ cur -> Forall (fun piece => sep ∉ piece) (split_from sep cur s).
Proof.
  revert cur. induction s as [|c s IH]; intros cur Hcur; cbn [split_from].
  - repeat constructor. exact Hcur.
  - destruct (N.eqb_spec c sep) as [->|Hc].
    + constructor; [exact Hcur|]. apply IH. apply not_elem_of_nil.
    + apply IH. rewrite elem_of_app, list_elem_of_singleton. intros [?|?]; auto.
Qed.

Lemma split_from_within (sep : N) (s cur : list N) :
  Forall (fun piece => forall c, c ∈ piece -> c ∈ cur ++ s) (split_from sep cur s).
Proof.
  revert cur. induction s as [|c s IH]; intros cur; cbn [split_from].
  - repeat constructor. rewrite app_nil_r. auto.
  - destruct (c =? sep)%N.
    + constructor.
      * intros d Hd. apply elem_of_app. left. exact Hd.
      * eapply Forall_impl; [apply (IH [])|]. cbn. intros piece Hp d Hd.
        apply elem_of_app. right. apply elem_of_cons. right. apply (Hp d Hd).
    + eapply Forall_impl; [apply (IH (cur ++ [c]))|]. cbn. intros piece Hp d Hd.
      specialize (Hp d Hd). rewrite <- app_assoc in Hp. exact Hp.
Qed.

Lemma strip_within (s : list N) (c : N) : c ∈ strip s -> c ∈ s.
Proof.
  intros Hc. unfold strip in Hc.
  destruct (lstrip_suffix s) as (pre & Hs & _).
  destruct (rstrip_prefix (lstrip s)) as (post & Hl & _).
  rewrite Hs, Hl. apply elem_of_app. right. apply elem_of_app. left. exact Hc.
Qed.

(** A name the loop appends has no dot, and no character that its line
    lacks. *)
Lemma model_line_names (models : list (list N)) (line : list N) (avoid : N) :
  avoid ∉ line ->
  Forall (fun name => (ord "." ∉ name) /\ (avoid ∉ name)) models ->
  Forall (fun name => (ord "." ∉ name) /\ (avoid ∉ name)) (model_line models line).
Proof.
  intros Hline Hmodels. unfold model_line.
  destruct (nonempty (strip line) && negb (startswith (py "[") (strip line)));
    [|exact Hmodels].
  assert (Havoid : avoid ∉ strip line) by (intros Hin; apply Hline, strip_within, Hin).
  apply Forall_app. split; [exact Hmodels|]. apply Forall_cons. split; [|constructor].
  change (py ".") with [ord "."]. rewrite str_in_single.
  case_bool_decide as Hdot; [|split; assumption].
  destruct (last (str_split (ord ".") (strip line))) as [name|] eqn:Hlast;
    cbn [default].
  2:{ apply last_None in Hlast. unfold str_split in Hlast.
      destruct (split_from_head (ord ".") [] (strip line)) as (more & rest & Hcons).
      rewrite Hcons in Hlast. discriminate. }
  apply last_Some in Hlast. destruct Hlast as (front & Hsplit).
  pose proof (split_from_no_sep (ord ".") (strip line) [] (not_elem_of_nil _)) as Hsep.
  pose proof (split_from_within (ord ".") (strip line) []) as Hin.
  unfold str_split in Hsplit. rewrite Hsplit in Hsep, Hin.
  apply Forall_app in Hsep as [_ Hsep]. apply Forall_cons in Hsep as [Hsep _].
  apply Forall_app in Hin as [_ Hin]. apply Forall_cons in Hin as [Hin _].
  split; [exact Hsep|]. intros Hname. apply Havoid. exact (Hin _ Hname).
Qed.

Lemma model_lines_names (lines models : list (list N)) (avoid : N) :
  Forall (fun line => avoid ∉ line) lines ->
  Forall (fun name => (ord "." ∉ name) /\ (avoid ∉ name)) models ->
  Forall (fun name => (ord "." ∉ name) /\ (avoid ∉ name)) (foldl model_line models lines).
Proof.
  revert models. induction lines as [|line lines IH]; intros models Hlines Hmodels.
  - exact Hmodels.
  - apply Forall_cons in Hlines as [Hline Hlines]. cbn [foldl].
    apply IH; [exact Hlines|]. apply model_line_names; assumption.
Qed.

Section ListingFacts.
Variables env_vars_t environ_t : Type.
Variable resolve : list N -> list N.
Variable path_exists : list N -> bool.
Variable get_venv_dbt_path : list N -> outcome (list N).
Variable get_dbt_env : list N -> env_vars_t -> outcome environ_t.
Variable run_command :
  list (list N) -> list N -> nat -> environ_t -> outcome CommandResult.
Variable no_env_vars : env_vars_t.

Abbreviation dbt_ls :=
  (DbtRoutes.dbt_ls resolve path_exists InputValidation.validate_dbt_selector
     get_venv_dbt_path get_dbt_env run_command no_env_vars).


End ListingFacts.
